(** * Q-C: the quick-commerce delivery simulation, embedded in Rocq

    A shallow embedding of the simulation core of the repository:
    - [utils/mapUtils.ts]: [getDistanceKm], [isPointInPolygon],
      [generateWaypoints], [getRandomPointInCcr], [getRandomPointNearHotspot];
    - the simulation section: [generateOrdersLogic],
      [assignOrdersToAgentsLogic], [updateAgentsMovementAndStatusLogic],
      [updateAgentFatigueLogic] and the orchestrator [runSimulationStep];
    - the workforce-optimization section: [simplifiedSimulationRun], the
      sweep of [runOptimization] over the agent counts and
      [generateAndSetRecommendation].

    Modelling conventions.
    - A JavaScript [number] that may be fractional (coordinates, distances,
      speeds, fatigue, times in minutes) is an exact rational [Q]; integer
      counters and array indices are [Z] or [nat].  Rounding of IEEE doubles,
      NaN and the infinities are outside the model; [Infinity] as the start
      value of a running minimum is [None].
    - [Math.random()] reads the next element of a random stream
      [nat -> Q]; the position in the stream is threaded through the
      sampling code by a small state monad [Gen].
    - [Math.sin], [Math.cos], [Math.sqrt], [Math.atan2], [Math.PI] and
      Leaflet's [LatLng.distanceTo] are fields of a record [JsMath] that every
      definition takes as a parameter; theorems hold for every [JsMath].
    - Objects that the source mutates in place live in lists; a reference to
      such an object is its index in the list. *)

From Stdlib Require Import QArith Qround ZArith Lia Lqa.
From Stdlib Require Import DecimalString Qabs.
From stdpp Require Import base list strings.

Open Scope Q_scope.

(** ** Numbers *)

Definition Qltb (x y : Q) : bool := negb (Qle_bool y x).
Definition Qleb (x y : Q) : bool := Qle_bool x y.
Definition Qgtb (x y : Q) : bool := Qltb y x.
Definition Qgeb (x y : Q) : bool := Qleb y x.

(** [Math.min] and [Math.max] on finite numbers. *)
Definition Math_min (x y : Q) : Q := if Qleb x y then x else y.
Definition Math_max (x y : Q) : Q := if Qleb x y then y else x.

(** [Math.floor] and [Math.ceil]. *)
Definition Math_floor (x : Q) : Z := Qfloor x.
Definition Math_ceil (x : Q) : Z := Qceiling x.

(** The runtime's transcendental functions and Leaflet's geodesic distance
    (in metres) are parameters of the development. *)
Module LatLng.
Record t := mk { lat : Q; lng : Q }.
End LatLng.

Definition LatLngTuple : Type := Q * Q.

Record JsMath := {
  Math_sin : Q -> Q;
  Math_cos : Q -> Q;
  Math_sqrt : Q -> Q;
  Math_atan2 : Q -> Q -> Q;
  Math_PI : Q;
  distanceTo : LatLng.t -> LatLng.t -> Q
}.

(** ** The random stream *)

Definition Gen (A : Type) : Type := (nat -> Q) -> nat -> A * nat.

Definition gret {A} (a : A) : Gen A := fun _ k => (a, k).
Definition gbind {A B} (m : Gen A) (f : A -> Gen B) : Gen B :=
  fun rnd k => let '(a, k') := m rnd k in f a rnd k'.
Definition Math_random : Gen Q := fun rnd k => (rnd k, S k).

Notation "'let*' x ':=' m 'in' f" := (gbind m (fun x => f))
  (at level 10, x name, m at level 100, f at level 200).

(** ** Static data ([data/ccrData.ts]) *)

(** The exterior ring of [ccrGeoJsonPolygon], in GeoJSON order
    ([longitude, latitude]). *)
Definition ccrRing : list (Q * Q) :=
  [ (7665 # 100, 3085 # 100); (7690 # 100, 3085 # 100);
    (7690 # 100, 3060 # 100); (7665 # 100, 3060 # 100);
    (7665 # 100, 3085 # 100) ].

Definition defaultDarkStoreLocationSim : LatLngTuple := (307333 # 10000, 767794 # 10000).

Definition MINUTES_PER_SIMULATION_STEP : Q := 5.
Definition DYNAMIC_TRAFFIC_UPDATE_INTERVAL_STEPS : Z := 12.
Definition BASE_HANDLING_TIME_MIN_OPT : Q := 5.

Definition ccrSectors : list (string * LatLngTuple) :=
  [ ("Sector 1", (307497 # 10000, 767939 # 10000));
    ("Sector 7", (307452 # 10000, 767852 # 10000));
    ("Sector 8", (30742 # 1000, 767805 # 10000));
    ("Sector 9", (307387 # 10000, 767758 # 10000));
    ("Sector 10", (307355 # 10000, 767711 # 10000));
    ("Sector 11", (307322 # 10000, 767664 # 10000));
    ("Sector 17 (City Center)", (3074 # 100, 76778 # 1000));
    ("Sector 22 (ISBT)", (30735 # 1000, 7677 # 100));
    ("Sector 26 (Grain Mkt)", (30737 # 1000, 768 # 10));
    ("Sector 32 (GMCH)", (30715 # 1000, 76775 # 1000));
    ("Sector 34 (Comp. Mkt)", (30729 # 1000, 76781 # 1000));
    ("Sector 35", (30736 # 1000, 76784 # 1000));
    ("Sector 43 (ISBT)", (30725 # 1000, 7676 # 100));
    ("Industrial Area Ph 1", (30715 # 1000, 76815 # 1000));
    ("Manimajra", (3073 # 100, 7683 # 100));
    ("Mohali Phase 3B2", (30708 # 1000, 7672 # 100));
    ("Mohali Phase 7", (30705 # 1000, 76715 # 1000));
    ("Mohali Sector 70", (30702 # 1000, 7673 # 100));
    ("Mohali IT Park (Sec 66/82)", (30685 # 1000, 76735 # 1000));
    ("Panchkula Sector 5", (30692 # 1000, 76855 # 1000));
    ("Panchkula Sector 11", (30705 # 1000, 7685 # 100));
    ("Panchkula Ind. Area Ph 1", (30715 # 1000, 7686 # 100));
    ("Zirakpur VIP Road", (30647 # 1000, 76825 # 1000));
    ("Zirakpur Patiala Chowk", (3063 # 100, 76815 # 1000));
    ("New Chandigarh/Mullanpur", (3079 # 100, 767 # 10)) ]%string.

(** ** Geometry ([utils/mapUtils.ts]) *)

Section Geometry.
Variable M : JsMath.

Definition getDistanceKm (latlng1 latlng2 : LatLngTuple) : Q :=
    let R := 6371 in
    let lat1 := latlng1.1 in let lon1 := latlng1.2 in
    let lat2 := latlng2.1 in let lon2 := latlng2.2 in
    let dLat := (lat2 - lat1) * Math_PI M / 180 in
    let dLon := (lon2 - lon1) * Math_PI M / 180 in
    let a := Math_sin M (dLat / 2) * Math_sin M (dLat / 2)
             + Math_cos M (lat1 * Math_PI M / 180) * Math_cos M (lat2 * Math_PI M / 180)
               * Math_sin M (dLon / 2) * Math_sin M (dLon / 2) in
    let c := 2 * Math_atan2 M (Math_sqrt M a) (Math_sqrt M (1 - a)) in
    R * c.
End Geometry.

(** The ray-casting loop [for (i = 0, j = n - 1; i < n; j = i++)]: [vj] is
    the vertex visited before [vi], the last vertex at the start.  The ring
    is read as the source reads it: component 0 as latitude ([y]),
    component 1 as longitude ([x]). *)
Fixpoint rayCast (x y : Q) (vj : LatLngTuple) (vs : list LatLngTuple) (inside : bool) : bool :=
  match vs with
  | [] => inside
  | vi :: rest =>
      let xi := vi.2 in let yi := vi.1 in
      let xj := vj.2 in let yj := vj.1 in
      let intersect :=
        negb (Bool.eqb (Qgtb yi y) (Qgtb yj y))
        && Qltb x ((xj - xi) * (y - yi) / (yj - yi) + xi) in
      rayCast x y vi rest (if intersect then negb inside else inside)
  end.

Definition isPointInPolygon (point : LatLngTuple) (polygonCoords : list LatLngTuple) : bool :=
  let x := point.2 in
  let y := point.1 in
  rayCast x y (List.last polygonCoords (0, 0)) polygonCoords false.

Definition generateWaypoints (startLatLng endLatLng : LatLngTuple) (numWaypoints : nat)
  : list LatLng.t :=
  let start := LatLng.mk startLatLng.1 startLatLng.2 in
  let end_ := LatLng.mk endLatLng.1 endLatLng.2 in
  let waypoints :=
    List.map (fun i : nat =>
      let t := inject_Z (Z.of_nat i) / inject_Z (Z.of_nat numWaypoints + 1) in
      LatLng.mk (LatLng.lat start + (LatLng.lat end_ - LatLng.lat start) * t)
                (LatLng.lng start + (LatLng.lng end_ - LatLng.lng start) * t))
      (seq 1 numWaypoints) in
  start :: waypoints ++ [end_].

(** Leaflet's [L.geoJSON(ccrGeoJsonPolygon).getBounds()]: the smallest box
    around the ring, its points read as [longitude, latitude]. *)
Record Bounds := { getNorth : Q; getSouth : Q; getEast : Q; getWest : Q }.

Definition getBounds (ring : list (Q * Q)) : Bounds :=
  match ring with
  | [] => {| getNorth := 0; getSouth := 0; getEast := 0; getWest := 0 |}
  | p :: ps =>
      List.fold_left (fun b q =>
        {| getNorth := Math_max (getNorth b) q.2; getSouth := Math_min (getSouth b) q.2;
           getEast := Math_max (getEast b) q.1; getWest := Math_min (getWest b) q.1 |})
        ps {| getNorth := p.2; getSouth := p.2; getEast := p.1; getWest := p.1 |}
  end.

Definition MAX_ATTEMPTS : Z := 200.

(** The [do ... while] loop of [getRandomPointInCcr].  [attempts] is the
    source's counter; [fuel] bounds the recursion and is never exhausted when
    it starts at [MAX_ATTEMPTS + 1] (lemma [ccrLoop_fuel]). *)
Fixpoint ccrLoop (fuel : nat) (bounds : Bounds) (attempts : Z) : Gen LatLngTuple :=
  match fuel with
  | O => gret defaultDarkStoreLocationSim
  | S fuel' =>
      let* r1 := Math_random in
      let* r2 := Math_random in
      let point : LatLngTuple :=
        (r1 * (getNorth bounds - getSouth bounds) + getSouth bounds,
         r2 * (getEast bounds - getWest bounds) + getWest bounds) in
      let attempts := (attempts + 1)%Z in
      if (attempts >? MAX_ATTEMPTS)%Z then gret defaultDarkStoreLocationSim
      else if negb (isPointInPolygon point ccrRing) then ccrLoop fuel' bounds attempts
      else gret point
  end.

Definition getRandomPointInCcr : Gen LatLngTuple :=
  ccrLoop (Z.to_nat MAX_ATTEMPTS + 1) (getBounds ccrRing) 0.

Section Hotspot.
Variable M : JsMath.

Definition getRandomPointNearHotspot (center : LatLngTuple) (radiusKm : Q) : Gen LatLngTuple :=
    let R_EARTH_KM := 6371 in
    let y0 := center.1 in
    let x0 := center.2 in
    let rd := radiusKm / R_EARTH_KM in
    let* u := Math_random in
    let* v := Math_random in
    let w := rd * Math_sqrt M u in
    let t := 2 * Math_PI M * v in
    let x := w * Math_cos M t in
    let y := w * Math_sin M t in
    let newLon := x / Math_cos M (y0 * Math_PI M / 180) in
    let point : LatLngTuple :=
      (y0 + (y * 180 / Math_PI M), x0 + (newLon * 180 / Math_PI M)) in
    if negb (isPointInPolygon point ccrRing) then getRandomPointInCcr
    else gret point.
End Hotspot.


(** ** Data model ([types.ts]) *)

Inductive AgentStatus := available | to_store | at_store | to_customer | busy.
Inductive OrderStatus := pending | assigned | picked_up | delivered | cancelled.

#[global] Instance AgentStatus_eq_dec : EqDecision AgentStatus.
Proof. solve_decision. Defined.
#[global] Instance OrderStatus_eq_dec : EqDecision OrderStatus.
Proof. solve_decision. Defined.

Module Agent.
Record t := mk {
  id : string;
  lat : Q;
  lng : Q;
  status : AgentStatus;
  currentOrder : option string;
  routePath : list LatLng.t;
  legProgress : Q;
  currentLegIndex : nat;
  fatigueFactor : Q;
  consecutiveDeliveriesSinceRest : Z;
  timeContinuouslyActive : Q;
  totalDistance : Q;
  deliveriesCompleted : Z;
  timeSpentIdle : Q;
  timeSpentDelivering : Q;
  timeSpentAtStore : Q
}.
Definition set_lat (v : Q) (a : t) : t :=
  mk (id a) v (lng a) (status a) (currentOrder a) (routePath a) (legProgress a) (currentLegIndex a) (fatigueFactor a) (consecutiveDeliveriesSinceRest a) (timeContinuouslyActive a) (totalDistance a) (deliveriesCompleted a) (timeSpentIdle a) (timeSpentDelivering a) (timeSpentAtStore a).
Definition set_lng (v : Q) (a : t) : t :=
  mk (id a) (lat a) v (status a) (currentOrder a) (routePath a) (legProgress a) (currentLegIndex a) (fatigueFactor a) (consecutiveDeliveriesSinceRest a) (timeContinuouslyActive a) (totalDistance a) (deliveriesCompleted a) (timeSpentIdle a) (timeSpentDelivering a) (timeSpentAtStore a).
Definition set_status (v : AgentStatus) (a : t) : t :=
  mk (id a) (lat a) (lng a) v (currentOrder a) (routePath a) (legProgress a) (currentLegIndex a) (fatigueFactor a) (consecutiveDeliveriesSinceRest a) (timeContinuouslyActive a) (totalDistance a) (deliveriesCompleted a) (timeSpentIdle a) (timeSpentDelivering a) (timeSpentAtStore a).
Definition set_currentOrder (v : option string) (a : t) : t :=
  mk (id a) (lat a) (lng a) (status a) v (routePath a) (legProgress a) (currentLegIndex a) (fatigueFactor a) (consecutiveDeliveriesSinceRest a) (timeContinuouslyActive a) (totalDistance a) (deliveriesCompleted a) (timeSpentIdle a) (timeSpentDelivering a) (timeSpentAtStore a).
Definition set_routePath (v : list LatLng.t) (a : t) : t :=
  mk (id a) (lat a) (lng a) (status a) (currentOrder a) v (legProgress a) (currentLegIndex a) (fatigueFactor a) (consecutiveDeliveriesSinceRest a) (timeContinuouslyActive a) (totalDistance a) (deliveriesCompleted a) (timeSpentIdle a) (timeSpentDelivering a) (timeSpentAtStore a).
Definition set_legProgress (v : Q) (a : t) : t :=
  mk (id a) (lat a) (lng a) (status a) (currentOrder a) (routePath a) v (currentLegIndex a) (fatigueFactor a) (consecutiveDeliveriesSinceRest a) (timeContinuouslyActive a) (totalDistance a) (deliveriesCompleted a) (timeSpentIdle a) (timeSpentDelivering a) (timeSpentAtStore a).
Definition set_currentLegIndex (v : nat) (a : t) : t :=
  mk (id a) (lat a) (lng a) (status a) (currentOrder a) (routePath a) (legProgress a) v (fatigueFactor a) (consecutiveDeliveriesSinceRest a) (timeContinuouslyActive a) (totalDistance a) (deliveriesCompleted a) (timeSpentIdle a) (timeSpentDelivering a) (timeSpentAtStore a).
Definition set_fatigueFactor (v : Q) (a : t) : t :=
  mk (id a) (lat a) (lng a) (status a) (currentOrder a) (routePath a) (legProgress a) (currentLegIndex a) v (consecutiveDeliveriesSinceRest a) (timeContinuouslyActive a) (totalDistance a) (deliveriesCompleted a) (timeSpentIdle a) (timeSpentDelivering a) (timeSpentAtStore a).
Definition set_consecutiveDeliveriesSinceRest (v : Z) (a : t) : t :=
  mk (id a) (lat a) (lng a) (status a) (currentOrder a) (routePath a) (legProgress a) (currentLegIndex a) (fatigueFactor a) v (timeContinuouslyActive a) (totalDistance a) (deliveriesCompleted a) (timeSpentIdle a) (timeSpentDelivering a) (timeSpentAtStore a).
Definition set_timeContinuouslyActive (v : Q) (a : t) : t :=
  mk (id a) (lat a) (lng a) (status a) (currentOrder a) (routePath a) (legProgress a) (currentLegIndex a) (fatigueFactor a) (consecutiveDeliveriesSinceRest a) v (totalDistance a) (deliveriesCompleted a) (timeSpentIdle a) (timeSpentDelivering a) (timeSpentAtStore a).
Definition set_totalDistance (v : Q) (a : t) : t :=
  mk (id a) (lat a) (lng a) (status a) (currentOrder a) (routePath a) (legProgress a) (currentLegIndex a) (fatigueFactor a) (consecutiveDeliveriesSinceRest a) (timeContinuouslyActive a) v (deliveriesCompleted a) (timeSpentIdle a) (timeSpentDelivering a) (timeSpentAtStore a).
Definition set_deliveriesCompleted (v : Z) (a : t) : t :=
  mk (id a) (lat a) (lng a) (status a) (currentOrder a) (routePath a) (legProgress a) (currentLegIndex a) (fatigueFactor a) (consecutiveDeliveriesSinceRest a) (timeContinuouslyActive a) (totalDistance a) v (timeSpentIdle a) (timeSpentDelivering a) (timeSpentAtStore a).
Definition set_timeSpentIdle (v : Q) (a : t) : t :=
  mk (id a) (lat a) (lng a) (status a) (currentOrder a) (routePath a) (legProgress a) (currentLegIndex a) (fatigueFactor a) (consecutiveDeliveriesSinceRest a) (timeContinuouslyActive a) (totalDistance a) (deliveriesCompleted a) v (timeSpentDelivering a) (timeSpentAtStore a).
Definition set_timeSpentDelivering (v : Q) (a : t) : t :=
  mk (id a) (lat a) (lng a) (status a) (currentOrder a) (routePath a) (legProgress a) (currentLegIndex a) (fatigueFactor a) (consecutiveDeliveriesSinceRest a) (timeContinuouslyActive a) (totalDistance a) (deliveriesCompleted a) (timeSpentIdle a) v (timeSpentAtStore a).
Definition set_timeSpentAtStore (v : Q) (a : t) : t :=
  mk (id a) (lat a) (lng a) (status a) (currentOrder a) (routePath a) (legProgress a) (currentLegIndex a) (fatigueFactor a) (consecutiveDeliveriesSinceRest a) (timeContinuouslyActive a) (totalDistance a) (deliveriesCompleted a) (timeSpentIdle a) (timeSpentDelivering a) v.
End Agent.

Module Order.
Record t := mk {
  id : string;
  lat : Q;
  lng : Q;
  timePlaced : Q;
  status : OrderStatus;
  assignedAgentId : option string;
  storeArrivalTime : option Q;
  customerArrivalTime : option Q;
  deliveryTime : option Q
}.
Definition set_status (v : OrderStatus) (a : t) : t :=
  mk (id a) (lat a) (lng a) (timePlaced a) v (assignedAgentId a) (storeArrivalTime a) (customerArrivalTime a) (deliveryTime a).
Definition set_assignedAgentId (v : option string) (a : t) : t :=
  mk (id a) (lat a) (lng a) (timePlaced a) (status a) v (storeArrivalTime a) (customerArrivalTime a) (deliveryTime a).
Definition set_storeArrivalTime (v : option Q) (a : t) : t :=
  mk (id a) (lat a) (lng a) (timePlaced a) (status a) (assignedAgentId a) v (customerArrivalTime a) (deliveryTime a).
Definition set_customerArrivalTime (v : option Q) (a : t) : t :=
  mk (id a) (lat a) (lng a) (timePlaced a) (status a) (assignedAgentId a) (storeArrivalTime a) v (deliveryTime a).
Definition set_deliveryTime (v : option Q) (a : t) : t :=
  mk (id a) (lat a) (lng a) (timePlaced a) (status a) (assignedAgentId a) (storeArrivalTime a) (customerArrivalTime a) v.
End Order.

(** A heat-map sample [{lat, lng, count}]. *)
Definition HeatmapDataPoint : Type := Q * Q * Z.

(** [array.find] and [array.findIndex] by identifier: the first element with
    that id together with its index.  A [null] identifier matches nothing. *)
Definition findAgent (agents : list Agent.t) (id : string) : option (nat * Agent.t) :=
  list_find (fun a => Agent.id a = id) agents.

Definition findOrder (orders : list Order.t) (id : option string) : option (nat * Order.t) :=
  match id with
  | None => None
  | Some oid => list_find (fun o => Order.id o = oid) orders
  end.

(** Truthiness of a nullable string. *)
Definition truthy (s : option string) : bool :=
  match s with
  | None => false
  | Some s => negb (bool_decide (s = ""%string))
  end.

(** ** Fatigue model ([updateAgentFatigueLogic]) *)

Definition FATIGUE_THRESHOLD_DELIVERIES : Z := 5.
Definition FATIGUE_THRESHOLD_TIME_MIN : Q := 180.
Definition FATIGUE_RECOVERY_IDLE_TIME_MIN : Q := 30.
Definition FATIGUE_FACTOR_REDUCTION : Q := 15 # 100.
Definition FATIGUE_FACTOR_RECOVERY_RATE : Q := 25 # 100.

(** The body of the [map] callback; the log lines are not modelled. *)
Definition updateAgentFatigue (agent : Agent.t) : Agent.t :=
  if decide (Agent.status agent = available) then
    if Qltb (Agent.fatigueFactor agent) 1
       && Qgeb (Agent.timeSpentIdle agent) FATIGUE_RECOVERY_IDLE_TIME_MIN then
      let newFatigueFactor :=
        Math_min 1 (Agent.fatigueFactor agent + FATIGUE_FACTOR_RECOVERY_RATE) in
      if Qgtb newFatigueFactor (Agent.fatigueFactor agent) then
        Agent.set_consecutiveDeliveriesSinceRest 0%Z
          (Agent.set_timeContinuouslyActive 0
            (Agent.set_fatigueFactor newFatigueFactor agent))
      else agent
    else agent
  else
    let agent := Agent.set_timeSpentIdle 0 agent in
    if Qgtb (Agent.fatigueFactor agent) (1 # 2) then
      if (Agent.consecutiveDeliveriesSinceRest agent >=? FATIGUE_THRESHOLD_DELIVERIES)%Z
         || Qgeb (Agent.timeContinuouslyActive agent) FATIGUE_THRESHOLD_TIME_MIN then
        Agent.set_timeContinuouslyActive 0
          (Agent.set_consecutiveDeliveriesSinceRest 0%Z
            (Agent.set_fatigueFactor
               (Math_max (1 # 2) (Agent.fatigueFactor agent - FATIGUE_FACTOR_REDUCTION)) agent))
      else agent
    else agent.

Definition updateAgentFatigueLogic (currentAgents : list Agent.t) : list Agent.t :=
  List.map updateAgentFatigue currentAgents.

(** ** Movement and delivery ([updateAgentsMovementAndStatusLogic]) *)

Definition HANDLING_TIME_AT_STORE : Q := 5.

(** What the [forEach] over the agents accumulates besides the agents
    themselves: the order array (orders are mutated in place through it), the
    orders delivered in this step, their summed delivery time and the heat-map
    samples. *)
Record MoveAcc := {
  updatedOrders : list Order.t;
  deliveredOrdersThisStep : list Order.t;
  totalDeliveryTimeIncrement : Q;
  heatmapPointsToAdd : list HeatmapDataPoint
}.

Definition atEndOfRoute (agent : Agent.t) : bool :=
  (Z.of_nat (Agent.currentLegIndex agent) >=? Z.of_nat (length (Agent.routePath agent)) - 1)%Z.

Definition waypoint (agent : Agent.t) (i : nat) : LatLng.t :=
  List.nth i (Agent.routePath agent) (LatLng.mk 0 0).

Section Movement.
Variable M : JsMath.
Variables (agentSpeedKmph trafficFactor currentTime : Q).
Variable darkStoreLocations : list LatLngTuple.

(** The [while (remainingDistanceInStep > 0 && currentLegIndex < length - 1)]
    loop.  Every iteration but the last advances [currentLegIndex], so
    [length routePath] iterations are enough (lemma [moveLoop_fuel]). *)
Fixpoint moveLoop (fuel : nat) (agent : Agent.t) (remainingDistanceInStep : Q) : Agent.t :=
  match fuel with
  | O => agent
  | S fuel' =>
      if Qgtb remainingDistanceInStep 0 && negb (atEndOfRoute agent) then
        let startPoint := LatLng.mk (Agent.lat agent) (Agent.lng agent) in
        let endPointOfLeg := waypoint agent (Agent.currentLegIndex agent + 1) in
        let legTotalDistanceKm := distanceTo M startPoint endPointOfLeg / 1000 in
        if Qltb legTotalDistanceKm (1 # 1000) then
          let agent :=
            Agent.set_legProgress 0
              (Agent.set_currentLegIndex (Agent.currentLegIndex agent + 1) agent) in
          if atEndOfRoute agent then agent
          else moveLoop fuel' agent remainingDistanceInStep
        else
          let distanceToCoverOnThisLegKm :=
            legTotalDistanceKm * (1 - Agent.legProgress agent) in
          if Qgeb remainingDistanceInStep distanceToCoverOnThisLegKm then
            moveLoop fuel'
              (Agent.set_legProgress 0
                (Agent.set_currentLegIndex (Agent.currentLegIndex agent + 1)
                  (Agent.set_lng (LatLng.lng endPointOfLeg)
                    (Agent.set_lat (LatLng.lat endPointOfLeg) agent))))
              (remainingDistanceInStep - distanceToCoverOnThisLegKm)
          else
            let newLegProgress :=
              Agent.legProgress agent + remainingDistanceInStep / legTotalDistanceKm in
            let initialLatOnLeg := LatLng.lat (waypoint agent (Agent.currentLegIndex agent)) in
            let initialLngOnLeg := LatLng.lng (waypoint agent (Agent.currentLegIndex agent)) in
            moveLoop fuel'
              (Agent.set_lng
                 (initialLngOnLeg + (LatLng.lng endPointOfLeg - initialLngOnLeg) * newLegProgress)
                 (Agent.set_lat
                    (initialLatOnLeg + (LatLng.lat endPointOfLeg - initialLatOnLeg) * newLegProgress)
                    (Agent.set_legProgress newLegProgress agent)))
              0
      else agent
  end.

(** [routePath.find(p => darkStoreLocations.some(dsl => ...))]. *)
Definition findStoreOnRoute (route : list LatLng.t) : option LatLng.t :=
  List.find (fun p =>
    List.existsb (fun dsl : LatLngTuple =>
      Qeq_bool dsl.1 (LatLng.lat p) && Qeq_bool dsl.2 (LatLng.lng p)) darkStoreLocations)
    route.

(** The arrival at the store: the [to_store] branch of the arrival check. *)
Definition arriveAtStore (agent : Agent.t) (order : Order.t) : Agent.t * Order.t :=
  let storeCoords := findStoreOnRoute (Agent.routePath agent) in
  let agent := Agent.set_status at_store agent in
  let agent :=
    match storeCoords with
    | Some sc => Agent.set_lng (LatLng.lng sc) (Agent.set_lat (LatLng.lat sc) agent)
    | None => agent
    end in
  (Agent.set_legProgress 0 agent, Order.set_storeArrivalTime (Some currentTime) order).

(** The delivery: the [to_customer] branch of the arrival check. *)
Definition finalizeDelivery (agent : Agent.t) (order : Order.t) : Agent.t * Order.t :=
  let agent := Agent.set_status available agent in
  let agent := Agent.set_lng (Order.lng order) (Agent.set_lat (Order.lat order) agent) in
  let order := Order.set_status delivered order in
  let order := Order.set_customerArrivalTime (Some currentTime) order in
  let order := Order.set_deliveryTime (Some (currentTime - Order.timePlaced order)) order in
  let agent := Agent.set_deliveriesCompleted (Agent.deliveriesCompleted agent + 1)%Z agent in
  let agent :=
    Agent.set_consecutiveDeliveriesSinceRest
      (Agent.consecutiveDeliveriesSinceRest agent + 1)%Z agent in
  (Agent.set_routePath [] (Agent.set_currentOrder None agent), order).

Definition resetIfInactive (agentActiveThisStep : bool) (agent : Agent.t) : Agent.t :=
  if negb agentActiveThisStep then Agent.set_timeContinuouslyActive 0 agent else agent.

(** The arrival check after the movement loop. *)
Definition checkArrival (agent : Agent.t) (acc : MoveAcc) : Agent.t * MoveAcc :=
  if atEndOfRoute agent then
    match findOrder (updatedOrders acc) (Agent.currentOrder agent) with
    | None =>
        if truthy (Agent.currentOrder agent) then
          (resetIfInactive false
             (Agent.set_routePath [] (Agent.set_currentOrder None
               (Agent.set_status available agent))), acc)
        else (agent, acc)
    | Some (orderIndex, order) =>
        if decide (Agent.status agent = to_store) then
          let '(agent, order) := arriveAtStore agent order in
          (agent,
           {| updatedOrders := <[orderIndex := order]> (updatedOrders acc);
              deliveredOrdersThisStep := deliveredOrdersThisStep acc;
              totalDeliveryTimeIncrement := totalDeliveryTimeIncrement acc;
              heatmapPointsToAdd := heatmapPointsToAdd acc |})
        else if decide (Agent.status agent = to_customer) then
          let '(agent, order) := finalizeDelivery agent order in
          (resetIfInactive false agent,
           {| updatedOrders := <[orderIndex := order]> (updatedOrders acc);
              deliveredOrdersThisStep := deliveredOrdersThisStep acc ++ [order];
              totalDeliveryTimeIncrement :=
                totalDeliveryTimeIncrement acc + (currentTime - Order.timePlaced order);
              heatmapPointsToAdd :=
                heatmapPointsToAdd acc ++ [(Order.lat order, Order.lng order, 1%Z)] |})
        else (agent, acc)
    end
  else (agent, acc).

(** The handling of an agent that waits at the store. *)
Definition handleAtStore (agent : Agent.t) (acc : MoveAcc) : Agent.t * MoveAcc :=
  let agent :=
    Agent.set_timeSpentAtStore (Agent.timeSpentAtStore agent + MINUTES_PER_SIMULATION_STEP) agent in
  let agent :=
    Agent.set_legProgress (Agent.legProgress agent + MINUTES_PER_SIMULATION_STEP) agent in
  if Qgeb (Agent.legProgress agent) HANDLING_TIME_AT_STORE then
    match findOrder (updatedOrders acc) (Agent.currentOrder agent) with
    | Some (orderIndex, order) =>
        (Agent.set_legProgress 0 (Agent.set_status to_customer agent),
         {| updatedOrders :=
              <[orderIndex := Order.set_status picked_up order]> (updatedOrders acc);
            deliveredOrdersThisStep := deliveredOrdersThisStep acc;
            totalDeliveryTimeIncrement := totalDeliveryTimeIncrement acc;
            heatmapPointsToAdd := heatmapPointsToAdd acc |})
    | None =>
        (Agent.set_routePath [] (Agent.set_currentOrder None
           (Agent.set_status available agent)), acc)
    end
  else (agent, acc).

(** The body of [updatedAgents.forEach(agent => ...)]. *)
Definition updateAgentMovement (agent : Agent.t) (acc : MoveAcc) : Agent.t * MoveAcc :=
  if decide (Agent.status agent = available) then
    (Agent.set_timeSpentIdle (Agent.timeSpentIdle agent + MINUTES_PER_SIMULATION_STEP) agent, acc)
  else
    let agent :=
      Agent.set_timeContinuouslyActive
        (Agent.timeContinuouslyActive agent + MINUTES_PER_SIMULATION_STEP) agent in
    if decide (Agent.status agent = at_store) then handleAtStore agent acc
    else if bool_decide (Agent.routePath agent = []) || atEndOfRoute agent then (agent, acc)
    else
      let agent :=
        Agent.set_timeSpentDelivering
          (Agent.timeSpentDelivering agent + MINUTES_PER_SIMULATION_STEP) agent in
      let effectiveSpeed := agentSpeedKmph * Agent.fatigueFactor agent * trafficFactor in
      if Qleb effectiveSpeed (1 # 100) then (agent, acc)
      else
        let distanceCoveredThisStep := (effectiveSpeed / 60) * MINUTES_PER_SIMULATION_STEP in
        let agent :=
          Agent.set_totalDistance (Agent.totalDistance agent + distanceCoveredThisStep) agent in
        let agent := moveLoop (length (Agent.routePath agent)) agent distanceCoveredThisStep in
        checkArrival agent acc.

Fixpoint forEachAgent (agents : list Agent.t) (acc : MoveAcc) : list Agent.t * MoveAcc :=
  match agents with
  | [] => ([], acc)
  | agent :: rest =>
      let '(agent', acc') := updateAgentMovement agent acc in
      let '(rest', acc'') := forEachAgent rest acc' in
      (agent' :: rest', acc'')
  end.

Definition updateAgentsMovementAndStatusLogic
  (currentAgents : list Agent.t) (currentOrders : list Order.t) : list Agent.t * MoveAcc :=
  forEachAgent currentAgents
    {| updatedOrders := currentOrders; deliveredOrdersThisStep := [];
       totalDeliveryTimeIncrement := 0; heatmapPointsToAdd := [] |}.

End Movement.

(** ** Dispatch ([assignOrdersToAgentsLogic]) *)

(** [x < m] where [m] starts as [Infinity]. *)
Definition ltInfinity (x : Q) (m : option Q) : bool :=
  match m with
  | None => true
  | Some m => Qltb x m
  end.

(** The references (indices) of the elements that pass a filter. *)
Fixpoint refsWhere {A} (p : A -> bool) (l : list A) (i : nat) : list nat :=
  match l with
  | [] => []
  | x :: rest => if p x then i :: refsWhere p rest (S i) else refsWhere p rest (S i)
  end.

(** The arrays the dispatcher works on: the shallow copies of the agent and
    order arrays and [availableAgents], an array of references to agents. *)
Record AssignState := {
  modifiableAgents : list Agent.t;
  modifiableOrders : list Order.t;
  availableAgents : list nat
}.

Section Dispatch.
Variable M : JsMath.
Variables (agentSpeedKmph trafficFactor : Q).
Variable darkStoreLocations : list LatLngTuple.

Definition closestStoreStep (customer : LatLngTuple)
  (acc : option Q * option LatLngTuple) (dsLoc : LatLngTuple) : option Q * option LatLngTuple :=
  let dist := getDistanceKm M dsLoc customer in
  if ltInfinity dist acc.1 then (Some dist, Some dsLoc) else acc.

(** The serving dark store of an order placed at [customer]. *)
Definition bestDarkStoreFor (customer : LatLngTuple) : LatLngTuple :=
  match (List.fold_left (closestStoreStep customer) darkStoreLocations (None, None)).2 with
  | Some ds => ds
  | None => List.hd defaultDarkStoreLocationSim darkStoreLocations
  end.

Definition effectiveSpeedOf (agent : Agent.t) : Q :=
  agentSpeedKmph * Agent.fatigueFactor agent * trafficFactor.

(** The estimate computed for a candidate agent. *)
Definition etaOf (agent : Agent.t) (storeCoords customerCoords : LatLngTuple) : Q :=
  let agentCoords : LatLngTuple := (Agent.lat agent, Agent.lng agent) in
  let distAgentToStore := getDistanceKm M agentCoords storeCoords in
  let distStoreToCustomer := getDistanceKm M storeCoords customerCoords in
  let effectiveSpeed := effectiveSpeedOf agent in
  let timeAgentToStore := (distAgentToStore / effectiveSpeed) * 60 in
  let timeAtStore := 5 in
  let timeStoreToCustomer := (distStoreToCustomer / effectiveSpeed) * 60 in
  timeAgentToStore + timeAtStore + timeStoreToCustomer.

(** The candidate is skipped when the first agent with its id is no longer
    [available], or when it is too slow. *)
Definition stillAvailable (agents : list Agent.t) (agent : Agent.t) : bool :=
  match findAgent agents (Agent.id agent) with
  | None => false
  | Some (_, agentInModifiableList) =>
      bool_decide (Agent.status agentInModifiableList = available)
  end.

Definition eligible (agents : list Agent.t) (agent : Agent.t) : bool :=
  stillAvailable agents agent && negb (Qleb (effectiveSpeedOf agent) (1 # 10)).

(** The body of [availableAgents.forEach]: [acc] is [(minEta, bestAgent)]. *)
Definition considerAgent (agents : list Agent.t) (storeCoords customerCoords : LatLngTuple)
  (acc : option Q * option nat) (ref : nat) : option Q * option nat :=
  match agents !! ref with
  | None => acc
  | Some agent =>
      if negb (stillAvailable agents agent) then acc
      else if Qleb (effectiveSpeedOf agent) (1 # 10) then acc
      else
        let eta := etaOf agent storeCoords customerCoords in
        if ltInfinity eta acc.1 then (Some eta, Some ref) else acc
  end.

Definition bestAgentFor (agents : list Agent.t) (candidates : list nat)
  (storeCoords customerCoords : LatLngTuple) : option Q * option nat :=
  List.fold_left (considerAgent agents storeCoords customerCoords) candidates (None, None).

Definition routeFor (bestAgent : Agent.t) (store customer : LatLngTuple) : list LatLng.t :=
  generateWaypoints (Agent.lat bestAgent, Agent.lng bestAgent) store 2
  ++ List.tl (generateWaypoints store customer 2).

Definition dispatchAgent (orderId : string) (route : list LatLng.t) (agent : Agent.t) : Agent.t :=
  Agent.set_legProgress 0
    (Agent.set_currentLegIndex 0%nat
      (Agent.set_routePath route
        (Agent.set_currentOrder (Some orderId)
          (Agent.set_status to_store agent)))).

(** The body of [pendingOrders.forEach]; [orderRef] refers to the order. *)
Definition assignOrder (st : AssignState) (orderRef : nat) : AssignState :=
  match modifiableOrders st !! orderRef with
  | None => st
  | Some order =>
      let customer : LatLngTuple := (Order.lat order, Order.lng order) in
      let bestDarkStoreForOrder := bestDarkStoreFor customer in
      match (bestAgentFor (modifiableAgents st) (availableAgents st)
               bestDarkStoreForOrder customer).2 with
      | None => st
      | Some bestRef =>
          match modifiableAgents st !! bestRef with
          | None => st
          | Some bestAgent =>
              match findOrder (modifiableOrders st) (Some (Order.id order)),
                    findAgent (modifiableAgents st) (Agent.id bestAgent) with
              | Some (orderIndex, _), Some (agentIndex, _) =>
                  {| modifiableOrders :=
                       alter (fun o => Order.set_assignedAgentId (Some (Agent.id bestAgent))
                                         (Order.set_status assigned o))
                             orderIndex (modifiableOrders st);
                     modifiableAgents :=
                       alter (dispatchAgent (Order.id order)
                                (routeFor bestAgent bestDarkStoreForOrder customer))
                             agentIndex (modifiableAgents st);
                     availableAgents :=
                       match list_find (fun r : nat =>
                               (Agent.id <$> modifiableAgents st !! r) = Some (Agent.id bestAgent))
                             (availableAgents st) with
                       | Some (idxToRemove, _) => delete idxToRemove (availableAgents st)
                       | None => availableAgents st
                       end |}
              | _, _ => st
              end
          end
      end
  end.

Definition assignOrdersToAgentsLogic (currentAgents : list Agent.t) (currentOrders : list Order.t)
  : list Agent.t * list Order.t :=
  let pendingOrders :=
    refsWhere (fun o => bool_decide (Order.status o = pending)) currentOrders 0 in
  let availableAgents :=
    refsWhere (fun a => bool_decide (Agent.status a = available)) currentAgents 0 in
  if bool_decide (pendingOrders = []) || bool_decide (availableAgents = []) then
    (currentAgents, currentOrders)
  else
    let st := List.fold_left assignOrder pendingOrders
                {| modifiableAgents := currentAgents; modifiableOrders := currentOrders;
                   availableAgents := availableAgents |} in
    (modifiableAgents st, modifiableOrders st).

End Dispatch.

(** ** Demand profiles and order generation ([generateOrdersLogic]) *)

(** The four zone shapes with the fields each carries; a hotspot's centre
    may be missing at run time ([zone.center || relevantDarkStore]). *)
Inductive ZoneShape :=
| uniform_ccr
| hotspot (center : option LatLngTuple) (radius : Q)
| sector (sectors : list string)
| route (routePath : list LatLngTuple) (buffer : Q).

Module DemandZone.
Record t := mk {
  id : string;
  shape : ZoneShape;
  minOrders : Q;
  maxOrders : Q;
  startTime : Q;
  endTime : Q
}.
End DemandZone.

Module CustomDemandProfile.
Record t := mk { id : string; name : string; zones : list DemandZone.t }.
End CustomDemandProfile.

(** [array[i]] for a computed index: [undefined] outside the array. *)
Definition arrayAt {A} (l : list A) (i : Z) : option A :=
  if (i <? 0)%Z then None else l !! Z.to_nat i.

(** Template literals print a counter in decimal. *)
Definition numberToString (n : Z) : string := NilZero.string_of_int (Z.to_int n).

Definition newOrder (id : string) (orderCoords : LatLngTuple) (currentTime : Q) : Order.t :=
  Order.mk id orderCoords.1 orderCoords.2 currentTime pending None None None None.

(** What [generateOrdersLogic] builds up: [newOrders],
    [updatedOrderIdCounter] and [totalGeneratedIncrement]. *)
Record GenAcc := {
  newOrders : list Order.t;
  updatedOrderIdCounter : Z;
  totalGeneratedIncrement : Z
}.

Section Demand.
Variable M : JsMath.
(** [generateUniqueId] appends the clock reading and a random base-36
    string to its prefix.  The clock and the rendering are not modelled: the
    generator is a parameter, free to read the random stream. *)
Variable generateUniqueId : string -> Gen string.
Variable currentTime : Q.
Variable darkStoreLocations : list LatLngTuple.

Definition primaryDarkStore : LatLngTuple :=
  List.hd defaultDarkStoreLocationSim darkStoreLocations.

Definition pushOrder (acc : GenAcc) (orderCoords : LatLngTuple) : Gen GenAcc :=
  let* id := generateUniqueId
               (String.append "O" (String.append (numberToString (updatedOrderIdCounter acc)) "_")) in
  gret {| newOrders := newOrders acc ++ [newOrder id orderCoords currentTime];
          updatedOrderIdCounter := updatedOrderIdCounter acc;
          totalGeneratedIncrement := totalGeneratedIncrement acc |}.

Definition countOrder (acc : GenAcc) : GenAcc :=
  {| newOrders := newOrders acc;
     updatedOrderIdCounter := (updatedOrderIdCounter acc + 1)%Z;
     totalGeneratedIncrement := (totalGeneratedIncrement acc + 1)%Z |}.

(** Where an order of a zone is placed.  For a stream within [0, 1) the
    computed indices stay inside their arrays. *)
Definition placeOrder (zone : DemandZone.t) : Gen LatLngTuple :=
  let* r := Math_random in
  let relevantDarkStore :=
    default primaryDarkStore
      (arrayAt darkStoreLocations
         (Math_floor (r * inject_Z (Z.of_nat (length darkStoreLocations))))) in
  match DemandZone.shape zone with
  | uniform_ccr => getRandomPointInCcr
  | hotspot center radius =>
      getRandomPointNearHotspot M (default relevantDarkStore center) radius
  | sector sectors =>
      if bool_decide (sectors = []) then getRandomPointNearHotspot M relevantDarkStore 5
      else
        let* r := Math_random in
        let randomSectorName :=
          arrayAt sectors (Math_floor (r * inject_Z (Z.of_nat (length sectors)))) in
        let sectorData :=
          List.find (fun s : string * LatLngTuple => bool_decide (Some s.1 = randomSectorName))
            ccrSectors in
        match sectorData with
        | Some s => getRandomPointNearHotspot M s.2 (15 # 10)
        | None => getRandomPointNearHotspot M relevantDarkStore 5
        end
  | route routePath buffer =>
      if (1 <? length routePath)%nat then
        let* r := Math_random in
        let segIdx := Math_floor (r * inject_Z (Z.of_nat (length routePath) - 1)) in
        let p1 := default (0, 0) (arrayAt routePath segIdx) in
        let p2 := default (0, 0) (arrayAt routePath (segIdx + 1)) in
        let* t := Math_random in
        let mid : LatLngTuple :=
          (p1.1 * (1 - t) + p2.1 * t, p1.2 * (1 - t) + p2.2 * t) in
        getRandomPointNearHotspot M mid buffer
      else getRandomPointNearHotspot M relevantDarkStore 5
  end.

(** The body of [profile.zones.forEach]. *)
Definition generateForZone (acc : GenAcc) (zone : DemandZone.t) : Gen GenAcc :=
  if Qgeb currentTime (DemandZone.startTime zone * 60)
     && Qleb currentTime (DemandZone.endTime zone * 60) then
    let* r := Math_random in
    let ordersPerHour :=
      DemandZone.minOrders zone + r * (DemandZone.maxOrders zone - DemandZone.minOrders zone) in
    let ordersThisStep := ordersPerHour * (MINUTES_PER_SIMULATION_STEP / 60) in
    let* r := Math_random in
    if Qltb r ordersThisStep then
      let acc := countOrder acc in
      let* orderCoords := placeOrder zone in
      pushOrder acc orderCoords
    else gret acc
  else gret acc.

Fixpoint forEachZone (zones : list DemandZone.t) (acc : GenAcc) : Gen GenAcc :=
  match zones with
  | [] => gret acc
  | zone :: rest =>
      let* acc := generateForZone acc zone in
      forEachZone rest acc
  end.

Definition generateOrdersLogic (currentOrderIdCounter : Z) (profileId : string)
  (customProfiles : list CustomDemandProfile.t) : Gen GenAcc :=
  let acc := {| newOrders := []; updatedOrderIdCounter := currentOrderIdCounter;
                totalGeneratedIncrement := 0 |} in
  let baseOrderRate := 15 # 100 in
  let focusedRadiusKm := 5 in
  if bool_decide (profileId = "default_uniform_ccr"%string)
     || bool_decide (profileId = "default_focused_ccr"%string) then
    let* r := Math_random in
    if Qltb r baseOrderRate then
      let acc := countOrder acc in
      let* orderCoords :=
        if bool_decide (profileId = "default_uniform_ccr"%string) then getRandomPointInCcr
        else getRandomPointNearHotspot M primaryDarkStore focusedRadiusKm in
      pushOrder acc orderCoords
    else gret acc
  else
    match List.find (fun p => bool_decide (CustomDemandProfile.id p = profileId)) customProfiles with
    | Some profile => forEachZone (CustomDemandProfile.zones profile) acc
    | None => gret acc
    end.

End Demand.

(** ** The orchestrator ([runSimulationStep]) *)

Module SimParams.
Record t := mk {
  numAgents : nat;
  agentSpeedKmph : Q;
  orderGenProfileId : string;
  baseTrafficFactor : Q;
  enableDynamicTraffic : bool;
  enableHeatmap : bool
}.
End SimParams.

(** The simulation state; the fields that only the user interface reads
    (cooldown timers, map settings) are left out. *)
Module SimulationState.
Record t := mk {
  isRunning : bool;
  agents : list Agent.t;
  orders : list Order.t;
  orderIdCounter : Z;
  currentSimulationTime : Q;
  currentDynamicTrafficFactor : Q;
  totalOrdersGenerated : Z;
  totalOrdersDelivered : Z;
  totalDeliveryTime : Q;
  totalAgentTravelDistance : Q;
  darkStoreLocations : list LatLngTuple
}.
Definition set_isRunning (v : bool) (s : t) : t :=
  mk v (agents s) (orders s) (orderIdCounter s) (currentSimulationTime s) (currentDynamicTrafficFactor s) (totalOrdersGenerated s) (totalOrdersDelivered s) (totalDeliveryTime s) (totalAgentTravelDistance s) (darkStoreLocations s).
End SimulationState.

(** The remainder operator [%] on numbers. *)
Definition js_rem (x y : Q) : Q :=
  let q := x / y in
  x - y * inject_Z (if Qleb 0 q then Qfloor q else Qceiling q).

Section Orchestrator.
Variable M : JsMath.
Variable generateUniqueId : string -> Gen string.

Fixpoint createAgents (i n : nat) : Gen (list Agent.t) :=
  match n with
  | O => gret []
  | S n' =>
      let* id := generateUniqueId
                   (String.append "A" (String.append (numberToString (Z.of_nat i + 1)) "_")) in
      let* r1 := Math_random in
      let* r2 := Math_random in
      let agent :=
        Agent.mk id
          (defaultDarkStoreLocationSim.1 + (r1 - (1 # 2)) * (2 # 1000))
          (defaultDarkStoreLocationSim.2 + (r2 - (1 # 2)) * (2 # 1000))
          available None [] 0 0%nat 1 0%Z 0 0 0%Z 0 0 0 in
      let* rest := createAgents (S i) n' in
      gret (agent :: rest)
  end.

(** [initialSimState]; [clusteredDarkStores] are the coordinates of the
    stores found by the clustering module. *)
Definition initialSimState (numAgents : nat) (clusteredDarkStores : list LatLngTuple)
  : Gen SimulationState.t :=
  let* agents := createAgents 0 numAgents in
  gret (SimulationState.mk false agents [] 0%Z 0 1 0%Z 0%Z 0 0
          (if (0 <? length clusteredDarkStores)%nat then clusteredDarkStores
           else [defaultDarkStoreLocationSim])).

Definition sumDistances (stores : list LatLngTuple) (delivered : list Order.t) : Q :=
  List.fold_left (fun total order =>
    total + getDistanceKm M (List.hd defaultDarkStoreLocationSim stores)
              (Order.lat order, Order.lng order)) delivered 0.

(** One tick.  The log and the heat-map overlay are not modelled. *)
Definition runSimulationStep (simParams : SimParams.t)
  (customDemandProfiles : list CustomDemandProfile.t) (prevState : SimulationState.t)
  : Gen SimulationState.t :=
  if negb (SimulationState.isRunning prevState) then gret prevState
  else
    let currentSimulationTime :=
      SimulationState.currentSimulationTime prevState + MINUTES_PER_SIMULATION_STEP in
    let stores := SimulationState.darkStoreLocations prevState in
    let* currentDynamicTrafficFactor :=
      if SimParams.enableDynamicTraffic simParams
         && Qeq_bool (js_rem (currentSimulationTime / MINUTES_PER_SIMULATION_STEP)
                        (inject_Z DYNAMIC_TRAFFIC_UPDATE_INTERVAL_STEPS)) 0
      then (let* r := Math_random in gret ((6 # 10) + r * (8 # 10)))
      else gret (SimulationState.currentDynamicTrafficFactor prevState) in
    let* generated :=
      generateOrdersLogic M generateUniqueId currentSimulationTime stores
        (SimulationState.orderIdCounter prevState) (SimParams.orderGenProfileId simParams)
        customDemandProfiles in
    let orders := SimulationState.orders prevState ++ newOrders generated in
    let trafficFactor :=
      if SimParams.enableDynamicTraffic simParams then currentDynamicTrafficFactor
      else SimParams.baseTrafficFactor simParams in
    let '(agentsAfterAssign, ordersAfterAssign) :=
      assignOrdersToAgentsLogic M (SimParams.agentSpeedKmph simParams) trafficFactor stores
        (SimulationState.agents prevState) orders in
    let '(agentsAfterMovement, moved) :=
      updateAgentsMovementAndStatusLogic M (SimParams.agentSpeedKmph simParams) trafficFactor
        currentSimulationTime stores agentsAfterAssign ordersAfterAssign in
    gret (SimulationState.mk true
            (updateAgentFatigueLogic agentsAfterMovement)
            (updatedOrders moved)
            (updatedOrderIdCounter generated)
            currentSimulationTime
            currentDynamicTrafficFactor
            (SimulationState.totalOrdersGenerated prevState + totalGeneratedIncrement generated)%Z
            (SimulationState.totalOrdersDelivered prevState
             + Z.of_nat (length (deliveredOrdersThisStep moved)))%Z
            (SimulationState.totalDeliveryTime prevState + totalDeliveryTimeIncrement moved)
            (SimulationState.totalAgentTravelDistance prevState
             + sumDistances stores (deliveredOrdersThisStep moved))
            stores).

(** The states a run can be in: a fresh state, then any sequence of ticks,
    starts and pauses, under any parameters and any random stream. *)
Inductive reachable : SimulationState.t -> Prop :=
| reach_init numAgents stores rnd k :
    reachable (initialSimState numAgents stores rnd k).1
| reach_tick s simParams profiles rnd k :
    reachable s -> reachable (runSimulationStep simParams profiles s rnd k).1
| reach_start s : reachable s -> reachable (SimulationState.set_isRunning true s)
| reach_pause s : reachable s -> reachable (SimulationState.set_isRunning false s).

End Orchestrator.

(** ** The reduced-fidelity run of the optimization sweep
    ([simplifiedSimulationRun], [runOptimization]) *)

Module OptOrder.
Record t := mk {
  id : string;
  lat : Q;
  lng : Q;
  timePlaced : Q;
  status : OrderStatus;
  deliveryTime : option Q
}.
End OptOrder.

Module OptAgent.
Record t := mk {
  availableAtTime : Q;
  totalActiveTimeThisRun : Q;
  distanceThisRun : Q
}.
End OptAgent.

Record SimplifiedSimRunStats := {
  deliveredOrders : Z;
  totalDeliveryTime : Q;
  avgUtilization : Q;
  ordersMeetingSLA : Z;
  generatedOrders : Z;
  totalDistanceKm : Q
}.

(** The demand of a run: the [orders] array, [orderIdCounter] and the
    [generatedOrders] counter. *)
Record OptDemand := {
  optOrders : list OptOrder.t;
  optOrderIdCounter : Z;
  optGenerated : Z
}.

(** The running totals of the delivery loop. *)
Record OptRun := {
  runTime : Q;
  runAgents : list OptAgent.t;
  runDelivered : Z;
  runDeliveryTime : Q;
  runMeetingSLA : Z;
  runDistanceKm : Q
}.

(** [orders.sort((a, b) => a.timePlaced - b.timePlaced)]: a stable sort. *)
Fixpoint insertByTime (o : OptOrder.t) (sorted : list OptOrder.t) : list OptOrder.t :=
  match sorted with
  | [] => [o]
  | p :: rest =>
      if Qleb (OptOrder.timePlaced o) (OptOrder.timePlaced p) then o :: sorted
      else p :: insertByTime o rest
  end.

Definition sortByTime (orders : list OptOrder.t) : list OptOrder.t :=
  List.fold_right insertByTime [] orders.

Section Optimization.
Variable M : JsMath.
Variable customDemandProfiles : list CustomDemandProfile.t.
Variable darkStoreCoords : LatLngTuple.
Variable demandProfileId : string.
Variables (maxSimTime targetSLA : Q).

(** The expected number of orders of one step under a custom profile. *)
Fixpoint expectedFromZones (zones : list DemandZone.t) (t_step ordersThisStep : Q) : Gen Q :=
  match zones with
  | [] => gret ordersThisStep
  | zone :: rest =>
      if Qgeb t_step (DemandZone.startTime zone * 60)
         && Qleb t_step (DemandZone.endTime zone * 60) then
        let* r := Math_random in
        let ordersPerHour :=
          DemandZone.minOrders zone
          + r * (DemandZone.maxOrders zone - DemandZone.minOrders zone) in
        expectedFromZones rest t_step
          (ordersThisStep + ordersPerHour * (MINUTES_PER_SIMULATION_STEP / 60))
      else expectedFromZones rest t_step ordersThisStep
  end.

(** [for (let i = 0; i < ordersThisStep; i++)]. *)
Fixpoint spawnOrders (n : nat) (t_step : Q) (d : OptDemand) : Gen OptDemand :=
  match n with
  | O => gret d
  | S n' =>
      let orderIdCounter := (optOrderIdCounter d + 1)%Z in
      let generatedOrders := (optGenerated d + 1)%Z in
      let* orderCoords := getRandomPointNearHotspot M darkStoreCoords 5 in
      spawnOrders n' t_step
        {| optOrders :=
             optOrders d
             ++ [OptOrder.mk (String.append "OptO" (numberToString orderIdCounter))
                   orderCoords.1 orderCoords.2 t_step pending None];
           optOrderIdCounter := orderIdCounter;
           optGenerated := generatedOrders |}
  end.

(** The expected number of orders of the step at time [t_step], before it
    is rounded. *)
Definition expectedThisStep (t_step : Q) : Gen Q :=
  match List.find (fun p => bool_decide (CustomDemandProfile.id p = demandProfileId))
          customDemandProfiles with
  | Some profile => expectedFromZones (CustomDemandProfile.zones profile) t_step 0
  | None =>
      let baseOrderRate :=
        if bool_decide (demandProfileId = "default_opt_peak_ccr"%string) then 6 # 10
        else 25 # 100 in
      gret (baseOrderRate * MINUTES_PER_SIMULATION_STEP)
  end.

(** The body of the generation loop at time [t_step]. *)
Definition generateStep (t_step : Q) (d : OptDemand) : Gen OptDemand :=
  let* ordersThisStep := expectedThisStep t_step in
  let* r := Math_random in
  let ordersThisStep :=
    if Qltb r (ordersThisStep - inject_Z (Math_floor ordersThisStep))
    then Math_ceil ordersThisStep else Math_floor ordersThisStep in
  spawnOrders (Z.to_nat ordersThisStep) t_step d.

(** [for (t_step = 0; t_step < maxSimTime; t_step += MINUTES_PER_SIMULATION_STEP)];
    [fuel] bounds the number of iterations (lemma [generateLoop_fuel]). *)
Fixpoint generateLoop (fuel : nat) (t_step : Q) (d : OptDemand) : Gen OptDemand :=
  match fuel with
  | O => gret d
  | S fuel' =>
      if Qltb t_step maxSimTime then
        let* d := generateStep t_step d in
        generateLoop fuel' (t_step + MINUTES_PER_SIMULATION_STEP) d
      else gret d
  end.

Definition horizonSteps : nat :=
  Z.to_nat (Qceiling (maxSimTime / MINUTES_PER_SIMULATION_STEP)).

Definition generateDemand : Gen OptDemand :=
  generateLoop horizonSteps 0
    {| optOrders := []; optOrderIdCounter := 0; optGenerated := 0 |}.

(** The two corrections applied to [generatedOrders] after the loop. *)
Definition settleGenerated (d : OptDemand) : Z :=
  let generatedOrders := optGenerated d in
  let generatedOrders :=
    if (generatedOrders =? 0)%Z && (0 <? length (optOrders d))%nat
    then Z.of_nat (length (optOrders d)) else generatedOrders in
  if (generatedOrders =? 0)%Z then 1%Z else generatedOrders.

(** The agent that becomes free first: [(earliestAgentIndex,
    earliestAvailableTime)], the first one on a tie. *)
Fixpoint earliestAgent (agents : list OptAgent.t) (index : nat)
  (acc : option nat * option Q) : option nat * option Q :=
  match agents with
  | [] => acc
  | agent :: rest =>
      earliestAgent rest (S index)
        (if ltInfinity (OptAgent.availableAtTime agent) acc.2
         then (Some index, Some (OptAgent.availableAtTime agent)) else acc)
  end.

(** One iteration of [for (const order of orders)], after the [break] test.
    It returns the order as the iteration leaves it. *)
Definition serveOrder (order : OptOrder.t) (run : OptRun) : OptOrder.t * OptRun :=
  match (earliestAgent (runAgents run) 0 (None, None)).1 with
  | None => (order, run)
  | Some earliestAgentIndex =>
      match runAgents run !! earliestAgentIndex with
      | None => (order, run)
      | Some agent =>
          let engagementTime :=
            Math_max (OptOrder.timePlaced order) (OptAgent.availableAtTime agent) in
          if Qgtb engagementTime maxSimTime then (order, run)
          else
            let currentTime := engagementTime in
            let distStoreToCustomer :=
              getDistanceKm M darkStoreCoords (OptOrder.lat order, OptOrder.lng order) in
            let travelTime := (distStoreToCustomer / 20) * 60 in
            let deliveryDuration := travelTime + BASE_HANDLING_TIME_MIN_OPT in
            let completionTime := currentTime + deliveryDuration in
            if Qgtb completionTime maxSimTime then
              (order,
               {| runTime := currentTime; runAgents := runAgents run;
                  runDelivered := runDelivered run; runDeliveryTime := runDeliveryTime run;
                  runMeetingSLA := runMeetingSLA run; runDistanceKm := runDistanceKm run |})
            else
              let deliveryTime := completionTime - OptOrder.timePlaced order in
              (OptOrder.mk (OptOrder.id order) (OptOrder.lat order) (OptOrder.lng order)
                 (OptOrder.timePlaced order) delivered (Some deliveryTime),
               {| runTime := currentTime;
                  runAgents :=
                    <[earliestAgentIndex :=
                        OptAgent.mk completionTime
                          (OptAgent.totalActiveTimeThisRun agent + deliveryDuration)
                          (OptAgent.distanceThisRun agent + distStoreToCustomer)]>
                      (runAgents run);
                  runDelivered := (runDelivered run + 1)%Z;
                  runDeliveryTime := runDeliveryTime run + deliveryTime;
                  runMeetingSLA :=
                    if Qleb deliveryTime targetSLA then (runMeetingSLA run + 1)%Z
                    else runMeetingSLA run;
                  runDistanceKm := runDistanceKm run + distStoreToCustomer |})
      end
  end.

Fixpoint serveOrders (orders : list OptOrder.t) (run : OptRun) : list OptOrder.t * OptRun :=
  match orders with
  | [] => ([], run)
  | order :: rest =>
      if Qgtb (runTime run) maxSimTime then (orders, run)
      else
        let '(order', run') := serveOrder order run in
        let '(rest', run'') := serveOrders rest run' in
        (order' :: rest', run'')
  end.

Definition simplifiedSimulationRun (numAgents : nat) : Gen SimplifiedSimRunStats :=
  let* demand := generateDemand in
  let generatedOrders := settleGenerated demand in
  let orders := sortByTime (optOrders demand) in
  let agents := List.repeat (OptAgent.mk 0 0 0) numAgents in
  let '(_, run) :=
    serveOrders orders
      {| runTime := 0; runAgents := agents; runDelivered := 0; runDeliveryTime := 0;
         runMeetingSLA := 0; runDistanceKm := 0 |} in
  let totalAgentActiveTimeThisRun :=
    List.fold_left (fun sum a => sum + OptAgent.totalActiveTimeThisRun a) (runAgents run) 0 in
  (* With no agents or an empty horizon nothing is delivered: the source
     computes 0 / 0 = NaN and reports 0, which is what division by 0 in [Q]
     yields. *)
  let avgUtilization :=
    (totalAgentActiveTimeThisRun / (inject_Z (Z.of_nat numAgents) * maxSimTime)) * 100 in
  gret {| deliveredOrders := runDelivered run;
          totalDeliveryTime := runDeliveryTime run;
          avgUtilization := avgUtilization;
          ordersMeetingSLA := runMeetingSLA run;
          generatedOrders := generatedOrders;
          totalDistanceKm := runDistanceKm run |}.

(** The repetitions for one agent count. *)
Fixpoint runRepetitions (numRuns numAgents : nat) : Gen (list SimplifiedSimRunStats) :=
  match numRuns with
  | O => gret []
  | S n =>
      let* singleRunStats := simplifiedSimulationRun numAgents in
      let* rest := runRepetitions n numAgents in
      gret (singleRunStats :: rest)
  end.

End Optimization.

(** The totals and the completion rate that [runOptimization] derives from
    the runs of one agent count. *)
Definition totalDelivered (runs : list SimplifiedSimRunStats) : Z :=
  List.fold_left (fun s r => (s + deliveredOrders r)%Z) runs 0%Z.

Definition totalGenerated (runs : list SimplifiedSimRunStats) : Z :=
  List.fold_left (fun s r => (s + generatedOrders r)%Z) runs 0%Z.

Definition completionRate (runs : list SimplifiedSimRunStats) : Q :=
  if (totalGenerated runs >? 0)%Z
  then (inject_Z (totalDelivered runs) / inject_Z (totalGenerated runs)) * 100
  else 0.

(** ** The statistics of a saved scenario ([handleSaveScenario]) *)

(** The utilization that the simulation section computes for a saved
    scenario and for the advisory request, before it is rounded to one
    decimal. *)
Definition totalActualActiveTime (agents : list Agent.t) : Q :=
  List.fold_left
    (fun sum agent => sum + (Agent.timeSpentDelivering agent + Agent.timeSpentAtStore agent))
    agents 0.

Definition agentUtilization (simState : SimulationState.t) : Q :=
  let totalPossibleAgentTime :=
    inject_Z (Z.of_nat (length (SimulationState.agents simState)))
    * SimulationState.currentSimulationTime simState in
  if Qgtb totalPossibleAgentTime 0
  then (totalActualActiveTime (SimulationState.agents simState) / totalPossibleAgentTime) * 100
  else 0.

(** ** The sweep over the agent counts and the recommendation
    ([runOptimization], [generateAndSetRecommendation]) *)

Definition MIN_DELIVERY_COMPLETION_RATE_TARGET : Q := 90 # 100.
Definition TARGET_SLA_PERCENTAGE_TARGET : Q := 85 # 100.
Definition IDEAL_AGENT_UTILIZATION_MIN_PERCENT : Q := (65 # 100) * 100.
Definition IDEAL_AGENT_UTILIZATION_MAX_PERCENT : Q := (85 # 100) * 100.
Definition AGENT_COST_PER_HOUR : Q := 150.
Definition COST_PER_KM_TRAVEL : Q := 5.

(** A row of the results table.  [avgCostPerOrder] is [None] where the
    source stores [Infinity]. *)
Module OptimizationIterationResult.
Record t := mk {
  numAgents : nat;
  avgDeliveredOrders : Q;
  avgDeliveryTime : Q;
  avgAgentUtilization : Q;
  avgTravelDistanceKm : Q;
  percentageMeetingSLA : Q;
  completionRate : Q;
  avgCostPerOrder : option Q
}.
End OptimizationIterationResult.

(** [runs.reduce((s, r) => s + f(r), 0)]. *)
Definition sumOver (f : SimplifiedSimRunStats -> Q) (runs : list SimplifiedSimRunStats) : Q :=
  List.fold_left (fun s r => s + f r) runs 0.

Definition totalMeetingSLA (runs : list SimplifiedSimRunStats) : Z :=
  List.fold_left (fun s r => (s + ordersMeetingSLA r)%Z) runs 0%Z.

(** The row that [runOptimization] aggregates from the runs of one agent
    count.  The form offers 1 to 10 runs per agent count; with no run at all
    the source divides 0 by 0. *)
Definition aggregate (numAgents numRunsPerAgentCount : nat) (maxSimTimePerIteration : Q)
  (runResultsForAgentCount : list SimplifiedSimRunStats) : OptimizationIterationResult.t :=
  let numRuns := inject_Z (Z.of_nat numRunsPerAgentCount) in
  let totalDelivered := totalDelivered runResultsForAgentCount in
  let avgDeliveredOrders := inject_Z totalDelivered / numRuns in
  let avgTravelDistanceKm := sumOver totalDistanceKm runResultsForAgentCount / numRuns in
  let totalAgentHoursForAllRuns :=
    inject_Z (Z.of_nat numAgents) * (maxSimTimePerIteration / 60) * numRuns in
  let totalLaborCost := totalAgentHoursForAllRuns * AGENT_COST_PER_HOUR in
  let totalTravelCostForAllRuns := avgTravelDistanceKm * numRuns * COST_PER_KM_TRAVEL in
  let totalOperationalCost := totalLaborCost + totalTravelCostForAllRuns in
  let totalDeliveredOverAllRuns := avgDeliveredOrders * numRuns in
  OptimizationIterationResult.mk
    numAgents
    avgDeliveredOrders
    (if (totalDelivered >? 0)%Z
     then sumOver totalDeliveryTime runResultsForAgentCount / inject_Z totalDelivered else 0)
    (sumOver avgUtilization runResultsForAgentCount / numRuns)
    avgTravelDistanceKm
    (if (totalDelivered >? 0)%Z
     then (inject_Z (totalMeetingSLA runResultsForAgentCount) / inject_Z totalDelivered) * 100
     else 0)
    (completionRate runResultsForAgentCount)
    (if Qgtb totalDeliveredOverAllRuns 0
     then Some (totalOperationalCost / totalDeliveredOverAllRuns) else None).

Section Sweep.
Variable M : JsMath.
Variable customDemandProfiles : list CustomDemandProfile.t.
Variable darkStoreCoords : LatLngTuple.
Variable demandProfileId : string.
Variables (maxSimTimePerIteration targetAvgDeliveryTime : Q).
Variable numRunsPerAgentCount : nat.

(** [for (numAgents = minAgentsToTest; numAgents <= maxAgentsToTest; numAgents++)]:
    [count] iterations from [numAgents] on. *)
Fixpoint sweep (count numAgents : nat) : Gen (list OptimizationIterationResult.t) :=
  match count with
  | O => gret []
  | S count' =>
      let* runResultsForAgentCount :=
        runRepetitions M customDemandProfiles darkStoreCoords demandProfileId
          maxSimTimePerIteration targetAvgDeliveryTime numRunsPerAgentCount numAgents in
      let aggregated :=
        aggregate numAgents numRunsPerAgentCount maxSimTimePerIteration
          runResultsForAgentCount in
      let* rest := sweep count' (S numAgents) in
      gret (aggregated :: rest)
  end.

(** [runOptimization] once a dark store is selected: the table
    [allIterationsData]. *)
Definition runOptimization (minAgentsToTest maxAgentsToTest : nat)
  : Gen (list OptimizationIterationResult.t) :=
  sweep (S maxAgentsToTest - minAgentsToTest) minAgentsToTest.

End Sweep.

(** The first filter of the recommendation and the relaxed one. *)
Definition meetsTargets (targetAvgDeliveryTime : Q) (iter : OptimizationIterationResult.t) : bool :=
  Qgeb (OptimizationIterationResult.completionRate iter)
       (MIN_DELIVERY_COMPLETION_RATE_TARGET * 100)
  && Qgeb (OptimizationIterationResult.percentageMeetingSLA iter)
          (TARGET_SLA_PERCENTAGE_TARGET * 100)
  && Qleb (OptimizationIterationResult.avgDeliveryTime iter) targetAvgDeliveryTime.

Definition meetsRelaxed (iter : OptimizationIterationResult.t) : bool :=
  Qgeb (OptimizationIterationResult.completionRate iter)
       (MIN_DELIVERY_COMPLETION_RATE_TARGET * (8 # 10) * 100).

Definition inIdealUtil (iter : OptimizationIterationResult.t) : bool :=
  Qgeb (OptimizationIterationResult.avgAgentUtilization iter) IDEAL_AGENT_UTILIZATION_MIN_PERCENT
  && Qleb (OptimizationIterationResult.avgAgentUtilization iter) IDEAL_AGENT_UTILIZATION_MAX_PERCENT.

(** [a.avgCostPerOrder !== b.avgCostPerOrder]. *)
Definition costDiffers (a b : option Q) : bool :=
  match a, b with
  | Some x, Some y => negb (Qeq_bool x y)
  | None, None => false
  | _, _ => true
  end.

(** The sign of the difference of two costs that differ; a cost that is not
    finite counts as [Infinity]. *)
Definition costDifference (a b : option Q) : comparison :=
  match a, b with
  | Some x, Some y => (x - y) ?= 0
  | Some _, None => Lt
  | None, Some _ => Gt
  | None, None => Eq
  end.

(** The comparator of [candidates.sort]: the sign of the number it returns,
    which is all that [sort] looks at. *)
Definition compareCandidates (a b : OptimizationIterationResult.t) : comparison :=
  if costDiffers (OptimizationIterationResult.avgCostPerOrder a)
                 (OptimizationIterationResult.avgCostPerOrder b)
  then costDifference (OptimizationIterationResult.avgCostPerOrder a)
                      (OptimizationIterationResult.avgCostPerOrder b)
  else
    let a_in_ideal_util := inIdealUtil a in
    let b_in_ideal_util := inIdealUtil b in
    if a_in_ideal_util && negb b_in_ideal_util then Lt
    else if negb a_in_ideal_util && b_in_ideal_util then Gt
    else
      let idealCenterUtil :=
        (IDEAL_AGENT_UTILIZATION_MIN_PERCENT + IDEAL_AGENT_UTILIZATION_MAX_PERCENT) / 2 in
      (Qabs (OptimizationIterationResult.avgAgentUtilization a - idealCenterUtil)
       - Qabs (OptimizationIterationResult.avgAgentUtilization b - idealCenterUtil)) ?= 0.

(** [candidates.sort(comparator)]: a stable sort. *)
Fixpoint insertCandidate (x : OptimizationIterationResult.t)
  (sorted : list OptimizationIterationResult.t) : list OptimizationIterationResult.t :=
  match sorted with
  | [] => [x]
  | p :: rest =>
      match compareCandidates x p with
      | Gt => p :: insertCandidate x rest
      | _ => x :: sorted
      end
  end.

Definition sortCandidates (candidates : list OptimizationIterationResult.t)
  : list OptimizationIterationResult.t :=
  List.fold_right insertCandidate [] candidates.

(** The candidates before they are sorted. *)
Definition selectCandidates (targetAvgDeliveryTime : Q)
  (data : list OptimizationIterationResult.t) : list OptimizationIterationResult.t :=
  let candidates := List.filter (meetsTargets targetAvgDeliveryTime) data in
  let candidates :=
    if (length candidates =? 0)%nat then List.filter meetsRelaxed data else candidates in
  if (length candidates =? 0)%nat then data else candidates.

(** What [generateAndSetRecommendation] sets: the text for an empty table,
    the recommended row with the two notes that may follow it, or the text
    for a missing best row. *)
Inductive Recommendation :=
| NoData
| Recommend (best : OptimizationIterationResult.t)
    (deliveryTimeAboveTarget slaBelowTarget : bool)
| NoClearOptimum.

Definition generateAndSetRecommendation (targetAvgDeliveryTime : Q)
  (data : list OptimizationIterationResult.t) : Recommendation :=
  if (length data =? 0)%nat then NoData
  else
    match sortCandidates (selectCandidates targetAvgDeliveryTime data) with
    | best :: _ =>
        Recommend best
          (Qgtb (OptimizationIterationResult.avgDeliveryTime best) targetAvgDeliveryTime)
          (Qltb (OptimizationIterationResult.percentageMeetingSLA best)
                (TARGET_SLA_PERCENTAGE_TARGET * 100))
    | [] => NoClearOptimum
    end.

(** ** A runtime for concrete runs

    Small-angle approximations of the transcendental functions.  They are
    exact where the examples below evaluate them: [sin 0 = 0], [sqrt 0 = 0],
    [sqrt 1 = 1], [atan2 0 1 = 0], so that the distance between two equal
    points is [0], as it is for the haversine formula. *)
Definition approx_sin (x : Q) : Q := x - x * x * x / 6.
Definition approx_cos (x : Q) : Q := 1 - x * x / 2.
Definition approx_sqrt (x : Q) : Q :=
  if Qleb x 0 then 0
  else inject_Z (Z.sqrt (Qfloor (x * 1000000000000))) / 1000000.
Definition approx_PI : Q := 314159265358979 # 100000000000000.
Definition approx_atan2 (y x : Q) : Q :=
  if Qleb x 0 then approx_PI / 2
  else let t := y / x in t - t * t * t / 3.

Definition trigOnly : JsMath :=
  {| Math_sin := approx_sin; Math_cos := approx_cos; Math_sqrt := approx_sqrt;
     Math_atan2 := approx_atan2; Math_PI := approx_PI; distanceTo := fun _ _ => 0 |}.

Definition smallAngleMath : JsMath :=
  {| Math_sin := approx_sin; Math_cos := approx_cos; Math_sqrt := approx_sqrt;
     Math_atan2 := approx_atan2; Math_PI := approx_PI;
     distanceTo := fun p q =>
       1000 * getDistanceKm trigOnly (LatLng.lat p, LatLng.lng p) (LatLng.lat q, LatLng.lng q) |}.

(** An id generator for concrete runs: the prefix itself. *)
Definition prefixId (prefix : string) : Gen string := gret prefix.

Definition constStream (q : Q) : nat -> Q := fun _ => q.

(** A run with one agent, one dark store (the default one) and the built-in
    uniform profile.  The agent is created at the store ([Math.random()]
    returning 0.5 twice); during the ticks [Math.random()] returns 0.1. *)
Definition demoParams : SimParams.t :=
  SimParams.mk 1 25 "default_uniform_ccr" 1 false false.

Definition demoState0 : SimulationState.t :=
  SimulationState.set_isRunning true
    (initialSimState prefixId 1 [] (constStream (1 # 2)) 0%nat).1.

Definition demoTick (s : SimulationState.t) : SimulationState.t :=
  (runSimulationStep smallAngleMath prefixId demoParams [] s (constStream (1 # 10)) 0%nat).1.

Definition demoState1 : SimulationState.t := demoTick demoState0.
Definition demoState2 : SimulationState.t := demoTick demoState1.
Definition demoState3 : SimulationState.t := demoTick demoState2.

(** * Specification predicates *)

Definition fatigueInRange (a : Agent.t) : Prop :=
  1 # 2 <= Agent.fatigueFactor a /\ Agent.fatigueFactor a <= 1.

(** The fields that describe the task of an agent. *)
Definition sameTask (a a' : Agent.t) : Prop :=
  Agent.status a' = Agent.status a
  /\ Agent.currentOrder a' = Agent.currentOrder a
  /\ Agent.routePath a' = Agent.routePath a.

(** What one pass of the movement engine can do to an agent: leave its task
    as it is, release it, let it arrive at the store, or let it pick up. *)
Inductive agentMove (a a' : Agent.t) : Prop :=
| move_stay :
    sameTask a a' ->
    (atEndOfRoute a = true \/ Agent.status a = at_store \/ Agent.status a = available ->
     Agent.currentLegIndex a' = Agent.currentLegIndex a) ->
    agentMove a a'
| move_release :
    Agent.status a <> available -> Agent.status a' = available ->
    Agent.currentOrder a' = None -> Agent.routePath a' = [] ->
    agentMove a a'
| move_arrive :
    Agent.status a = to_store -> Agent.status a' = at_store ->
    Agent.currentOrder a' = Agent.currentOrder a ->
    Agent.routePath a' = Agent.routePath a ->
    atEndOfRoute a' = true ->
    agentMove a a'
| move_pickup :
    Agent.status a = at_store -> Agent.status a' = to_customer ->
    Agent.currentOrder a' = Agent.currentOrder a ->
    Agent.routePath a' = Agent.routePath a ->
    Agent.currentLegIndex a' = Agent.currentLegIndex a ->
    Agent.legProgress a' = 0 ->
    agentMove a a'.

(** The order as the delivery branch leaves it. *)
Definition deliveredAt (now : Q) (o : Order.t) : Order.t :=
  Order.set_deliveryTime (Some (now - Order.timePlaced o))
    (Order.set_customerArrivalTime (Some now) (Order.set_status delivered o)).

(** What the same pass can do to the orders and the step's totals. *)
Inductive ordersMove (now : Q) (a : Agent.t) (acc acc' : MoveAcc) : Prop :=
| orders_same : acc' = acc -> ordersMove now a acc acc'
| orders_pickup i o :
    updatedOrders acc !! i = Some o ->
    Agent.status a = at_store ->
    acc' = {| updatedOrders := <[i := Order.set_status picked_up o]> (updatedOrders acc);
              deliveredOrdersThisStep := deliveredOrdersThisStep acc;
              totalDeliveryTimeIncrement := totalDeliveryTimeIncrement acc;
              heatmapPointsToAdd := heatmapPointsToAdd acc |} ->
    ordersMove now a acc acc'
| orders_arrive i o :
    updatedOrders acc !! i = Some o ->
    Agent.status a = to_store ->
    acc' = {| updatedOrders :=
                <[i := Order.set_storeArrivalTime (Some now) o]> (updatedOrders acc);
              deliveredOrdersThisStep := deliveredOrdersThisStep acc;
              totalDeliveryTimeIncrement := totalDeliveryTimeIncrement acc;
              heatmapPointsToAdd := heatmapPointsToAdd acc |} ->
    ordersMove now a acc acc'
| orders_deliver i o :
    updatedOrders acc !! i = Some o ->
    Agent.status a = to_customer ->
    atEndOfRoute a = false ->
    acc' = {| updatedOrders := <[i := deliveredAt now o]> (updatedOrders acc);
              deliveredOrdersThisStep := deliveredOrdersThisStep acc ++ [deliveredAt now o];
              totalDeliveryTimeIncrement :=
                totalDeliveryTimeIncrement acc + (now - Order.timePlaced o);
              heatmapPointsToAdd :=
                heatmapPointsToAdd acc ++ [(Order.lat o, Order.lng o, 1%Z)] |} ->
    ordersMove now a acc acc'.

(** The agent invariants. *)
Definition idleEquiv (a : Agent.t) : Prop :=
  (Agent.status a = available <-> Agent.currentOrder a = None)
  /\ (Agent.currentOrder a = None <-> Agent.routePath a = [])
  /\ (Agent.status a = available <-> Agent.routePath a = []).

(** The status [busy] belongs to the optimization sweep only. *)
Definition inService (a : Agent.t) : Prop := Agent.status a <> busy.

(** An agent at the store or on its way to the customer has used up its
    route: the guard at the top of the movement branch holds for it. *)
Definition parked (a : Agent.t) : Prop :=
  Agent.status a = at_store \/ Agent.status a = to_customer -> atEndOfRoute a = true.

Definition agentOk (a : Agent.t) : Prop :=
  idleEquiv a /\ inService a /\ parked a /\ fatigueInRange a.

(** The order invariant at simulation time [now]. *)
Definition undelivered (now : Q) (o : Order.t) : Prop :=
  Order.status o <> delivered
  /\ Order.customerArrivalTime o = None
  /\ Order.deliveryTime o = None
  /\ Order.timePlaced o <= now
  /\ (forall t, Order.storeArrivalTime o = Some t -> Order.timePlaced o <= t /\ t <= now).

Definition stateOk (s : SimulationState.t) : Prop :=
  Forall agentOk (SimulationState.agents s)
  /\ Forall (undelivered (SimulationState.currentSimulationTime s)) (SimulationState.orders s)
  /\ SimulationState.totalOrdersDelivered s = 0%Z.

(** An order as the demand generator creates it at time [now]. *)
Definition freshOrder (now : Q) (o : Order.t) : Prop :=
  Order.status o = pending
  /\ Order.assignedAgentId o = None
  /\ Order.storeArrivalTime o = None
  /\ Order.customerArrivalTime o = None
  /\ Order.deliveryTime o = None
  /\ Order.timePlaced o = now.

(** A custom profile with one uniform zone of 30 orders per hour, active
    from hour 0 to hour 23: 2.5 orders are expected per 5-minute step. *)
Definition busyZone : DemandZone.t := DemandZone.mk "zone_1" uniform_ccr 30 30 0 23.

Definition busyProfile : CustomDemandProfile.t :=
  CustomDemandProfile.mk "custom_1" "Busy hour" [busyZone].

(** The counter [generatedOrders] counts the orders pushed. *)
Definition counted (d : OptDemand) : Prop :=
  optGenerated d = Z.of_nat (length (optOrders d)).

(** A running minimum that starts at [Infinity] and is replaced only by a
    strictly smaller key: the shape shared by the dark-store loop and the
    agent loop of the dispatcher.  [ok] tells which elements take part. *)
Definition firstMinStep {A} (key : A -> Q) (ok : A -> bool)
  (acc : option Q * option A) (x : A) : option Q * option A :=
  if ok x then (if ltInfinity (key x) acc.1 then (Some (key x), Some x) else acc) else acc.

(** What such a loop has found after the elements [seen]. *)
Definition firstMin {A} (key : A -> Q) (ok : A -> bool) (seen : list A)
  (acc : option Q * option A) : Prop :=
  match acc with
  | (None, None) => forall y, In y seen -> ok y = false
  | (Some m, Some x) =>
      m = key x /\ ok x = true
      /\ exists pre post, seen = pre ++ x :: post
           /\ (forall y, In y pre -> ok y = true -> key x < key y)
           /\ (forall y, In y post -> ok y = true -> key x <= key y)
  | _ => False
  end.

(** Two idle agents for the dispatcher: a tired one (fatigue 0.5) that stands
    at the default dark store, and a fresh one (fatigue 1) about 3 km away. *)
Definition tiredAgent : Agent.t :=
  Agent.mk "A1_" (307333 # 10000) (767794 # 10000) available None [] 0 0%nat (1 # 2)
    0%Z 0 0 0%Z 0 0 0.

Definition freshAgent : Agent.t :=
  Agent.mk "A2_" (3075 # 100) (7680 # 100) available None [] 0 0%nat 1
    0%Z 0 0 0%Z 0 0 0.

(** An order placed at the default dark store. *)
Definition doorstepOrder : Order.t :=
  newOrder "O1_" defaultDarkStoreLocationSim 5.

(** The estimate and the eligibility of the agent behind a reference. *)
Definition etaOfRef (M : JsMath) (agentSpeedKmph trafficFactor : Q) (agents : list Agent.t)
  (store customer : LatLngTuple) (ref : nat) : Q :=
  match agents !! ref with
  | Some agent => etaOf M agentSpeedKmph trafficFactor agent store customer
  | None => 0
  end.

Definition eligibleRef (agentSpeedKmph trafficFactor : Q) (agents : list Agent.t)
  (ref : nat) : bool :=
  match agents !! ref with
  | Some agent => eligible agentSpeedKmph trafficFactor agents agent
  | None => false
  end.

(** ** The dispatcher, order by order *)

(** The inputs that [runSimulationStep] passes to the dispatcher: the speed
    set on the form (10 to 60 km/h), a traffic factor of at least 0.5 (0.5 to
    2 on the form, 0.6 to 1.4 when it is drawn at random), a store list that
    is not empty, fatigue factors between 0.5 and 1, and agents and orders
    with distinct ids (the ids carry the number of the agent and the running
    order counter). *)
Definition dispatchInputs (agentSpeedKmph trafficFactor : Q)
  (darkStoreLocations : list LatLngTuple) (agents : list Agent.t) (orders : list Order.t)
  : Prop :=
  10 <= agentSpeedKmph
  /\ 1 # 2 <= trafficFactor
  /\ darkStoreLocations <> []
  /\ Forall fatigueInRange agents
  /\ NoDup (Agent.id <$> agents)
  /\ NoDup (Order.id <$> orders).

(** [pendingOrders], as references into the order array. *)
Definition pendingRefs (orders : list Order.t) : list nat :=
  refsWhere (fun o => bool_decide (Order.status o = pending)) orders 0.

(** The arrays of the dispatcher before the first pending order. *)
Definition dispatchStart (agents : list Agent.t) (orders : list Order.t) : AssignState :=
  {| modifiableAgents := agents; modifiableOrders := orders;
     availableAgents :=
       refsWhere (fun a => bool_decide (Agent.status a = available)) agents 0 |}.

(** The arrays of the dispatcher after the pending orders [processed]. *)
Definition dispatchAfter (M : JsMath) (agentSpeedKmph trafficFactor : Q)
  (darkStoreLocations : list LatLngTuple) (agents : list Agent.t) (orders : list Order.t)
  (processed : list nat) : AssignState :=
  List.fold_left (assignOrder M agentSpeedKmph trafficFactor darkStoreLocations) processed
    (dispatchStart agents orders).

(** The order once it is assigned to [agent]. *)
Definition assignedTo (agent : Agent.t) (order : Order.t) : Order.t :=
  Order.set_assignedAgentId (Some (Agent.id agent)) (Order.set_status assigned order).

(** What the dispatcher keeps true from one pending order to the next;
    [waiting] are the pending orders that are still to be processed. *)
Definition dispatchInv (agents : list Agent.t) (orders : list Order.t) (waiting : list nat)
  (st : AssignState) : Prop :=
  availableAgents st
  = refsWhere (fun a => bool_decide (Agent.status a = available)) (modifiableAgents st) 0
  /\ Agent.id <$> modifiableAgents st = Agent.id <$> agents
  /\ Order.id <$> modifiableOrders st = Order.id <$> orders
  /\ Forall fatigueInRange (modifiableAgents st)
  /\ (forall r, In r waiting -> modifiableOrders st !! r = orders !! r)
  /\ (forall j a, modifiableAgents st !! j = Some a -> Agent.status a = available ->
        agents !! j = Some a).

(** What the dispatcher does with one pending order: it leaves the arrays
    as they are when no agent is available, and otherwise sends the first
    available agent with the smallest estimate. *)
Definition dispatchStep (M : JsMath) (agentSpeedKmph trafficFactor : Q)
  (store : LatLngTuple) (ref : nat) (order : Order.t) (st st' : AssignState) : Prop :=
  let customer : LatLngTuple := (Order.lat order, Order.lng order) in
  (Forall (fun a => Agent.status a <> available) (modifiableAgents st) /\ st' = st)
  \/ (exists i agent,
        modifiableAgents st !! i = Some agent
        /\ Agent.status agent = available
        /\ (forall j a, (j < i)%nat -> modifiableAgents st !! j = Some a ->
              Agent.status a = available ->
              etaOf M agentSpeedKmph trafficFactor agent store customer
              < etaOf M agentSpeedKmph trafficFactor a store customer)
        /\ (forall j a, (i < j)%nat -> modifiableAgents st !! j = Some a ->
              Agent.status a = available ->
              etaOf M agentSpeedKmph trafficFactor agent store customer
              <= etaOf M agentSpeedKmph trafficFactor a store customer)
        /\ modifiableAgents st'
           = <[i := dispatchAgent (Order.id order) (routeFor agent store customer) agent]>
               (modifiableAgents st)
        /\ modifiableOrders st' = <[ref := assignedTo agent order]> (modifiableOrders st)).

(** ** Frames, accounts and orderings *)

(** What identifies an order for good: its id, its position and the time it
    was placed. *)
Definition orderKey (o : Order.t) : string * Q * Q * Q :=
  (Order.id o, Order.lat o, Order.lng o, Order.timePlaced o).

(** The counters of the demand generator agree with the orders it has
    created since the counter stood at [base]. *)
Definition genCounted (base : Z) (acc : GenAcc) : Prop :=
  updatedOrderIdCounter acc = (base + Z.of_nat (length (newOrders acc)))%Z
  /\ totalGeneratedIncrement acc = Z.of_nat (length (newOrders acc)).

(** The bookkeeping of the simulation state. *)
Definition booksOk (s : SimulationState.t) : Prop :=
  SimulationState.totalOrdersGenerated s = Z.of_nat (length (SimulationState.orders s))
  /\ SimulationState.orderIdCounter s = Z.of_nat (length (SimulationState.orders s))
  /\ 0 <= SimulationState.currentSimulationTime s.

(** The time accounts of an agent at simulation time [now]. *)
Definition timesOk (now : Q) (a : Agent.t) : Prop :=
  0 <= Agent.timeSpentDelivering a
  /\ 0 <= Agent.timeSpentAtStore a
  /\ Agent.timeSpentDelivering a + Agent.timeSpentAtStore a <= now.

(** The order an agent holds is one of the orders with these identifiers. *)
Definition holdsKnownOrder (ids : list string) (a : Agent.t) : Prop :=
  forall orderId, Agent.currentOrder a = Some orderId -> orderId ∈ ids.

Definition ordersKnown (s : SimulationState.t) : Prop :=
  Forall (holdsKnownOrder (Order.id <$> SimulationState.orders s)) (SimulationState.agents s).

(** [runsTo s s']: a run that is in state [s] can go on to state [s'] by
    ticks, starts and pauses, under any parameters and any random stream. *)
Inductive runsTo (M : JsMath) (generateUniqueId : string -> Gen string)
  (s : SimulationState.t) : SimulationState.t -> Prop :=
| runs_here : runsTo M generateUniqueId s s
| runs_tick s' simParams profiles rnd k :
    runsTo M generateUniqueId s s' ->
    runsTo M generateUniqueId s (runSimulationStep M generateUniqueId simParams profiles s' rnd k).1
| runs_start s' :
    runsTo M generateUniqueId s s' ->
    runsTo M generateUniqueId s (SimulationState.set_isRunning true s')
| runs_pause s' :
    runsTo M generateUniqueId s s' ->
    runsTo M generateUniqueId s (SimulationState.set_isRunning false s').

(** The counters of the delivery loop after [served] orders. *)
Definition optCountsOk (served : Z) (run : OptRun) : Prop :=
  (0 <= runMeetingSLA run)%Z
  /\ (runMeetingSLA run <= runDelivered run)%Z
  /\ (runDelivered run <= served)%Z.

(** The accounts of an agent of the reduced-fidelity run. *)
Definition optAgentOk (maxSimTime : Q) (a : OptAgent.t) : Prop :=
  OptAgent.totalActiveTimeThisRun a <= OptAgent.availableAtTime a
  /\ OptAgent.availableAtTime a <= maxSimTime.

(** The key by which the comparator orders the rows, lexicographically:
    finite costs first, then the cost, then rows in the ideal utilization
    band, then the distance to the centre of the band. *)
Definition candidateKey (r : OptimizationIterationResult.t) : Q * Q * Q * Q :=
  (match OptimizationIterationResult.avgCostPerOrder r with Some _ => 0 | None => 1 end,
   match OptimizationIterationResult.avgCostPerOrder r with Some c => c | None => 0 end,
   if inIdealUtil r then 0 else 1,
   Qabs (OptimizationIterationResult.avgAgentUtilization r
         - (IDEAL_AGENT_UTILIZATION_MIN_PERCENT + IDEAL_AGENT_UTILIZATION_MAX_PERCENT) / 2)).

Definition keyLe (k l : Q * Q * Q * Q) : Prop :=
  k.1.1.1 < l.1.1.1
  \/ (k.1.1.1 == l.1.1.1
      /\ (k.1.1.2 < l.1.1.2
          \/ (k.1.1.2 == l.1.1.2
              /\ (k.1.2 < l.1.2 \/ (k.1.2 == l.1.2 /\ k.2 <= l.2))))).

(** [a] is sorted before [b], or ties with it. *)
Definition notAfter (a b : OptimizationIterationResult.t) : Prop :=
  compareCandidates a b <> Gt.

(** The cost [a] is at most the cost [b], [Infinity] included. *)
Definition costNoMore (a b : option Q) : Prop :=
  match a, b with
  | Some x, Some y => x <= y
  | Some _, None => True
  | None, Some _ => False
  | None, None => True
  end.

(** The counters a run reports are consistent. *)
Definition runCountsOk (r : SimplifiedSimRunStats) : Prop :=
  (0 <= ordersMeetingSLA r)%Z
  /\ (ordersMeetingSLA r <= deliveredOrders r)%Z
  /\ (deliveredOrders r <= generatedOrders r)%Z.

(** A percentage. *)
Definition percentage (q : Q) : Prop := 0 <= q /\ q <= 100.

(** ** Concrete inputs for the examples *)

(** An agent that has just been dispatched to an order a little north-east
    of the default dark store. *)
Definition routedAgent : Agent.t :=
  dispatchAgent "O1_"
    (routeFor freshAgent defaultDarkStoreLocationSim (3076 # 100, 7681 # 100)) freshAgent.

(** A results table: the row for 10 agents misses the service-level goal,
    the rows for 11 and 12 agents meet the three targets. *)
Definition row10 : OptimizationIterationResult.t :=
  OptimizationIterationResult.mk 10 20 24 80 5 80 95 (Some 40).
Definition row11 : OptimizationIterationResult.t :=
  OptimizationIterationResult.mk 11 22 23 75 5 90 96 (Some 42).
Definition row12 : OptimizationIterationResult.t :=
  OptimizationIterationResult.mk 12 22 22 60 5 95 97 (Some 45).
Definition demoTable : list OptimizationIterationResult.t := [row10; row11; row12].


(** * Properties *)

(** ** Numbers *)

Lemma Qltb_lt x y : Qltb x y = true <-> x < y.
Proof.
  unfold Qltb. rewrite negb_true_iff, <- not_true_iff_false, Qle_bool_iff.
  split; [apply Qnot_le_lt | apply Qlt_not_le].
Qed.

Lemma Qltb_ge x y : Qltb x y = false <-> y <= x.
Proof. unfold Qltb. rewrite negb_false_iff. apply Qle_bool_iff. Qed.

Lemma Qleb_le x y : Qleb x y = true <-> x <= y.
Proof. apply Qle_bool_iff. Qed.

Lemma Qleb_gt x y : Qleb x y = false <-> y < x.
Proof.
  unfold Qleb. rewrite <- not_true_iff_false, Qle_bool_iff.
  split; [apply Qnot_le_lt | apply Qlt_not_le].
Qed.

Lemma Qgtb_gt x y : Qgtb x y = true <-> y < x.
Proof. apply Qltb_lt. Qed.

Lemma Qgeb_ge x y : Qgeb x y = true <-> y <= x.
Proof. apply Qleb_le. Qed.

(** ** The embedding on small inputs *)

(** Ray casting on the unit square with corners (0,0) and (2,2). *)
Example isPointInPolygon_inside :
  isPointInPolygon (1, 1) [(0, 0); (0, 2); (2, 2); (2, 0)] = true.
Proof. reflexivity. Qed.

Example isPointInPolygon_outside :
  isPointInPolygon (3, 1) [(0, 0); (0, 2); (2, 2); (2, 0)] = false.
Proof. reflexivity. Qed.

(** The default dark store lies in the region, yet the test against the
    ring as the sampler passes it fails. *)
Example isPointInPolygon_default_store :
  isPointInPolygon defaultDarkStoreLocationSim ccrRing = false.
Proof. reflexivity. Qed.

Example generateWaypoints_thirds :
  List.map (fun p => (Qred (LatLng.lat p), Qred (LatLng.lng p)))
    (generateWaypoints (0, 0) (3, 6) 2) = [(0, 0); (1, 2); (2, 4); (3, 6)].
Proof. reflexivity. Qed.

(** A busy agent that has been active for three hours loses 0.15; an idle
    agent that has rested for half an hour regains 0.25, capped at 1. *)
Example fatigue_after_three_hours :
  Agent.fatigueFactor
    (updateAgentFatigue
       (Agent.mk "A" 0 0 to_store (Some "O") [] 0 0%nat 1 0%Z 180 0 0%Z 0 0 0))
  == 85 # 100.
Proof. by vm_compute. Qed.

Example fatigue_floor :
  Agent.fatigueFactor
    (updateAgentFatigue
       (Agent.mk "A" 0 0 to_store (Some "O") [] 0 0%nat (55 # 100) 5%Z 0 0 0%Z 0 0 0))
  == 1 # 2.
Proof. by vm_compute. Qed.

Example fatigue_recovery :
  Agent.fatigueFactor
    (updateAgentFatigue
       (Agent.mk "A" 0 0 available None [] 0 0%nat (85 # 100) 0%Z 0 0 0%Z 30 0 0))
  == 1.
Proof. by vm_compute. Qed.

(** The traffic refresh fires every twelfth step. *)
Example js_rem_twelve : js_rem (60 / 5) 12 == 0 /\ js_rem (65 / 5) 12 == 1.
Proof. by vm_compute. Qed.

(** ** Region sampling *)

Lemma rayCast_below x y vj vs inside :
  y < vj.1 -> Forall (fun v : LatLngTuple => y < v.1) vs ->
  rayCast x y vj vs inside = inside.
Proof.
  intros Hj Hvs. revert vj inside Hj.
  induction Hvs as [|vi rest Hi _ IH]; intros vj inside Hj; simpl; [done|].
  rewrite (proj2 (Qgtb_gt _ _) Hi), (proj2 (Qgtb_gt _ _) Hj). simpl.
  by apply IH.
Qed.

(** The ring is stored as [longitude, latitude] but read as
    [latitude, longitude]: every point south of latitude 76.65 is outside. *)
Lemma isPointInPolygon_ccrRing_false (point : LatLngTuple) :
  point.1 < 7665 # 100 -> isPointInPolygon point ccrRing = false.
Proof.
  intros H. unfold isPointInPolygon. apply rayCast_below; simpl; [done|].
  repeat constructor; simpl; lra.
Qed.

Lemma ccrLoop_result fuel bounds attempts rnd k :
  (ccrLoop fuel bounds attempts rnd k).1 = defaultDarkStoreLocationSim
  \/ isPointInPolygon (ccrLoop fuel bounds attempts rnd k).1 ccrRing = true.
Proof.
  revert attempts k. induction fuel as [|fuel IH]; intros attempts k; simpl; [by left|].
  unfold gbind, Math_random, gret.
  destruct (attempts + 1 >? MAX_ATTEMPTS)%Z; [by left|].
  destruct (isPointInPolygon _ ccrRing) eqn:Hin; simpl; [by right|apply IH].
Qed.

Lemma ccrLoop_draws fuel bounds attempts rnd k :
  (k <= (ccrLoop fuel bounds attempts rnd k).2 <= k + 2 * fuel)%nat.
Proof.
  revert attempts k. induction fuel as [|fuel IH]; intros attempts k; simpl; [lia|].
  unfold gbind, Math_random, gret.
  destruct (attempts + 1 >? MAX_ATTEMPTS)%Z; simpl; [lia|].
  destruct (isPointInPolygon _ ccrRing); simpl; [lia|].
  specialize (IH (attempts + 1)%Z (S (S k))). lia.
Qed.

Lemma ccrLoop_S fuel bounds attempts rnd k :
  ccrLoop (S fuel) bounds attempts rnd k =
  let point : LatLngTuple :=
    (rnd k * (getNorth bounds - getSouth bounds) + getSouth bounds,
     rnd (S k) * (getEast bounds - getWest bounds) + getWest bounds) in
  if (attempts + 1 >? MAX_ATTEMPTS)%Z then (defaultDarkStoreLocationSim, S (S k))
  else if negb (isPointInPolygon point ccrRing)
       then ccrLoop fuel bounds (attempts + 1) rnd (S (S k))
       else (point, S (S k)).
Proof.
  simpl. unfold gbind, Math_random, gret.
  destruct (attempts + 1 >? MAX_ATTEMPTS)%Z; [done|].
  by destruct (isPointInPolygon _ ccrRing).
Qed.

(** [MAX_ATTEMPTS + 1 - attempts] iterations are always enough: more fuel
    does not change the result, so the loop never ends for lack of fuel. *)
Lemma ccrLoop_fuel fuel bounds attempts rnd k :
  (attempts <= MAX_ATTEMPTS)%Z ->
  (MAX_ATTEMPTS + 1 - attempts <= Z.of_nat fuel)%Z ->
  ccrLoop (S fuel) bounds attempts rnd k = ccrLoop fuel bounds attempts rnd k.
Proof.
  revert attempts k. induction fuel as [|fuel IH]; intros attempts k Hle Hfuel; [lia|].
  rewrite (ccrLoop_S (S fuel)), (ccrLoop_S fuel bounds attempts). cbv zeta.
  destruct (attempts + 1 >? MAX_ATTEMPTS)%Z eqn:Hgt; [done|].
  rewrite Z.gtb_ltb in Hgt. apply Z.ltb_ge in Hgt.
  destruct (isPointInPolygon _ ccrRing); simpl; [done|].
  apply IH; lia.
Qed.

Lemma getRandomPointInCcr_fuel extra rnd k :
  ccrLoop (Z.to_nat MAX_ATTEMPTS + 1 + extra) (getBounds ccrRing) 0 rnd k
  = getRandomPointInCcr rnd k.
Proof.
  unfold getRandomPointInCcr. induction extra as [|extra IH].
  - by rewrite Nat.add_0_r.
  - rewrite Nat.add_succ_r, ccrLoop_fuel; [done|done|]. unfold MAX_ATTEMPTS. lia.
Qed.

(** The sampler returns the default store or a point inside the ring, after
    at most 201 samples (402 random numbers). *)
Lemma getRandomPointInCcr_result rnd k :
  ((getRandomPointInCcr rnd k).1 = defaultDarkStoreLocationSim
   \/ isPointInPolygon (getRandomPointInCcr rnd k).1 ccrRing = true)
  /\ (k <= (getRandomPointInCcr rnd k).2 <= k + 402)%nat.
Proof.
  split; [apply ccrLoop_result|].
  pose proof (ccrLoop_draws (Z.to_nat MAX_ATTEMPTS + 1) (getBounds ccrRing) 0 rnd k) as H.
  unfold getRandomPointInCcr. change (Z.to_nat MAX_ATTEMPTS + 1)%nat with 201%nat in *. lia.
Qed.

Lemma getBounds_ccrRing :
  getBounds ccrRing
  = {| getNorth := 3085 # 100; getSouth := 3060 # 100;
       getEast := 7690 # 100; getWest := 7665 # 100 |}.
Proof. reflexivity. Qed.

(** Because of the swapped reading of the ring, no sample is ever accepted:
    on every stream within [0, 1] the sampler runs out of attempts and
    returns the default dark-store point after its 201st sample. *)
Lemma ccrLoop_exhausts rnd fuel attempts k :
  (forall n, 0 <= rnd n /\ rnd n <= 1) ->
  (attempts + Z.of_nat (S fuel) = MAX_ATTEMPTS + 1)%Z ->
  ccrLoop (S fuel) (getBounds ccrRing) attempts rnd k
  = (defaultDarkStoreLocationSim, (k + 2 * S fuel)%nat).
Proof.
  intros Hrnd. revert attempts k.
  induction fuel as [|fuel IH]; intros attempts k Hfuel; rewrite ccrLoop_S; cbv zeta.
  - replace (attempts + 1 >? MAX_ATTEMPTS)%Z with true; [f_equal; lia|].
    symmetry. apply Z.gtb_lt. lia.
  - replace (attempts + 1 >? MAX_ATTEMPTS)%Z with false.
    + rewrite isPointInPolygon_ccrRing_false.
      * simpl negb. cbv iota. rewrite IH; [f_equal; lia|lia].
      * rewrite getBounds_ccrRing. simpl. destruct (Hrnd k). lra.
    + symmetry. rewrite Z.gtb_ltb. apply Z.ltb_ge. lia.
Qed.

Lemma getRandomPointInCcr_always_falls_back rnd k :
  (forall n, 0 <= rnd n /\ rnd n <= 1) ->
  getRandomPointInCcr rnd k = (defaultDarkStoreLocationSim, (k + 402)%nat).
Proof.
  intros Hrnd. unfold getRandomPointInCcr.
  change (Z.to_nat MAX_ATTEMPTS + 1)%nat with (S 200).
  by rewrite ccrLoop_exhausts.
Qed.

(** C9 (evaluation at the failing input).  On a stream whose samples all
    miss the ring, [getRandomPointInCcr] returns the default dark-store point
    only after reading 402 random numbers, that is after 201 bounding-box
    samples: the 201st sample is drawn before the attempt counter is
    compared with [MAX_ATTEMPTS = 200]. *)
Theorem getRandomPointInCcr_exhaustion_draws_201 :
  getRandomPointInCcr (constStream (1 # 2)) 0%nat = (defaultDarkStoreLocationSim, 402%nat)
  /\ (MAX_ATTEMPTS = 200)%Z.
Proof. split; [by vm_compute|done]. Qed.

(** ** Fatigue *)

Lemma updateAgentFatigue_task a :
  sameTask a (updateAgentFatigue a)
  /\ Agent.currentLegIndex (updateAgentFatigue a) = Agent.currentLegIndex a.
Proof.
  unfold updateAgentFatigue, sameTask.
  repeat (case_decide || case_match); simpl; done.
Qed.

Lemma updateAgentFatigue_range a :
  fatigueInRange a -> fatigueInRange (updateAgentFatigue a).
Proof.
  unfold fatigueInRange, updateAgentFatigue, Math_min, Math_max,
    FATIGUE_FACTOR_RECOVERY_RATE, FATIGUE_FACTOR_REDUCTION.
  intros [Hlo Hhi].
  repeat (case_decide || case_match); simpl in *;
    repeat match goal with
    | H : Qleb _ _ = true |- _ => apply Qleb_le in H
    | H : Qleb _ _ = false |- _ => apply Qleb_gt in H
    end; split; lra.
Qed.

Lemma updateAgentFatigue_busy a :
  Agent.status a <> available ->
  Agent.fatigueFactor (updateAgentFatigue a) <= Agent.fatigueFactor a.
Proof.
  unfold updateAgentFatigue, Math_max, FATIGUE_FACTOR_REDUCTION. intros Hbusy.
  case_decide; [done|]. simpl.
  destruct (Qgtb (Agent.fatigueFactor a) (1 # 2)) eqn:Hgt; simpl; [|lra].
  apply Qgtb_gt in Hgt.
  destruct (_ || _); simpl; [|lra].
  destruct (Qleb _ _) eqn:Hle; simpl; lra.
Qed.

Lemma updateAgentFatigue_idle a :
  Agent.status a = available ->
  Agent.fatigueFactor a <= Agent.fatigueFactor (updateAgentFatigue a).
Proof.
  unfold updateAgentFatigue. intros Hidle.
  case_decide; [|done].
  destruct (_ && _); [|lra].
  destruct (Qgtb _ _) eqn:Hgt; simpl; [|lra].
  apply Qgtb_gt in Hgt. lra.
Qed.

(** ** Movement *)

Section MovementFacts.
Variable M : JsMath.
Variables (agentSpeedKmph trafficFactor currentTime : Q).
Variable darkStoreLocations : list LatLngTuple.

Local Abbreviation loop := (moveLoop M).

Lemma moveLoop_zero fuel a : loop fuel a 0 = a.
Proof. by destruct fuel. Qed.

(** The loop moves the agent along its route and touches nothing else. *)
Lemma moveLoop_frame fuel a r :
  sameTask a (loop fuel a r)
  /\ Agent.fatigueFactor (loop fuel a r) = Agent.fatigueFactor a.
Proof.
  revert a r. induction fuel as [|fuel IH]; intros a r; [done|]. simpl.
  destruct (Qgtb r 0 && negb (atEndOfRoute a)); [|done].
  destruct (Qltb _ (1 # 1000)).
  - destruct (atEndOfRoute _); [done|].
    match goal with |- context [loop fuel ?b ?q] => destruct (IH b q) as [(?&?&?) ?] end.
    unfold sameTask. by repeat split; etrans.
  - destruct (Qgeb r _);
      match goal with |- context [loop fuel ?b ?q] => destruct (IH b q) as [(?&?&?) ?] end;
      unfold sameTask; by repeat split; etrans.
Qed.

Lemma moveLoop_S fuel a r :
  loop (S fuel) a r =
  if Qgtb r 0 && negb (atEndOfRoute a) then
    let startPoint := LatLng.mk (Agent.lat a) (Agent.lng a) in
    let endPointOfLeg := waypoint a (Agent.currentLegIndex a + 1) in
    let legTotalDistanceKm := distanceTo M startPoint endPointOfLeg / 1000 in
    if Qltb legTotalDistanceKm (1 # 1000) then
      let a1 :=
        Agent.set_legProgress 0 (Agent.set_currentLegIndex (Agent.currentLegIndex a + 1) a) in
      if atEndOfRoute a1 then a1 else loop fuel a1 r
    else
      let distanceToCoverOnThisLegKm := legTotalDistanceKm * (1 - Agent.legProgress a) in
      if Qgeb r distanceToCoverOnThisLegKm then
        loop fuel
          (Agent.set_legProgress 0
            (Agent.set_currentLegIndex (Agent.currentLegIndex a + 1)
              (Agent.set_lng (LatLng.lng endPointOfLeg)
                (Agent.set_lat (LatLng.lat endPointOfLeg) a))))
          (r - distanceToCoverOnThisLegKm)
      else
        let newLegProgress := Agent.legProgress a + r / legTotalDistanceKm in
        let initialLatOnLeg := LatLng.lat (waypoint a (Agent.currentLegIndex a)) in
        let initialLngOnLeg := LatLng.lng (waypoint a (Agent.currentLegIndex a)) in
        loop fuel
          (Agent.set_lng
             (initialLngOnLeg + (LatLng.lng endPointOfLeg - initialLngOnLeg) * newLegProgress)
             (Agent.set_lat
                (initialLatOnLeg + (LatLng.lat endPointOfLeg - initialLatOnLeg) * newLegProgress)
                (Agent.set_legProgress newLegProgress a)))
          0
  else a.
Proof. reflexivity. Qed.

(** [length routePath - currentLegIndex] iterations are enough: the loop
    never stops for lack of fuel. *)
Lemma moveLoop_fuel fuel a r :
  (length (Agent.routePath a) - Agent.currentLegIndex a <= fuel)%nat ->
  loop (S fuel) a r = loop fuel a r.
Proof.
  revert a r. induction fuel as [|fuel IH]; intros a r Hfuel.
  - simpl. replace (atEndOfRoute a) with true; [by rewrite andb_false_r|].
    symmetry. unfold atEndOfRoute. apply Z.geb_le. lia.
  - rewrite (moveLoop_S (S fuel)), (moveLoop_S fuel a r). cbv zeta.
    destruct (Qgtb r 0 && negb (atEndOfRoute a)); [|done].
    destruct (Qltb _ (1 # 1000)).
    + destruct (atEndOfRoute _); [done|]. apply IH. simpl. lia.
    + destruct (Qgeb r _).
      * apply IH. simpl. lia.
      * by rewrite !moveLoop_zero.
Qed.

Lemma moveLoop_enough extra a r :
  loop (length (Agent.routePath a) + extra) a r = loop (length (Agent.routePath a)) a r.
Proof.
  induction extra as [|extra IH].
  - by rewrite Nat.add_0_r.
  - rewrite Nat.add_succ_r, moveLoop_fuel; [done|lia].
Qed.

End MovementFacts.

Section MovementSteps.
Variable M : JsMath.
Variables (agentSpeedKmph trafficFactor currentTime : Q).
Variable darkStoreLocations : list LatLngTuple.

Local Abbreviation updateAgent :=
  (updateAgentMovement M agentSpeedKmph trafficFactor currentTime darkStoreLocations).
Local Abbreviation updateAll :=
  (forEachAgent M agentSpeedKmph trafficFactor currentTime darkStoreLocations).

Lemma findOrder_lookup orders id i o :
  findOrder orders id = Some (i, o) -> orders !! i = Some o.
Proof.
  destruct id as [oid|]; simpl; [|done].
  intros H. by apply list_find_Some in H as [? _].
Qed.

Lemma handleAtStore_spec a acc :
  Agent.status a = at_store ->
  agentMove a (handleAtStore a acc).1
  /\ ordersMove currentTime a acc (handleAtStore a acc).2
  /\ Agent.fatigueFactor (handleAtStore a acc).1 = Agent.fatigueFactor a.
Proof.
  intros Hst. unfold handleAtStore.
  destruct (Qgeb _ HANDLING_TIME_AT_STORE); simpl.
  - destruct (findOrder _ _) as [[i o]|] eqn:Hfind; simpl.
    + apply findOrder_lookup in Hfind. split_and!; [|by eapply orders_pickup|done].
      by apply move_pickup.
    + split_and!; [|by apply orders_same|done].
      apply move_release; simpl; [by rewrite Hst|done..].
  - split_and!; [|by apply orders_same|done]. by apply move_stay.
Qed.

Lemma checkArrival_spec a0 a acc :
  sameTask a0 a -> atEndOfRoute a0 = false ->
  Agent.status a0 <> available -> Agent.status a0 <> at_store ->
  agentMove a0 (checkArrival currentTime darkStoreLocations a acc).1
  /\ ordersMove currentTime a0 acc (checkArrival currentTime darkStoreLocations a acc).2
  /\ Agent.fatigueFactor (checkArrival currentTime darkStoreLocations a acc).1
     = Agent.fatigueFactor a.
Proof.
  intros (Hst & Hord & Hroute) Hend Hna Hns. unfold checkArrival.
  assert (Hstay : agentMove a0 a).
  { apply move_stay; [done|]. intros [?|[?|?]]; congruence. }
  destruct (atEndOfRoute a) eqn:Hend'; [|by split_and!; [|apply orders_same|]].
  destruct (findOrder _ _) as [[i o]|] eqn:Hfind.
  - apply findOrder_lookup in Hfind.
    case_decide as Hts; [|case_decide as Htc].
    + unfold arriveAtStore. simpl. split_and!.
      * apply move_arrive; [congruence| |..].
        all: destruct (findStoreOnRoute _ _); simpl; try done.
      * eapply orders_arrive; [done|congruence|done].
      * by destruct (findStoreOnRoute _ _).
    + unfold finalizeDelivery. simpl. split_and!; [|eapply orders_deliver; [done|congruence|done|done]|done].
      by apply move_release.
    + by split_and!; [|apply orders_same|].
  - destruct (truthy _); simpl; [|by split_and!; [|apply orders_same|]].
    split_and!; [|by apply orders_same|done]. by apply move_release.
Qed.

(** The transitions of one agent in one tick. *)
Lemma updateAgentMovement_spec a acc :
  agentMove a (updateAgent a acc).1
  /\ ordersMove currentTime a acc (updateAgent a acc).2
  /\ Agent.fatigueFactor (updateAgent a acc).1 = Agent.fatigueFactor a.
Proof.
  unfold updateAgentMovement.
  case_decide as Hav; simpl.
  { split_and!; [|by apply orders_same|done]. by apply move_stay. }
  case_decide as Hat.
  { destruct (handleAtStore_spec
                (Agent.set_timeContinuouslyActive
                   (Agent.timeContinuouslyActive a + MINUTES_PER_SIMULATION_STEP) a) acc Hat)
      as (Hm & Ho & Hf).
    split_and!; [|by inversion Ho; econstructor; eauto|done].
    by inversion Hm; econstructor; eauto. }
  simpl in Hat.
  destruct (bool_decide _ || atEndOfRoute _) eqn:Hguard.
  { split_and!; [|by apply orders_same|done]. by apply move_stay. }
  apply orb_false_iff in Hguard as [_ Hend].
  destruct (Qleb _ (1 # 100)).
  { split_and!; [|by apply orders_same|done]. by apply move_stay. }
  match goal with
  | |- context [checkArrival _ _ (moveLoop M ?f ?b ?r) acc] =>
      destruct (moveLoop_frame M f b r) as [Htask Hfat];
      destruct (checkArrival_spec a (moveLoop M f b r) acc) as (Hm & Ho & Hf);
      [done..|]
  end.
  split_and!; [done..|]. by rewrite Hf, Hfat.
Qed.

End MovementSteps.

(** ** Agent invariants under the movement engine *)

Lemma agentMove_idleEquiv a a' : agentMove a a' -> idleEquiv a -> idleEquiv a'.
Proof.
  intros Hm (H1 & H2 & H3). unfold idleEquiv.
  destruct Hm as [(Hs & Ho & Hr) _|Hna Hs Ho Hr|Hts Hs Ho Hr _|Hat Hs Ho Hr _ _].
  - by rewrite Hs, Ho, Hr.
  - by rewrite Hs, Ho, Hr.
  - rewrite Hs, Ho, Hr. rewrite Hts in H1, H3.
    assert (Agent.currentOrder a <> None) by (intros E; by apply H1 in E).
    assert (Agent.routePath a <> []) by (intros E; by apply H3 in E).
    split_and!; split; done.
  - rewrite Hs, Ho, Hr. rewrite Hat in H1, H3.
    assert (Agent.currentOrder a <> None) by (intros E; by apply H1 in E).
    assert (Agent.routePath a <> []) by (intros E; by apply H3 in E).
    split_and!; split; done.
Qed.

Lemma agentMove_inService a a' : agentMove a a' -> inService a -> inService a'.
Proof.
  unfold inService.
  intros [(Hs & _) _|_ Hs _ _|_ Hs _ _ _|_ Hs _ _ _ _] H; rewrite Hs; done.
Qed.

Lemma agentMove_parked a a' : agentMove a a' -> parked a -> parked a'.
Proof.
  unfold parked.
  intros [(Hs & Ho & Hr) Hidx|_ Hs _ _|_ _ _ _ Hend|Hat Hs _ Hr Hidx _] H.
  - rewrite Hs. intros Hst. specialize (H Hst).
    unfold atEndOfRoute in *. rewrite Hr, Hidx; [done|by left].
  - rewrite Hs. by intros [?|?].
  - done.
  - intros _. specialize (H (or_introl Hat)).
    unfold atEndOfRoute in *. by rewrite Hr, Hidx.
Qed.

Lemma ordersMove_undelivered now a acc acc' :
  parked a -> ordersMove now a acc acc' ->
  Forall (undelivered now) (updatedOrders acc) ->
  Forall (undelivered now) (updatedOrders acc')
  /\ deliveredOrdersThisStep acc' = deliveredOrdersThisStep acc
  /\ totalDeliveryTimeIncrement acc' = totalDeliveryTimeIncrement acc.
Proof.
  intros Hp [->|i o Hi _ ->|i o Hi _ ->|i o Hi Htc Hend _] Hall; [done| | |].
  - simpl. split_and!; [|done..]. apply Forall_insert; [done|].
    destruct (Forall_lookup_1 _ _ _ _ Hall Hi) as (?&?&?&?&?). by split_and!.
  - simpl. split_and!; [|done..]. apply Forall_insert; [done|].
    destruct (Forall_lookup_1 _ _ _ _ Hall Hi) as (?&?&?&?&?).
    split_and!; simpl; try done. intros t [= <-]. split; [done|lra].
  - rewrite Hp in Hend; [done|by right].
Qed.

Section MovementInvariants.
Variable M : JsMath.
Variables (agentSpeedKmph trafficFactor currentTime : Q).
Variable darkStoreLocations : list LatLngTuple.

Local Abbreviation updateAgent :=
  (updateAgentMovement M agentSpeedKmph trafficFactor currentTime darkStoreLocations).
Local Abbreviation updateAll :=
  (forEachAgent M agentSpeedKmph trafficFactor currentTime darkStoreLocations).

(** A property of agents that every transition keeps is kept by the pass. *)
Lemma forEachAgent_Forall (P : Agent.t -> Prop) agents acc :
  (forall a a', agentMove a a' -> Agent.fatigueFactor a' = Agent.fatigueFactor a -> P a -> P a') ->
  Forall P agents -> Forall P (updateAll agents acc).1.
Proof.
  intros HP Hall. revert acc.
  induction Hall as [|a rest Ha _ IH]; intros acc; simpl; [done|].
  destruct (updateAgentMovement_spec M agentSpeedKmph trafficFactor currentTime
              darkStoreLocations a acc) as (Hm & _ & Hf).
  destruct (updateAgent a acc) as [a' acc']. specialize (IH acc').
  destruct (updateAll rest acc') as [rest' acc'']. simpl in *.
  constructor; [by eapply HP|done].
Qed.

Lemma agentMove_agentOk a a' :
  agentMove a a' -> Agent.fatigueFactor a' = Agent.fatigueFactor a -> agentOk a -> agentOk a'.
Proof.
  intros Hm Hf (H1 & H2 & H3 & H4). split_and!.
  - by eapply agentMove_idleEquiv.
  - by eapply agentMove_inService.
  - by eapply agentMove_parked.
  - unfold fatigueInRange in *. by rewrite Hf.
Qed.

(** With every agent [parked], the pass delivers nothing. *)
Lemma forEachAgent_undelivered agents acc :
  Forall parked agents ->
  Forall (undelivered currentTime) (updatedOrders acc) ->
  Forall (undelivered currentTime) (updatedOrders (updateAll agents acc).2)
  /\ deliveredOrdersThisStep (updateAll agents acc).2 = deliveredOrdersThisStep acc
  /\ totalDeliveryTimeIncrement (updateAll agents acc).2 = totalDeliveryTimeIncrement acc.
Proof.
  intros Hall. revert acc.
  induction Hall as [|a rest Ha _ IH]; intros acc Hord; simpl; [done|].
  destruct (updateAgentMovement_spec M agentSpeedKmph trafficFactor currentTime
              darkStoreLocations a acc) as (_ & Ho & _).
  destruct (updateAgent a acc) as [a' acc']. simpl in Ho.
  destruct (ordersMove_undelivered _ _ _ _ Ha Ho Hord) as (Hord' & Hd & Ht).
  specialize (IH acc' Hord').
  destruct (updateAll rest acc') as [rest' acc'']. simpl in *.
  destruct IH as (? & ? & ?). split_and!; [done|congruence..].
Qed.

End MovementInvariants.

(** ** Invariants under dispatch *)

Lemma routeFor_nonempty bestAgent store customer : routeFor bestAgent store customer <> [].
Proof. done. Qed.

Lemma dispatchAgent_agentOk orderId route a :
  route <> [] -> fatigueInRange a -> agentOk (dispatchAgent orderId route a).
Proof.
  intros Hroute Hf. unfold agentOk, idleEquiv, inService, parked. simpl.
  split_and!; try done; try (split; intros; done).
  by intros [?|?].
Qed.

Lemma dispatchAgent_idleEquiv orderId route a :
  route <> [] -> idleEquiv (dispatchAgent orderId route a).
Proof. intros Hroute. unfold idleEquiv. simpl. split_and!; split; intros; done. Qed.

Section DispatchInvariants.
Variable M : JsMath.
Variables (agentSpeedKmph trafficFactor : Q).
Variable darkStoreLocations : list LatLngTuple.

Local Abbreviation assign1 := (assignOrder M agentSpeedKmph trafficFactor darkStoreLocations).
Local Abbreviation assignAll :=
  (assignOrdersToAgentsLogic M agentSpeedKmph trafficFactor darkStoreLocations).

Lemma assignOrder_Forall (P : Agent.t -> Prop) (R : Order.t -> Prop) st orderRef :
  (forall a orderId route, route <> [] -> P a -> P (dispatchAgent orderId route a)) ->
  (forall o agentId, R o -> R (Order.set_assignedAgentId agentId (Order.set_status assigned o))) ->
  Forall P (modifiableAgents st) -> Forall R (modifiableOrders st) ->
  Forall P (modifiableAgents (assign1 st orderRef))
  /\ Forall R (modifiableOrders (assign1 st orderRef)).
Proof.
  intros HP HR Hagents Horders. unfold assignOrder.
  repeat case_match; simpl; try done.
  all: split; apply Forall_alter; try done.
  all: try (intros a _; apply HP, routeFor_nonempty).
  all: intros o _; apply HR.
Qed.

Lemma assignOrdersToAgentsLogic_Forall (P : Agent.t -> Prop) (R : Order.t -> Prop) agents orders :
  (forall a orderId route, route <> [] -> P a -> P (dispatchAgent orderId route a)) ->
  (forall o agentId, R o -> R (Order.set_assignedAgentId agentId (Order.set_status assigned o))) ->
  Forall P agents -> Forall R orders ->
  Forall P (assignAll agents orders).1 /\ Forall R (assignAll agents orders).2.
Proof.
  intros HP HR Hagents Horders. unfold assignOrdersToAgentsLogic.
  destruct (_ || _); [done|]. simpl.
  match goal with |- context [List.fold_left _ ?refs ?st] =>
    generalize refs;
    assert (Hst : Forall P (modifiableAgents st) /\ Forall R (modifiableOrders st)) by done;
    revert Hst; generalize st
  end.
  intros st Hst refs. revert st Hst.
  induction refs as [|ref refs IH]; intros st [Ha Ho]; simpl; [done|].
  apply IH. by apply assignOrder_Forall.
Qed.

End DispatchInvariants.

Lemma assigned_undelivered now o agentId :
  undelivered now o ->
  undelivered now (Order.set_assignedAgentId agentId (Order.set_status assigned o)).
Proof. intros (?&?&?&?&?). by split_and!. Qed.

(** ** Invariants under demand generation and fatigue *)

Section DemandInvariants.
Variable M : JsMath.
Variable generateUniqueId : string -> Gen string.
Variable now : Q.
Variable darkStoreLocations : list LatLngTuple.

Lemma pushOrder_fresh acc coords rnd k :
  Forall (freshOrder now) (newOrders acc) ->
  Forall (freshOrder now) (newOrders (pushOrder generateUniqueId now acc coords rnd k).1).
Proof.
  intros Hacc. unfold pushOrder, gbind, gret.
  destruct (generateUniqueId _ rnd k) as [id k']. simpl.
  apply Forall_app. split; [done|]. by repeat constructor.
Qed.

Lemma generateForZone_fresh acc zone rnd k :
  Forall (freshOrder now) (newOrders acc) ->
  Forall (freshOrder now)
    (newOrders (generateForZone M generateUniqueId now darkStoreLocations acc zone rnd k).1).
Proof.
  intros Hacc. unfold generateForZone.
  destruct (_ && _); [|done]. unfold gbind, Math_random, gret.
  destruct (Qltb _ _); [|done].
  destruct (placeOrder _ _ _ _ _) as [coords k']. by apply pushOrder_fresh.
Qed.

Lemma forEachZone_fresh zones acc rnd k :
  Forall (freshOrder now) (newOrders acc) ->
  Forall (freshOrder now)
    (newOrders (forEachZone M generateUniqueId now darkStoreLocations zones acc rnd k).1).
Proof.
  revert acc k. induction zones as [|zone rest IH]; intros acc k Hacc; simpl; [done|].
  unfold gbind.
  pose proof (generateForZone_fresh acc zone rnd k Hacc) as Hz.
  destruct (generateForZone _ _ _ _ _ _ _ _) as [acc' k']. by apply IH.
Qed.

Lemma generateOrdersLogic_fresh counter profileId profiles rnd k :
  Forall (freshOrder now)
    (newOrders (generateOrdersLogic M generateUniqueId now darkStoreLocations
                  counter profileId profiles rnd k).1).
Proof.
  unfold generateOrdersLogic.
  destruct (_ || _).
  - unfold gbind, Math_random, gret. destruct (Qltb _ _); [|by constructor].
    match goal with |- context [pushOrder _ _ ?acc _ _ _] => set (acc0 := acc) end.
    match goal with |- context [let '(_, _) := ?m in _] => destruct m as [coords k'] end.
    apply pushOrder_fresh. by constructor.
  - destruct (List.find _ _); [|by constructor]. apply forEachZone_fresh. by constructor.
Qed.

End DemandInvariants.

Lemma freshOrder_undelivered now o : freshOrder now o -> undelivered now o.
Proof.
  intros (Hs & _ & Ha & Hc & Hd & Ht). split_and!; try done.
  - by rewrite Hs.
  - rewrite Ht. lra.
  - by rewrite Ha.
Qed.

Lemma undelivered_later now now' o : now <= now' -> undelivered now o -> undelivered now' o.
Proof.
  intros Hle (?&?&?&?&Hs). split_and!; try done; [lra|].
  intros t Ht. destruct (Hs t Ht). split; [done|lra].
Qed.

Lemma updateAgentFatigue_agentOk a : agentOk a -> agentOk (updateAgentFatigue a).
Proof.
  intros (H1 & H2 & H3 & H4).
  destruct (updateAgentFatigue_task a) as [(Hs & Ho & Hr) Hidx].
  split_and!.
  - unfold idleEquiv in *. by rewrite Hs, Ho, Hr.
  - unfold inService in *. by rewrite Hs.
  - unfold parked, atEndOfRoute in *. by rewrite Hs, Hr, Hidx.
  - by apply updateAgentFatigue_range.
Qed.

Lemma updateAgentFatigue_idleEquiv a : idleEquiv a -> idleEquiv (updateAgentFatigue a).
Proof.
  destruct (updateAgentFatigue_task a) as [(Hs & Ho & Hr) _].
  unfold idleEquiv. by rewrite Hs, Ho, Hr.
Qed.

(** ** The invariant of the simulation *)

Section StateInvariant.
Variable M : JsMath.
Variable generateUniqueId : string -> Gen string.

Lemma createAgents_agentOk i n rnd k :
  Forall agentOk (createAgents generateUniqueId i n rnd k).1.
Proof.
  revert i k. induction n as [|n IH]; intros i k; simpl; [by constructor|].
  unfold gbind, Math_random, gret.
  destruct (generateUniqueId _ rnd k) as [id k'].
  specialize (IH (S i) (S (S k'))).
  destruct (createAgents _ _ _ _ _) as [rest k'']. simpl in *.
  constructor; [|done].
  unfold agentOk, idleEquiv, inService, parked, fatigueInRange. simpl.
  split_and!; try done; by intros [?|?].
Qed.

Lemma initialSimState_stateOk numAgents stores rnd k :
  stateOk (initialSimState generateUniqueId numAgents stores rnd k).1.
Proof.
  unfold initialSimState, gbind, gret.
  pose proof (createAgents_agentOk 0 numAgents rnd k) as H.
  destruct (createAgents _ _ _ _ _) as [agents k']. simpl in *.
  split_and!; [done|by constructor|done].
Qed.

Lemma runSimulationStep_stateOk simParams profiles s rnd k :
  stateOk s -> stateOk (runSimulationStep M generateUniqueId simParams profiles s rnd k).1.
Proof.
  intros (Hagents & Horders & Hdelivered). unfold runSimulationStep.
  destruct (SimulationState.isRunning s); simpl; [|done].
  unfold gbind.
  match goal with |- context [let '(_, _) := ?m rnd k in _] => destruct (m rnd k) as [traffic k1] end.
  match goal with |- context [generateOrdersLogic ?a ?b ?c ?d ?e ?f ?g rnd k1] =>
    pose proof (generateOrdersLogic_fresh a b c d e f g rnd k1) as Hfresh;
    destruct (generateOrdersLogic a b c d e f g rnd k1) as [generated k2]
  end.
  simpl in Hfresh.
  set (now := SimulationState.currentSimulationTime s + MINUTES_PER_SIMULATION_STEP) in *.
  assert (Hnow : SimulationState.currentSimulationTime s <= now).
  { unfold now, MINUTES_PER_SIMULATION_STEP. lra. }
  assert (Horders1 : Forall (undelivered now) (SimulationState.orders s ++ newOrders generated)).
  { apply Forall_app. split.
    - eapply Forall_impl; [done|]. intros o. by apply undelivered_later.
    - eapply Forall_impl; [done|]. intros o. apply freshOrder_undelivered. }
  match goal with |- context [assignOrdersToAgentsLogic ?a ?b ?c ?d ?e ?f] =>
    destruct (assignOrdersToAgentsLogic_Forall a b c d agentOk (undelivered now) e f)
      as [Hagents2 Horders2];
    [ by intros a0 ? ? ? (_ & _ & _ & ?); apply dispatchAgent_agentOk
    | by intros; apply assigned_undelivered | done | done | ];
    destruct (assignOrdersToAgentsLogic a b c d e f) as [agents2 orders2]
  end.
  simpl in Hagents2, Horders2.
  unfold updateAgentsMovementAndStatusLogic.
  match goal with |- context [forEachAgent ?a ?b ?c ?d ?e ?f ?g] =>
    pose proof (forEachAgent_Forall a b c d e agentOk f g agentMove_agentOk Hagents2) as Hagents3;
    destruct (forEachAgent_undelivered a b c d e f g) as (Horders3 & Hdel3 & _);
    [ by eapply Forall_impl; [done|]; intros ? (_ & _ & ? & _) | done | ];
    destruct (forEachAgent a b c d e f g) as [agents3 moved]
  end.
  simpl in *. split_and!.
  - unfold updateAgentFatigueLogic. apply Forall_forall. intros a' Hin.
    apply list_elem_of_In, in_map_iff in Hin as (a & <- & Hin).
    apply updateAgentFatigue_agentOk. rewrite Forall_forall in Hagents3.
    by apply Hagents3, list_elem_of_In.
  - done.
  - rewrite Hdelivered, Hdel3. done.
Qed.

Lemma reachable_stateOk s : reachable M generateUniqueId s -> stateOk s.
Proof.
  induction 1 as [| |s _ IH|s _ IH].
  - apply initialSimState_stateOk.
  - by apply runSimulationStep_stateOk.
  - done.
  - done.
Qed.

End StateInvariant.

(** ** The demonstration run *)

Lemma demoState0_reachable : reachable smallAngleMath prefixId demoState0.
Proof. apply reach_start, reach_init. Qed.

Lemma demoState1_reachable : reachable smallAngleMath prefixId demoState1.
Proof. apply reach_tick, demoState0_reachable. Qed.

Lemma demoState2_reachable : reachable smallAngleMath prefixId demoState2.
Proof. apply reach_tick, demoState1_reachable. Qed.

Lemma demoState3_reachable : reachable smallAngleMath prefixId demoState3.
Proof. apply reach_tick, demoState2_reachable. Qed.

(** The run, tick by tick: the agent reaches the store in the first tick
    (agent, store and customer coincide), picks up in the second and is stuck
    on its way to the customer from then on. *)
Lemma demo_run :
  List.map (fun a => (Agent.status a, Agent.currentLegIndex a, length (Agent.routePath a)))
    (SimulationState.agents demoState1) = [(at_store, 6%nat, 7%nat)]
  /\ List.map (fun a => (Agent.status a, Agent.currentLegIndex a, length (Agent.routePath a)))
       (SimulationState.agents demoState2) = [(to_customer, 6%nat, 7%nat)]
  /\ List.map (fun a => (Agent.status a, Agent.currentLegIndex a, length (Agent.routePath a)))
       (SimulationState.agents demoState3) = [(to_customer, 6%nat, 7%nat)]
  /\ List.map Order.status (SimulationState.orders demoState3) = [picked_up; pending; pending].
Proof. by vm_compute. Qed.

(** ** The full simulation *)

(** A picked-up order: what the [at_store] branch does once the handling
    time has passed and the order is found.  The leg index is left as it is. *)
Lemma pickup_transition M speed traffic now stores a acc i o a' acc' :
  Agent.status a = at_store ->
  HANDLING_TIME_AT_STORE <= Agent.legProgress a + MINUTES_PER_SIMULATION_STEP ->
  findOrder (updatedOrders acc) (Agent.currentOrder a) = Some (i, o) ->
  updateAgentMovement M speed traffic now stores a acc = (a', acc') ->
  Agent.status a' = to_customer
  /\ Agent.legProgress a' = 0
  /\ Agent.currentLegIndex a' = Agent.currentLegIndex a
  /\ Agent.routePath a' = Agent.routePath a
  /\ updatedOrders acc' = <[i := Order.set_status picked_up o]> (updatedOrders acc).
Proof.
  intros Hst Hle Hfind. unfold updateAgentMovement.
  case_decide as Hav; [congruence|]. case_decide as Hat; [|done].
  unfold handleAtStore. simpl.
  replace (Qgeb _ _) with true; [|symmetry; by apply Qgeb_ge].
  rewrite Hfind. by intros [= <- <-].
Qed.

(** C1 (evaluation at the failing input).  The agent of the demonstration
    run waits at the store after the first tick with leg index 6.  The next
    tick picks the order up: the order becomes [picked_up], the agent
    [to_customer], its leg progress 0, but its leg index is still 6, not 0. *)
Theorem pickup_does_not_reset_leg_index :
  List.map (fun a => (Agent.status a, Agent.legProgress a, Agent.currentLegIndex a))
    (SimulationState.agents demoState1) = [(at_store, 0, 6%nat)]
  /\ List.map (fun a => (Agent.status a, Agent.legProgress a, Agent.currentLegIndex a))
       (SimulationState.agents demoState2) = [(to_customer, 0, 6%nat)]
  /\ List.map Order.status (SimulationState.orders demoState2) = [picked_up; pending].
Proof. by vm_compute. Qed.

(** The early return of the movement branch: an agent on its way to the
    customer whose leg index is at the end of its route is not moved. *)
Lemma to_customer_is_stuck M speed traffic now stores a acc :
  Agent.status a = to_customer -> atEndOfRoute a = true ->
  updateAgentMovement M speed traffic now stores a acc
  = (Agent.set_timeContinuouslyActive
       (Agent.timeContinuouslyActive a + MINUTES_PER_SIMULATION_STEP) a, acc).
Proof.
  intros Hst Hend. unfold updateAgentMovement.
  destruct (decide (Agent.status a = available)) as [Hav|_]; [congruence|].
  destruct (decide (Agent.status _ = at_store)) as [Hat|_]; [simpl in Hat; congruence|].
  replace (atEndOfRoute _) with true. by rewrite orb_true_r.
Qed.

(** C2.  In every reachable state of the full simulation no order is
    delivered and the delivered counter is 0: every agent that is at the store
    or on its way to the customer has its leg index at the end of its route, so
    the movement branch returns early for it and leaves it as it is, apart
    from its activity clock. *)
Theorem no_order_is_ever_delivered M generateUniqueId s :
  reachable M generateUniqueId s ->
  (forall o, In o (SimulationState.orders s) -> Order.status o <> delivered)
  /\ SimulationState.totalOrdersDelivered s = 0%Z
  /\ (forall a, In a (SimulationState.agents s) ->
        Agent.status a = at_store \/ Agent.status a = to_customer ->
        atEndOfRoute a = true)
  /\ (forall a speed traffic now stores acc,
        In a (SimulationState.agents s) -> Agent.status a = to_customer ->
        updateAgentMovement M speed traffic now stores a acc
        = (Agent.set_timeContinuouslyActive
             (Agent.timeContinuouslyActive a + MINUTES_PER_SIMULATION_STEP) a, acc)).
Proof.
  intros Hreach. destruct (reachable_stateOk _ _ _ Hreach) as (Hagents & Horders & Hdel).
  rewrite Forall_forall in Hagents. rewrite Forall_forall in Horders.
  split_and!; [|done| |].
  - intros o Hin. by destruct (Horders o (proj2 (list_elem_of_In _ _) Hin)) as [? _].
  - intros a Hin. by destruct (Hagents a (proj2 (list_elem_of_In _ _) Hin)) as (_ & _ & ? & _).
  - intros a speed traffic now stores acc Hin Hst.
    destruct (Hagents a (proj2 (list_elem_of_In _ _) Hin)) as (_ & _ & Hp & _).
    apply to_customer_is_stuck; [done|]. apply Hp. by right.
Qed.

Lemma no_order_is_ever_delivered_witness :
  SimulationState.totalOrdersDelivered demoState3 = 0%Z.
Proof.
  exact (proj1 (proj2
    (no_order_is_ever_delivered smallAngleMath prefixId demoState3 demoState3_reachable))).
Defined.

(** C3.  In every reachable state the fatigue factor of every agent is
    within [0.5, 1]; one application of the fatigue model never increases the
    factor of a busy agent and never decreases the factor of an available
    one. *)
Theorem fatigue_factor_bounded_and_monotone M generateUniqueId s :
  reachable M generateUniqueId s ->
  (forall a, In a (SimulationState.agents s) ->
     1 # 2 <= Agent.fatigueFactor a /\ Agent.fatigueFactor a <= 1)
  /\ (forall a, Agent.status a <> available ->
        Agent.fatigueFactor (updateAgentFatigue a) <= Agent.fatigueFactor a)
  /\ (forall a, Agent.status a = available ->
        Agent.fatigueFactor a <= Agent.fatigueFactor (updateAgentFatigue a)).
Proof.
  intros Hreach. destruct (reachable_stateOk _ _ _ Hreach) as (Hagents & _ & _).
  rewrite Forall_forall in Hagents.
  split_and!.
  - intros a Hin. by destruct (Hagents a (proj2 (list_elem_of_In _ _) Hin)) as (_ & _ & _ & ?).
  - apply updateAgentFatigue_busy.
  - apply updateAgentFatigue_idle.
Qed.

Lemma fatigue_factor_bounded_and_monotone_witness :
  List.Forall (fun a => 1 # 2 <= Agent.fatigueFactor a /\ Agent.fatigueFactor a <= 1)
    (SimulationState.agents demoState3).
Proof.
  apply List.Forall_forall.
  exact (proj1
    (fatigue_factor_bounded_and_monotone smallAngleMath prefixId demoState3 demoState3_reachable)).
Defined.

(** C6.  In every reachable state, for every agent, being [available],
    holding no order and having an empty route are pairwise equivalent; and
    each of order assignment, movement/delivery and the fatigue update turns
    a list of agents with that property into one with that property. *)
Theorem idle_equivalences_hold M generateUniqueId :
  (forall s, reachable M generateUniqueId s ->
     forall a, In a (SimulationState.agents s) ->
       (Agent.status a = available <-> Agent.currentOrder a = None)
       /\ (Agent.currentOrder a = None <-> Agent.routePath a = [])
       /\ (Agent.status a = available <-> Agent.routePath a = []))
  /\ (forall speed traffic stores agents orders,
        Forall idleEquiv agents ->
        Forall idleEquiv (assignOrdersToAgentsLogic M speed traffic stores agents orders).1)
  /\ (forall speed traffic now stores agents orders,
        Forall idleEquiv agents ->
        Forall idleEquiv
          (updateAgentsMovementAndStatusLogic M speed traffic now stores agents orders).1)
  /\ (forall agents,
        Forall idleEquiv agents -> Forall idleEquiv (updateAgentFatigueLogic agents)).
Proof.
  split_and!.
  - intros s Hreach a Hin.
    destruct (reachable_stateOk _ _ _ Hreach) as (Hagents & _ & _).
    rewrite Forall_forall in Hagents.
    by destruct (Hagents a (proj2 (list_elem_of_In _ _) Hin)) as (? & _).
  - intros speed traffic stores agents orders Hall.
    apply (assignOrdersToAgentsLogic_Forall M speed traffic stores idleEquiv (fun _ => True));
      [|done|done|].
    + intros a orderId route Hroute _. by apply dispatchAgent_idleEquiv.
    + by apply Forall_forall.
  - intros speed traffic now stores agents orders Hall.
    apply forEachAgent_Forall; [|done].
    intros a a' Hm _. by apply agentMove_idleEquiv.
  - intros agents Hall. unfold updateAgentFatigueLogic.
    apply Forall_forall. intros a' Hin.
    apply list_elem_of_In, in_map_iff in Hin as (a & <- & Hin).
    apply updateAgentFatigue_idleEquiv. rewrite Forall_forall in Hall.
    by apply Hall, list_elem_of_In.
Qed.

Lemma idle_equivalences_hold_witness :
  List.Forall (fun a =>
      (Agent.status a = available <-> Agent.currentOrder a = None)
      /\ (Agent.currentOrder a = None <-> Agent.routePath a = [])
      /\ (Agent.status a = available <-> Agent.routePath a = []))
    (SimulationState.agents demoState2).
Proof.
  apply List.Forall_forall.
  exact (proj1 (idle_equivalences_hold smallAngleMath prefixId) demoState2 demoState2_reachable).
Defined.

Lemma demoState1_agent :
  exists a, SimulationState.agents demoState1 = [a]
    /\ Agent.status a = at_store /\ length (Agent.routePath a) = 7%nat.
Proof. eexists. split_and!; vm_compute; reflexivity. Qed.

(** C7 as stated fails: after the first tick of the demonstration run the
    agent is [at_store] and still has its seven route waypoints. *)
Lemma at_store_agent_keeps_its_route :
  reachable smallAngleMath prefixId demoState1
  /\ exists a, In a (SimulationState.agents demoState1)
       /\ Agent.status a = at_store
       /\ length (Agent.routePath a) = 7%nat
       /\ ~ (Agent.routePath a <> [] <->
             Agent.status a = to_store \/ Agent.status a = to_customer).
Proof.
  split; [apply demoState1_reachable|].
  destruct demoState1_agent as (a & Ha & Hst & Hlen).
  exists a. rewrite Ha. split; [by left|]. split; [done|]. split; [done|].
  intros [Hif _]. destruct Hif as [H|H]; [|congruence..].
  intros Hnil. by rewrite Hnil in Hlen.
Qed.

(** C7, amended.  In every reachable state an agent holds an order iff it is
    not [available], and its route is non-empty iff its status is [to_store],
    [at_store] or [to_customer]: the route is kept while the agent waits at
    the store. *)
Theorem order_and_route_follow_status M generateUniqueId s :
  reachable M generateUniqueId s ->
  forall a, In a (SimulationState.agents s) ->
    (Agent.currentOrder a <> None <-> Agent.status a <> available)
    /\ (Agent.routePath a <> [] <->
        Agent.status a = to_store \/ Agent.status a = at_store
        \/ Agent.status a = to_customer).
Proof.
  intros Hreach a Hin.
  destruct (reachable_stateOk _ _ _ Hreach) as (Hagents & _ & _).
  rewrite Forall_forall in Hagents.
  destruct (Hagents a (proj2 (list_elem_of_In _ _) Hin)) as ((H1 & H2 & H3) & Hb & _ & _).
  unfold inService in Hb. split.
  - by rewrite H1.
  - rewrite <- H3. clear H1 H2 H3.
    destruct (Agent.status a); split; intros H; try done; try (by destruct H as [?|[?|?]]); eauto.
Qed.

Lemma order_and_route_follow_status_witness :
  List.Forall (fun a =>
      (Agent.currentOrder a <> None <-> Agent.status a <> available)
      /\ (Agent.routePath a <> [] <->
          Agent.status a = to_store \/ Agent.status a = at_store
          \/ Agent.status a = to_customer))
    (SimulationState.agents demoState1).
Proof.
  apply List.Forall_forall.
  exact (order_and_route_follow_status smallAngleMath prefixId demoState1 demoState1_reachable).
Defined.

(** The delivery branch stamps the order: the arrival time is the current
    time and the delivery time is the arrival time minus the time placed. *)
Lemma finalizeDelivery_stamps now a o :
  let o' := (finalizeDelivery now a o).2 in
  Order.status o' = delivered
  /\ Order.timePlaced o' = Order.timePlaced o
  /\ Order.customerArrivalTime o' = Some now
  /\ Order.deliveryTime o' = Some (now - Order.timePlaced o').
Proof. done. Qed.

(** C8.  In every reachable state the timestamps of every order that are
    set are ordered, placed <= store arrival <= customer arrival, and a
    delivered order has a delivery time equal to its customer arrival time
    minus its time placed; the delivery branch computes exactly that
    difference. *)
Theorem order_timestamps_are_ordered M generateUniqueId s :
  reachable M generateUniqueId s ->
  (forall o, In o (SimulationState.orders s) ->
     (forall ts, Order.storeArrivalTime o = Some ts -> Order.timePlaced o <= ts)
     /\ (forall ts tc, Order.storeArrivalTime o = Some ts ->
           Order.customerArrivalTime o = Some tc -> ts <= tc)
     /\ (forall tc, Order.customerArrivalTime o = Some tc -> Order.timePlaced o <= tc)
     /\ (Order.status o = delivered ->
           exists tc, Order.customerArrivalTime o = Some tc
             /\ Order.deliveryTime o = Some (tc - Order.timePlaced o)))
  /\ (forall now a o,
        Order.customerArrivalTime (finalizeDelivery now a o).2 = Some now
        /\ Order.deliveryTime (finalizeDelivery now a o).2 = Some (now - Order.timePlaced o)).
Proof.
  intros Hreach. split; [|done]. intros o Hin.
  destruct (reachable_stateOk _ _ _ Hreach) as (_ & Horders & _).
  rewrite Forall_forall in Horders.
  destruct (Horders o (proj2 (list_elem_of_In _ _) Hin)) as (Hs & Hc & _ & _ & Ht).
  split_and!.
  - intros ts Hts. by destruct (Ht ts Hts).
  - intros ts tc _ Htc. congruence.
  - intros tc Htc. congruence.
  - done.
Qed.

Lemma order_timestamps_are_ordered_witness :
  List.Forall (fun o =>
      forall ts, Order.storeArrivalTime o = Some ts -> Order.timePlaced o <= ts)
    (SimulationState.orders demoState3).
Proof.
  apply List.Forall_forall. intros o Hin.
  exact (proj1 (proj1
    (order_timestamps_are_ordered smallAngleMath prefixId demoState3 demoState3_reachable)
    o Hin)).
Defined.

(** ** Demand generation *)

Section DemandCount.
Variable M : JsMath.
Variable generateUniqueId : string -> Gen string.
Variable now : Q.
Variable darkStoreLocations : list LatLngTuple.

(** In the full simulation a zone spawns at most one order per tick. *)
Lemma generateForZone_at_most_one acc zone rnd k :
  (length (newOrders (generateForZone M generateUniqueId now darkStoreLocations
                        acc zone rnd k).1)
   <= length (newOrders acc) + 1)%nat.
Proof.
  unfold generateForZone.
  destruct (_ && _); [|simpl; lia]. unfold gbind, Math_random, gret.
  destruct (Qltb _ _); [|simpl; lia].
  destruct (placeOrder _ _ _ _ _) as [coords k']. unfold pushOrder, gbind, gret.
  destruct (generateUniqueId _ rnd k') as [id k'']. simpl.
  rewrite length_app. simpl. lia.
Qed.

End DemandCount.

(** C5 (evaluation at the failing input).  For the zone [busyZone] the
    expected number of orders of a step is 2.5, which calls for 2 or 3
    new orders; the demand generator of the full simulation creates exactly
    one. *)
Theorem full_simulation_spawns_one_order_per_zone :
  let expected := DemandZone.minOrders busyZone * (MINUTES_PER_SIMULATION_STEP / 60) in
  Math_floor expected = 2%Z
  /\ Math_ceil expected = 3%Z
  /\ length (newOrders
       (generateOrdersLogic smallAngleMath prefixId 5 [defaultDarkStoreLocationSim]
          0 "custom_1" [busyProfile] (constStream (1 # 2)) 0%nat).1) = 1%nat.
Proof. by vm_compute. Qed.

(** ** The reduced-fidelity run *)

Section OptimizationFacts.
Variable M : JsMath.
Variable customDemandProfiles : list CustomDemandProfile.t.
Variable darkStoreCoords : LatLngTuple.
Variable demandProfileId : string.
Variables (maxSimTime targetSLA : Q).

Local Abbreviation spawn := (spawnOrders M darkStoreCoords).
Local Abbreviation genStep :=
  (generateStep M customDemandProfiles darkStoreCoords demandProfileId).
Local Abbreviation genLoop :=
  (generateLoop M customDemandProfiles darkStoreCoords demandProfileId maxSimTime).
Local Abbreviation demandOf :=
  (generateDemand M customDemandProfiles darkStoreCoords demandProfileId maxSimTime).
Local Abbreviation runOnce :=
  (simplifiedSimulationRun M customDemandProfiles darkStoreCoords demandProfileId
     maxSimTime targetSLA).

Lemma spawnOrders_length n t_step d rnd k :
  length (optOrders (spawn n t_step d rnd k).1) = (length (optOrders d) + n)%nat
  /\ (counted d -> counted (spawn n t_step d rnd k).1).
Proof.
  revert d k. induction n as [|n IH]; intros d k; simpl; [split; [lia|done]|].
  unfold gbind.
  destruct (getRandomPointNearHotspot _ _ _ _ _) as [coords k'].
  match goal with |- context [spawn n t_step ?d' rnd k'] =>
    destruct (IH d' k') as [Hlen Hcnt]
  end.
  rewrite Hlen. simpl. rewrite length_app. simpl. split; [lia|].
  intros Hd. apply Hcnt. unfold counted in *. simpl. rewrite length_app. simpl. lia.
Qed.

(** The reduced-fidelity run rounds the expected number of orders of a step
    down or up and spawns that many. *)
Lemma generateStep_floor_or_ceil t_step d rnd k :
  let expected :=
    (expectedThisStep customDemandProfiles demandProfileId t_step rnd k).1 in
  let spawned :=
    (length (optOrders (genStep t_step d rnd k).1) - length (optOrders d))%nat in
  spawned = Z.to_nat (Math_floor expected) \/ spawned = Z.to_nat (Math_ceil expected).
Proof.
  unfold generateStep, gbind, Math_random. simpl.
  destruct (expectedThisStep _ _ _ _ _) as [expected k']. simpl.
  destruct (Qltb _ _);
    match goal with |- context [spawn ?n t_step d rnd ?k0] =>
      destruct (spawnOrders_length n t_step d rnd k0) as [-> _]
    end; [right|left]; lia.
Qed.

Lemma generateStep_counted t_step d rnd k :
  counted d -> counted (genStep t_step d rnd k).1.
Proof.
  intros Hd. unfold generateStep, gbind, Math_random.
  destruct (expectedThisStep _ _ _ _ _) as [expected k'].
  by apply spawnOrders_length.
Qed.

Lemma generateLoop_counted fuel t_step d rnd k :
  counted d -> counted (genLoop fuel t_step d rnd k).1.
Proof.
  revert t_step d k. induction fuel as [|fuel IH]; intros t_step d k Hd; simpl; [done|].
  destruct (Qltb t_step maxSimTime); [|done]. unfold gbind.
  pose proof (generateStep_counted t_step d rnd k Hd) as Hd'.
  destruct (genStep t_step d rnd k) as [d' k']. by apply IH.
Qed.

Lemma generateDemand_counted rnd k : counted (demandOf rnd k).1.
Proof. by apply generateLoop_counted. Qed.

Lemma generateLoop_S fuel t_step d rnd k :
  genLoop (S fuel) t_step d rnd k =
  if Qltb t_step maxSimTime then
    let '(d', k') := genStep t_step d rnd k in
    genLoop fuel (t_step + MINUTES_PER_SIMULATION_STEP) d' rnd k'
  else (d, k).
Proof. simpl. by destruct (Qltb t_step maxSimTime). Qed.

(** The generation loop never stops for lack of fuel. *)
Lemma generateLoop_fuel fuel t_step d rnd k :
  maxSimTime - t_step <= MINUTES_PER_SIMULATION_STEP * inject_Z (Z.of_nat fuel) ->
  genLoop (S fuel) t_step d rnd k = genLoop fuel t_step d rnd k.
Proof.
  revert t_step d k. induction fuel as [|fuel IH]; intros t_step d k Hfuel.
  - simpl. replace (Qltb t_step maxSimTime) with false; [done|].
    symmetry. apply Qltb_ge. unfold MINUTES_PER_SIMULATION_STEP in Hfuel.
    change (inject_Z (Z.of_nat 0)) with 0 in Hfuel. lra.
  - rewrite (generateLoop_S (S fuel)), (generateLoop_S fuel t_step).
    destruct (Qltb t_step maxSimTime); [|done].
    destruct (genStep t_step d rnd k) as [d' k']. apply IH.
    rewrite Nat2Z.inj_succ in Hfuel. unfold Z.succ in Hfuel.
    rewrite inject_Z_plus in Hfuel.
    unfold MINUTES_PER_SIMULATION_STEP in *. change (inject_Z 1) with 1 in Hfuel. lra.
Qed.

Lemma horizonSteps_enough :
  maxSimTime - 0
  <= MINUTES_PER_SIMULATION_STEP * inject_Z (Z.of_nat (horizonSteps maxSimTime)).
Proof.
  unfold horizonSteps, MINUTES_PER_SIMULATION_STEP.
  pose proof (Qle_ceiling (maxSimTime / 5)) as Hceil.
  assert (Hz : inject_Z (Qceiling (maxSimTime / 5))
               <= inject_Z (Z.of_nat (Z.to_nat (Qceiling (maxSimTime / 5))))).
  { rewrite <- Zle_Qle. lia. }
  assert (Hdiv : maxSimTime == 5 * (maxSimTime / 5)) by (field).
  lra.
Qed.

Lemma generateDemand_fuel extra d rnd k :
  genLoop (horizonSteps maxSimTime + extra) 0 d rnd k
  = genLoop (horizonSteps maxSimTime) 0 d rnd k.
Proof.
  induction extra as [|extra IH].
  - by rewrite Nat.add_0_r.
  - rewrite Nat.add_succ_r, generateLoop_fuel; [done|].
    pose proof horizonSteps_enough as Hh.
    rewrite Nat2Z.inj_add, inject_Z_plus.
    assert (0 <= inject_Z (Z.of_nat extra)) by (rewrite <- (Zle_Qle 0); lia).
    unfold MINUTES_PER_SIMULATION_STEP in *. lra.
Qed.

Lemma settleGenerated_counted d :
  counted d ->
  (1 <= settleGenerated d)%Z
  /\ (optOrders d = [] -> settleGenerated d = 1%Z)
  /\ (optOrders d <> [] -> settleGenerated d = Z.of_nat (length (optOrders d))).
Proof.
  unfold counted, settleGenerated. intros ->.
  destruct (optOrders d) as [|o rest]; simpl; [done|].
  split_and!; [lia|done|done].
Qed.

Lemma simplifiedSimulationRun_generated numAgents rnd k :
  generatedOrders (runOnce numAgents rnd k).1 = settleGenerated (demandOf rnd k).1.
Proof.
  unfold simplifiedSimulationRun, gbind, gret.
  destruct (demandOf rnd k) as [demand k'].
  by destruct (serveOrders _ _ _ _ _ _) as [orders run].
Qed.

Lemma simplifiedSimulationRun_no_demand numAgents rnd k :
  optOrders (demandOf rnd k).1 = [] -> deliveredOrders (runOnce numAgents rnd k).1 = 0%Z.
Proof.
  unfold simplifiedSimulationRun, gbind, gret.
  destruct (demandOf rnd k) as [demand k']. simpl. by intros ->.
Qed.

Lemma runRepetitions_generated numRuns numAgents rnd k :
  (Z.of_nat numRuns
   <= totalGenerated
        (runRepetitions M customDemandProfiles darkStoreCoords demandProfileId
           maxSimTime targetSLA numRuns numAgents rnd k).1)%Z.
Proof.
  unfold totalGenerated.
  assert (Hgen : forall z,
    (z + Z.of_nat numRuns
     <= List.fold_left (fun s r => s + generatedOrders r)
          (runRepetitions M customDemandProfiles darkStoreCoords demandProfileId
             maxSimTime targetSLA numRuns numAgents rnd k).1 z)%Z);
    [|by apply (Hgen 0%Z)].
  revert k. induction numRuns as [|n IH]; intros k z; simpl; [lia|].
  unfold gbind, gret.
  pose proof (simplifiedSimulationRun_generated numAgents rnd k) as Hg.
  destruct (settleGenerated_counted _ (generateDemand_counted rnd k)) as [Hone _].
  destruct (runOnce numAgents rnd k) as [stats k']. simpl in Hg.
  specialize (IH k' (z + generatedOrders stats)%Z).
  destruct (runRepetitions _ _ _ _ _ _ _ _ _ _) as [rest k'']. simpl in *. lia.
Qed.

End OptimizationFacts.

(** C10.  Whatever the inputs, the stats of a reduced-fidelity run report at
    least one generated order.  When the horizon produced no order the run
    reports one generated order, no delivered order and hence completion
    rate 0; otherwise it reports the number of orders produced.  The total
    over one or more repetitions, the divisor of the completion rate, is
    positive. *)
Theorem simplified_run_reports_at_least_one_generated
  M profiles store profileId maxSimTime targetSLA numAgents rnd k :
  let stats :=
    (simplifiedSimulationRun M profiles store profileId maxSimTime targetSLA
       numAgents rnd k).1 in
  let demand := (generateDemand M profiles store profileId maxSimTime rnd k).1 in
  (1 <= generatedOrders stats)%Z
  /\ (optOrders demand = [] ->
      generatedOrders stats = 1%Z /\ deliveredOrders stats = 0%Z
      /\ completionRate [stats] == 0)
  /\ (optOrders demand <> [] ->
      generatedOrders stats = Z.of_nat (length (optOrders demand)))
  /\ (forall numRuns, (0 < numRuns)%nat ->
      (0 < totalGenerated
             (runRepetitions M profiles store profileId maxSimTime targetSLA
                numRuns numAgents rnd k).1)%Z).
Proof.
  intros stats demand.
  pose proof (simplifiedSimulationRun_generated M profiles store profileId maxSimTime
                targetSLA numAgents rnd k) as Hgen.
  destruct (settleGenerated_counted _
              (generateDemand_counted M profiles store profileId maxSimTime rnd k))
    as (Hone & Hnone & Hsome).
  fold stats in Hgen. fold demand in Hgen, Hone, Hnone, Hsome.
  split_and!.
  - by rewrite Hgen.
  - intros Hempty.
    pose proof (simplifiedSimulationRun_no_demand M profiles store profileId maxSimTime
                  targetSLA numAgents rnd k Hempty) as Hdel.
    fold stats in Hdel. split_and!; [by rewrite Hgen; apply Hnone|done|].
    unfold completionRate, totalGenerated, totalDelivered. simpl.
    rewrite Hdel, Hgen, (Hnone Hempty). reflexivity.
  - intros Hdemand. rewrite Hgen. by apply Hsome.
  - intros numRuns Hruns.
    pose proof (runRepetitions_generated M profiles store profileId maxSimTime targetSLA
                  numRuns numAgents rnd k). lia.
Qed.

Lemma simplified_run_reports_at_least_one_generated_witness :
  generatedOrders
    (simplifiedSimulationRun smallAngleMath [] defaultDarkStoreLocationSim
       "default_opt_uniform_ccr" 0 25 3 (constStream (1 # 2)) 0%nat).1 = 1%Z
  /\ deliveredOrders
       (simplifiedSimulationRun smallAngleMath [] defaultDarkStoreLocationSim
          "default_opt_uniform_ccr" 0 25 3 (constStream (1 # 2)) 0%nat).1 = 0%Z.
Proof.
  destruct (proj1 (proj2
    (simplified_run_reports_at_least_one_generated smallAngleMath []
       defaultDarkStoreLocationSim "default_opt_uniform_ccr" 0 25 3
       (constStream (1 # 2)) 0%nat)) eq_refl) as (Hgen & Hdel & _).
  exact (conj Hgen Hdel).
Defined.

(** ** Dispatch *)

Section FirstMinimum.
Context {A : Type} (key : A -> Q) (ok : A -> bool).

Lemma firstMinStep_spec seen acc x :
  firstMin key ok seen acc -> firstMin key ok (seen ++ [x]) (firstMinStep key ok acc x).
Proof.
  unfold firstMinStep. destruct acc as [[m|] [b|]]; simpl; try done.
  - intros (-> & Hb & pre & post & -> & Hpre & Hpost).
    destruct (ok x) eqn:Hx.
    + destruct (Qltb (key x) (key b)) eqn:Hlt; simpl.
      * apply Qltb_lt in Hlt. split_and!; [done..|].
        exists (pre ++ b :: post), []. split_and!; [done| |by intros ? []].
        intros y Hy Hoky. apply in_app_iff in Hy as [Hy|[<-|Hy]]; [|done|].
        -- specialize (Hpre y Hy Hoky). lra.
        -- specialize (Hpost y Hy Hoky). lra.
      * apply Qltb_ge in Hlt. split_and!; [done..|].
        exists pre, (post ++ [x]). split_and!; [by rewrite <- app_assoc|done|].
        intros y Hy Hoky. apply in_app_iff in Hy as [Hy|[<-|[]]]; [by apply Hpost|done].
    + split_and!; [done..|].
      exists pre, (post ++ [x]). split_and!; [by rewrite <- app_assoc|done|].
      intros y Hy Hoky. apply in_app_iff in Hy as [Hy|[<-|[]]]; [by apply Hpost|congruence].
  - intros Hnone. destruct (ok x) eqn:Hx; simpl.
    + split_and!; [done..|]. exists seen, []. split_and!; [done| |by intros ? []].
      intros y Hy Hoky. rewrite (Hnone y Hy) in Hoky. done.
    + intros y Hy. apply in_app_iff in Hy as [Hy|[<-|[]]]; [by apply Hnone|done].
Qed.

Lemma firstMin_fold l seen acc :
  firstMin key ok seen acc ->
  firstMin key ok (seen ++ l) (List.fold_left (firstMinStep key ok) l acc).
Proof.
  revert seen acc. induction l as [|x l IH]; intros seen acc Hacc; simpl.
  - by rewrite app_nil_r.
  - replace (seen ++ x :: l) with ((seen ++ [x]) ++ l) by (by rewrite <- app_assoc).
    by apply IH, firstMinStep_spec.
Qed.

Lemma firstMin_start l :
  firstMin key ok l (List.fold_left (firstMinStep key ok) l (None, None)).
Proof. apply (firstMin_fold l [] (None, None)). by intros y []. Qed.

End FirstMinimum.

Lemma fold_left_pointwise {A B} (f g : A -> B -> A) l a :
  (forall a x, f a x = g a x) -> List.fold_left f l a = List.fold_left g l a.
Proof.
  intros Hfg. revert a. induction l as [|x l IH]; intros a; simpl; [done|].
  by rewrite Hfg, IH.
Qed.

Section DispatchChoice.
Variable M : JsMath.
Variables (agentSpeedKmph trafficFactor : Q).

Local Abbreviation isEligible := (eligible agentSpeedKmph trafficFactor).
Local Abbreviation eta := (etaOf M agentSpeedKmph trafficFactor).
Local Abbreviation etaAt := (etaOfRef M agentSpeedKmph trafficFactor).
Local Abbreviation eligibleAt := (eligibleRef agentSpeedKmph trafficFactor).

Lemma considerAgent_firstMinStep agents store customer acc ref :
  considerAgent M agentSpeedKmph trafficFactor agents store customer acc ref
  = firstMinStep (etaAt agents store customer) (eligibleAt agents) acc ref.
Proof.
  unfold considerAgent, firstMinStep, etaOfRef, eligibleRef, eligible.
  destruct (agents !! ref) as [agent|]; [|done].
  destruct (stillAvailable agents agent); simpl; [|done].
  by destruct (Qleb _ (1 # 10)).
Qed.

Lemma bestDarkStoreFor_spec stores customer :
  stores <> [] ->
  exists pre post,
    stores = pre ++ bestDarkStoreFor M stores customer :: post
    /\ (forall s, In s pre ->
          getDistanceKm M (bestDarkStoreFor M stores customer) customer
          < getDistanceKm M s customer)
    /\ (forall s, In s post ->
          getDistanceKm M (bestDarkStoreFor M stores customer) customer
          <= getDistanceKm M s customer).
Proof.
  intros Hne. unfold bestDarkStoreFor.
  pose proof (firstMin_start (fun ds => getDistanceKm M ds customer) (fun _ => true) stores)
    as Hmin.
  rewrite (fold_left_pointwise (closestStoreStep M customer)
             (firstMinStep (fun ds => getDistanceKm M ds customer) (fun _ => true)))
    by done.
  destruct (List.fold_left _ stores (None, None)) as [[m|] [s|]]; simpl in *; try done.
  - destruct Hmin as (_ & _ & pre & post & -> & Hpre & Hpost).
    exists pre, post. split_and!; [done|..]; intros s' Hs'; eauto.
  - destruct stores as [|s rest]; [done|]. by discriminate (Hmin s (or_introl eq_refl)).
Qed.

Lemma bestAgentFor_spec agents candidates store customer :
  match (bestAgentFor M agentSpeedKmph trafficFactor agents candidates store customer).2 with
  | Some ref =>
      exists agent pre post,
        agents !! ref = Some agent
        /\ candidates = pre ++ ref :: post
        /\ isEligible agents agent = true
        /\ (forall r a, In r pre -> agents !! r = Some a -> isEligible agents a = true ->
              eta agent store customer < eta a store customer)
        /\ (forall r a, In r post -> agents !! r = Some a -> isEligible agents a = true ->
              eta agent store customer <= eta a store customer)
  | None =>
      forall r a, In r candidates -> agents !! r = Some a -> isEligible agents a = false
  end.
Proof.
  unfold bestAgentFor.
  pose proof (firstMin_start (etaAt agents store customer) (eligibleAt agents) candidates)
    as Hmin.
  rewrite (fold_left_pointwise _ _ _ _ (considerAgent_firstMinStep agents store customer)).
  destruct (List.fold_left _ candidates (None, None)) as [[m|] [ref|]]; simpl in *; try done.
  - destruct Hmin as (_ & Hok & pre & post & -> & Hpre & Hpost).
    unfold eligibleRef, etaOfRef in *.
    destruct (agents !! ref) as [agent|] eqn:Hagent; [|done].
    exists agent, pre, post. split_and!; [done..| |].
    + intros r a Hr Ha Hel. specialize (Hpre r Hr). rewrite Ha in Hpre. by apply Hpre.
    + intros r a Hr Ha Hel. specialize (Hpost r Hr). rewrite Ha in Hpost. by apply Hpost.
  - intros r a Hr Ha. specialize (Hmin r Hr). unfold eligibleRef in Hmin. by rewrite Ha in Hmin.
Qed.

(** The order goes to the agent that [bestAgentFor] returns: the first
    agent with its id, which is [available], is sent to the serving store. *)
Lemma assignOrder_dispatches stores st orderRef order bestRef bestAgent :
  let customer : LatLngTuple := (Order.lat order, Order.lng order) in
  let store := bestDarkStoreFor M stores customer in
  modifiableOrders st !! orderRef = Some order ->
  (bestAgentFor M agentSpeedKmph trafficFactor (modifiableAgents st) (availableAgents st)
     store customer).2 = Some bestRef ->
  modifiableAgents st !! bestRef = Some bestAgent ->
  exists agentIndex a,
    findAgent (modifiableAgents st) (Agent.id bestAgent) = Some (agentIndex, a)
    /\ Agent.status a = available
    /\ modifiableAgents (assignOrder M agentSpeedKmph trafficFactor stores st orderRef)
         !! agentIndex
       = Some (dispatchAgent (Order.id order) (routeFor bestAgent store customer) a).
Proof.
  intros customer store Horder Hbest Hagent.
  pose proof (bestAgentFor_spec (modifiableAgents st) (availableAgents st) store customer)
    as Hspec.
  rewrite Hbest in Hspec. destruct Hspec as (agent & _ & _ & Hagent' & _ & Hel & _).
  rewrite Hagent in Hagent'. injection Hagent' as <-.
  unfold eligible, stillAvailable in Hel. apply andb_true_iff in Hel as [Hav _].
  destruct (findAgent (modifiableAgents st) (Agent.id bestAgent)) as [[agentIndex a]|] eqn:Hfind;
    [|done].
  apply bool_decide_eq_true in Hav.
  exists agentIndex, a. split_and!; [done..|].
  unfold assignOrder. rewrite Horder. fold customer. fold store.
  rewrite Hbest, Hagent, Hfind.
  assert (Hfo : is_Some (findOrder (modifiableOrders st) (Some (Order.id order)))).
  { simpl. eapply list_find_elem_of; [|done]. by eapply list_elem_of_lookup_2. }
  destruct Hfo as [[orderIndex o] ->]. simpl.
  apply list_find_Some in Hfind as (Hlook & _).
  by rewrite list_lookup_alter_eq, Hlook.
Qed.

End DispatchChoice.

(** ** References *)

Lemma refsWhere_app {A} (p : A -> bool) (l1 l2 : list A) k :
  refsWhere p (l1 ++ l2) k = refsWhere p l1 k ++ refsWhere p l2 (k + length l1).
Proof.
  revert k. induction l1 as [|x l1 IH]; intros k; simpl.
  - by rewrite Nat.add_0_r.
  - rewrite IH. replace (S k + length l1)%nat with (k + S (length l1))%nat by lia.
    by destruct (p x).
Qed.

Lemma refsWhere_In {A} (p : A -> bool) (l : list A) k r :
  In r (refsWhere p l k) ->
  (k <= r)%nat /\ exists x, l !! (r - k)%nat = Some x /\ p x = true.
Proof.
  revert k. induction l as [|x l IH]; intros k; simpl; [done|].
  destruct (p x) eqn:Hx.
  - intros [<-|Hr].
    + split; [lia|]. exists x. by rewrite Nat.sub_diag.
    + destruct (IH _ Hr) as (Hk & y & Hy & Hp). split; [lia|]. exists y.
      replace (r - k)%nat with (S (r - S k)) by lia. done.
  - intros Hr. destruct (IH _ Hr) as (Hk & y & Hy & Hp). split; [lia|]. exists y.
    replace (r - k)%nat with (S (r - S k)) by lia. done.
Qed.

Lemma refsWhere_complete {A} (p : A -> bool) (l : list A) k j x :
  l !! j = Some x -> p x = true -> In (k + j)%nat (refsWhere p l k).
Proof.
  revert k j. induction l as [|y l IH]; intros k [|j] Hj Hp; simpl in *; try done.
  - injection Hj as ->. rewrite Hp, Nat.add_0_r. by left.
  - replace (k + S j)%nat with (S k + j)%nat by lia.
    destruct (p y); [right|]; by apply IH.
Qed.

Lemma refsWhere_NoDup {A} (p : A -> bool) (l : list A) k : NoDup (refsWhere p l k).
Proof.
  revert k. induction l as [|x l IH]; intros k; simpl; [constructor|].
  destruct (p x); [|done]. constructor; [|done].
  intros Hin. apply list_elem_of_In, refsWhere_In in Hin as [? _]. lia.
Qed.

Lemma refsWhere_split {A} (p : A -> bool) (l : list A) i x :
  l !! i = Some x -> p x = true ->
  refsWhere p l 0 = refsWhere p (take i l) 0 ++ i :: refsWhere p (drop (S i) l) (S i).
Proof.
  intros Hi Hp.
  rewrite <- (take_drop_middle l i x Hi) at 1.
  rewrite refsWhere_app. simpl. rewrite Hp.
  apply lookup_lt_Some in Hi. rewrite length_take, Nat.min_l by lia. done.
Qed.

Lemma refsWhere_alter_out {A} (p : A -> bool) (f : A -> A) (l : list A) i x :
  l !! i = Some x -> p (f x) = false ->
  refsWhere p (alter f i l) 0
  = refsWhere p (take i l) 0 ++ refsWhere p (drop (S i) l) (S i).
Proof.
  intros Hi Hp.
  rewrite <- (take_drop_middle l i x Hi) at 1.
  pose proof (lookup_lt_Some _ _ _ Hi) as Hlt.
  rewrite alter_app_r_alt by (rewrite length_take; lia).
  rewrite length_take, Nat.min_l, Nat.sub_diag by lia. simpl.
  rewrite refsWhere_app. simpl. rewrite Hp.
  rewrite length_take, Nat.min_l by lia. done.
Qed.

Lemma app_cons_unique {A} (x : A) (a b a' b' : list A) :
  a ++ x :: b = a' ++ x :: b' -> ~ In x a' -> ~ In x b' -> a = a' /\ b = b'.
Proof.
  revert a'. induction a as [|y a IH]; intros [|y' a'] Heq Ha' Hb'; simpl in *.
  - by injection Heq as ->.
  - injection Heq as -> _. destruct Ha'. by left.
  - injection Heq as -> <-. destruct Hb'. apply in_app_iff. right. by left.
  - injection Heq as -> Heq. destruct (IH a' Heq) as [-> ->]; [tauto|done|done].
Qed.

Lemma alter_insert_lookup {A} (f : A -> A) (l : list A) i x :
  l !! i = Some x -> alter f i l = <[i := f x]> l.
Proof.
  revert i. induction l as [|y l IH]; intros [|i] Hi; simpl in *; try done.
  - by injection Hi as ->.
  - f_equal. by apply IH.
Qed.

Lemma fmap_alter_keep {A B} (f : A -> B) (g : A -> A) (l : list A) i :
  (forall x, f (g x) = f x) -> f <$> alter g i l = f <$> l.
Proof.
  intros Hfg. revert i. induction l as [|y l IH]; intros [|i]; csimpl; try done.
  - by rewrite Hfg.
  - by rewrite IH.
Qed.

Lemma find_by_id_unique {A} (id : A -> string) (l : list A) r x :
  NoDup (id <$> l) -> l !! r = Some x ->
  list_find (fun y => id y = id x) l = Some (r, x).
Proof.
  intros Hnd Hr. apply list_find_Some. split_and!; [done..|].
  intros j y Hj Hlt Hid.
  assert (j = r); [|lia].
  eapply (NoDup_lookup _ _ _ _ Hnd); rewrite list_lookup_fmap.
  - by rewrite Hj.
  - rewrite Hr. simpl. by rewrite Hid.
Qed.

(** ** One pending order *)

Section DispatchStep.
Variable M : JsMath.
Variables (agentSpeedKmph trafficFactor : Q).
Variable darkStoreLocations : list LatLngTuple.
Variable agents : list Agent.t.
Variable orders : list Order.t.
Hypothesis inputs : dispatchInputs agentSpeedKmph trafficFactor darkStoreLocations agents orders.

Local Abbreviation assign1 := (assignOrder M agentSpeedKmph trafficFactor darkStoreLocations).
Local Abbreviation isAvailable := (fun a : Agent.t => bool_decide (Agent.status a = available)).

Lemma effectiveSpeed_in_range a :
  fatigueInRange a -> 1 # 10 < effectiveSpeedOf agentSpeedKmph trafficFactor a.
Proof.
  destruct inputs as (Hspeed & Htraffic & _). intros [Hlo Hhi]. unfold effectiveSpeedOf.
  assert (5 <= agentSpeedKmph * Agent.fatigueFactor a) by nra.
  nra.
Qed.

Lemma eligible_available st a r :
  dispatchInv agents orders [] st ->
  modifiableAgents st !! r = Some a ->
  eligible agentSpeedKmph trafficFactor (modifiableAgents st) a
  = bool_decide (Agent.status a = available).
Proof.
  intros (_ & Hids & _ & Hfat & _ & _) Hr. unfold eligible, stillAvailable, findAgent.
  destruct inputs as (_ & _ & _ & _ & Hnd & _). rewrite <- Hids in Hnd.
  rewrite (find_by_id_unique Agent.id _ r a Hnd Hr).
  pose proof (effectiveSpeed_in_range a (Forall_lookup_1 _ _ _ _ Hfat Hr)) as Hspeed.
  apply Qleb_gt in Hspeed. rewrite Hspeed. by rewrite andb_true_r.
Qed.

Lemma dispatchInv_waiting waiting waiting' st :
  (forall r, In r waiting' -> In r waiting) ->
  dispatchInv agents orders waiting st -> dispatchInv agents orders waiting' st.
Proof.
  intros Hsub (? & ? & ? & ? & Hw & ?). split_and!; try done. intros r Hr. by apply Hw, Hsub.
Qed.

(** The step of the dispatcher for the pending order behind [ref]. *)
Lemma assignOrder_step st ref waiting order :
  dispatchInv agents orders (ref :: waiting) st ->
  ~ In ref waiting ->
  orders !! ref = Some order ->
  dispatchStep M agentSpeedKmph trafficFactor
    (bestDarkStoreFor M darkStoreLocations (Order.lat order, Order.lng order))
    ref order st (assign1 st ref)
  /\ dispatchInv agents orders waiting (assign1 st ref).
Proof.
  intros Hinv Hfresh Horder.
  pose proof (dispatchInv_waiting (ref :: waiting) [] st ltac:(by intros ? []) Hinv) as Hinv0.
  destruct Hinv as (Havail & Hids & Hoids & Hfat & Hwait & Hsame).
  assert (Horder' : modifiableOrders st !! ref = Some order).
  { rewrite Hwait; [done|by left]. }
  destruct inputs as (_ & _ & _ & _ & Hnd & Hndo).
  rewrite <- Hids in Hnd. rewrite <- Hoids in Hndo.
  set (customer := (Order.lat order, Order.lng order)).
  set (store := bestDarkStoreFor M darkStoreLocations customer).
  pose proof (bestAgentFor_spec M agentSpeedKmph trafficFactor (modifiableAgents st)
                (availableAgents st) store customer) as Hspec.
  unfold assignOrder. rewrite Horder'. fold customer. fold store.
  destruct (bestAgentFor M agentSpeedKmph trafficFactor (modifiableAgents st)
              (availableAgents st) store customer).2 as [bestRef|] eqn:Hbest.
  - destruct Hspec as (agent & pre & post & Hagent & Hcand & Hel & Hpre & Hpost).
    rewrite Hagent.
    rewrite (eligible_available st agent bestRef Hinv0 Hagent) in Hel.
    apply bool_decide_eq_true in Hel.
    unfold findOrder, findAgent.
    rewrite (find_by_id_unique Order.id _ ref order Hndo Horder').
    rewrite (find_by_id_unique Agent.id _ bestRef agent Hnd Hagent).
    (* the candidates before and after the chosen agent *)
    assert (Hp : isAvailable agent = true) by (by apply bool_decide_eq_true).
    pose proof (refsWhere_split isAvailable _ _ _ Hagent Hp) as Hsplit.
    rewrite <- Havail, Hcand in Hsplit.
    set (before := refsWhere isAvailable (take bestRef (modifiableAgents st)) 0) in *.
    set (after := refsWhere isAvailable (drop (S bestRef) (modifiableAgents st)) (S bestRef)) in *.
    assert (Hbefore : forall r, In r before -> (r < bestRef)%nat).
    { intros r Hr. apply refsWhere_In in Hr as (_ & x & Hx & _).
      apply lookup_lt_Some in Hx. rewrite length_take in Hx. lia. }
    assert (Hafter : forall r, In r after -> (bestRef < r)%nat).
    { intros r Hr. apply refsWhere_In in Hr as (? & _). lia. }
    apply app_cons_unique in Hsplit as [-> ->];
      [|by intros Hr; apply Hbefore in Hr; lia|by intros Hr; apply Hafter in Hr; lia].
    (* the reference that is removed from [availableAgents] *)
    assert (Hremove :
      list_find (fun r : nat =>
                   (Agent.id <$> modifiableAgents st !! r) = Some (Agent.id agent))
        (availableAgents st) = Some (length before, bestRef)).
    { rewrite Hcand. apply list_find_Some. split_and!.
      - by rewrite list_lookup_middle.
      - by rewrite Hagent.
      - intros j r Hj Hlt Hid. rewrite lookup_app_l in Hj by done.
        apply list_elem_of_lookup_2, list_elem_of_In, Hbefore in Hj.
        destruct (modifiableAgents st !! r) as [a|] eqn:Hr; [|done].
        injection Hid as Hid.
        pose proof (find_by_id_unique Agent.id _ r a Hnd Hr) as Hfind.
        rewrite Hid, (find_by_id_unique Agent.id _ bestRef agent Hnd Hagent) in Hfind.
        injection Hfind as ? _. lia. }
    rewrite Hremove. split.
    + right. exists bestRef, agent. simpl. split_and!; [done..| | | |].
      * intros j a Hlt Hj Hav. apply (Hpre j a); [|done|].
        -- apply (refsWhere_complete isAvailable _ 0 j a);
             [by rewrite lookup_take_lt by lia|by apply bool_decide_eq_true].
        -- rewrite (eligible_available st a j Hinv0 Hj). by apply bool_decide_eq_true.
      * intros j a Hlt Hj Hav. apply (Hpost j a); [|done|].
        -- replace j with (S bestRef + (j - S bestRef))%nat by lia.
           apply (refsWhere_complete isAvailable _ (S bestRef) (j - S bestRef) a);
             [|by apply bool_decide_eq_true].
           rewrite lookup_drop. by replace (S bestRef + (j - S bestRef))%nat with j by lia.
        -- rewrite (eligible_available st a j Hinv0 Hj). by apply bool_decide_eq_true.
      * by apply alter_insert_lookup.
      * by apply alter_insert_lookup.
    + unfold dispatchInv. simpl. split_and!.
      * rewrite Hcand, delete_middle.
        symmetry. by apply (refsWhere_alter_out isAvailable _ _ _ agent).
      * rewrite <- Hids. by apply fmap_alter_keep.
      * rewrite <- Hoids. by apply fmap_alter_keep.
      * apply Forall_alter; [done|]. intros a _ Ha. done.
      * intros r Hr. rewrite list_lookup_alter_ne; [apply Hwait; by right|].
        intros ->. done.
      * intros j a Hj Hav. destruct (decide (j = bestRef)) as [->|Hne].
        -- rewrite list_lookup_alter_eq, Hagent in Hj. by injection Hj as <-.
        -- rewrite list_lookup_alter_ne in Hj by done. by apply Hsame.
  - split.
    + left. split; [|done].
      apply Forall_forall. intros a Ha Hav.
      apply list_elem_of_lookup_1 in Ha as [j Hj].
      assert (Hin : In j (availableAgents st)).
      { rewrite Havail. apply (refsWhere_complete isAvailable _ 0 j a); [done|].
        by apply bool_decide_eq_true. }
      specialize (Hspec j a Hin Hj).
      rewrite (eligible_available st a j Hinv0 Hj) in Hspec.
      by apply bool_decide_eq_false in Hspec.
    + split_and!; try done. intros r Hr. apply Hwait. by right.
Qed.

Local Abbreviation stateAfter :=
  (dispatchAfter M agentSpeedKmph trafficFactor darkStoreLocations agents orders).

Lemma pendingRefs_order ref :
  In ref (pendingRefs orders) ->
  exists order, orders !! ref = Some order /\ Order.status order = pending.
Proof.
  intros Hin. apply refsWhere_In in Hin as (_ & order & Horder & Hp).
  rewrite Nat.sub_0_r in Horder. apply bool_decide_eq_true in Hp. by exists order.
Qed.

Lemma dispatchAfter_snoc processed ref :
  stateAfter (processed ++ [ref]) = assign1 (stateAfter processed) ref.
Proof. unfold dispatchAfter. by rewrite fold_left_app. Qed.

(** The invariant holds whenever the loop reaches a pending order. *)
Lemma dispatchAfter_inv processed waiting :
  pendingRefs orders = processed ++ waiting ->
  dispatchInv agents orders waiting (stateAfter processed).
Proof.
  revert waiting. induction processed as [|ref processed IH] using rev_ind; intros waiting Hrefs.
  - destruct inputs as (_ & _ & _ & Hfat & _).
    unfold dispatchAfter, dispatchStart, dispatchInv. simpl. by split_and!.
  - rewrite <- app_assoc in Hrefs. change ([ref] ++ waiting) with (ref :: waiting) in Hrefs.
    assert (Hnd : NoDup (pendingRefs orders)) by apply refsWhere_NoDup.
    rewrite Hrefs in Hnd.
    apply NoDup_app in Hnd as (_ & _ & Hnd). apply NoDup_cons in Hnd as [Hfresh _].
    destruct (pendingRefs_order ref) as (order & Horder & _).
    { rewrite Hrefs. apply in_app_iff. right. by left. }
    rewrite dispatchAfter_snoc.
    eapply assignOrder_step; [by apply IH| |done].
    intros Hin. by apply Hfresh, list_elem_of_In.
Qed.

(** Once an order has been processed, the rest of the loop leaves it, and
    every agent that is not available, as they are. *)
Lemma dispatchAfter_stable processed ref later :
  (exists waiting, pendingRefs orders = processed ++ ref :: later ++ waiting) ->
  modifiableOrders (stateAfter (processed ++ ref :: later)) !! ref
  = modifiableOrders (stateAfter (processed ++ [ref])) !! ref
  /\ (forall i a,
        modifiableAgents (stateAfter (processed ++ [ref])) !! i = Some a ->
        Agent.status a <> available ->
        modifiableAgents (stateAfter (processed ++ ref :: later)) !! i = Some a).
Proof.
  induction later as [|r later IH] using rev_ind; intros [waiting Hrefs]; [done|].
  rewrite <- app_assoc in Hrefs. change ([r] ++ waiting) with (r :: waiting) in Hrefs.
  destruct IH as [IHo IHa]; [by eexists|].
  assert (Hnd0 : NoDup (pendingRefs orders)) by apply refsWhere_NoDup.
  pose proof Hnd0 as Hnd. rewrite Hrefs in Hnd.
  assert (Hsplit : pendingRefs orders = (processed ++ ref :: later) ++ r :: waiting).
  { by rewrite Hrefs, <- app_assoc. }
  assert (Hne : r <> ref).
  { apply NoDup_app in Hnd as (_ & _ & Hnd). apply NoDup_cons in Hnd as [Hfresh _].
    intros ->. apply Hfresh. apply elem_of_app. right. by left. }
  assert (Hfresh : ~ In r waiting).
  { rewrite Hsplit in Hnd0. apply NoDup_app in Hnd0 as (_ & _ & Hnd0).
    apply NoDup_cons in Hnd0 as [Hfresh _]. intros Hin. by apply Hfresh, list_elem_of_In. }
  destruct (pendingRefs_order r) as (order & Horder & _).
  { rewrite Hsplit. apply in_app_iff. right. by left. }
  destruct (assignOrder_step (stateAfter (processed ++ ref :: later)) r waiting order
              (dispatchAfter_inv _ _ Hsplit) Hfresh Horder) as [Hstep _].
  replace (processed ++ ref :: later ++ [r]) with ((processed ++ ref :: later) ++ [r])
    by (by rewrite <- app_assoc).
  rewrite dispatchAfter_snoc.
  destruct Hstep as [[_ ->]|(i & agent & Hi & Hav & _ & _ & -> & ->)]; [done|].
  split.
  - by rewrite list_lookup_insert_ne.
  - intros j a Hj Hna. rewrite list_lookup_insert_ne; [by apply IHa|].
    intros Heq. subst j. pose proof (IHa _ _ Hj Hna) as Hj'.
    rewrite Hi in Hj'. injection Hj' as ->. done.
Qed.

Lemma assignOrder_no_candidates st ref :
  availableAgents st = [] -> assign1 st ref = st.
Proof.
  intros Hnone. unfold assignOrder.
  destruct (modifiableOrders st !! ref); [|done]. by rewrite Hnone.
Qed.

(** The early return of the dispatcher agrees with its loop. *)
Lemma assignOrdersToAgentsLogic_loop :
  assignOrdersToAgentsLogic M agentSpeedKmph trafficFactor darkStoreLocations agents orders
  = (modifiableAgents (stateAfter (pendingRefs orders)),
     modifiableOrders (stateAfter (pendingRefs orders))).
Proof.
  unfold assignOrdersToAgentsLogic, dispatchAfter, dispatchStart, pendingRefs.
  set (pending := refsWhere (fun o => bool_decide (Order.status o = pending)) orders 0).
  set (candidates := refsWhere isAvailable agents 0).
  destruct (decide (pending = [])) as [Hpending|Hpending].
  { rewrite Hpending. by rewrite bool_decide_eq_true_2. }
  rewrite (bool_decide_eq_false_2 _ Hpending). cbn [orb].
  destruct (decide (candidates = [])) as [Hnone|Hsome].
  - rewrite Hnone, bool_decide_eq_true_2 by done. clear Hpending.
    induction pending as [|r refs IH]; [done|].
    simpl. by rewrite assignOrder_no_candidates.
  - by rewrite (bool_decide_eq_false_2 _ Hsome).
Qed.

End DispatchStep.

(** C4.  The dispatcher, on the inputs that the tick passes to it.  For every
    pending order, at the point of the loop where it is processed: the
    serving dark store is a store at minimum distance from the order among
    all the stores; if an agent is still available, the order is assigned
    to the still-available agent with the minimum estimate
    time(agent->store) + 5 + time(store->customer), with
    time(d) = d / (agentSpeed * fatigueFactor * trafficFactor) * 60, the
    first such agent in the agent array on a tie, and the result of the
    dispatcher holds the order as assigned to that agent and the agent as
    sent to that store; if no agent is still available, the result holds
    the order as it was.  The agents that are still available are as they
    were on entry. *)
Theorem dispatch_sends_fastest_available_agent_via_nearest_store
  M agentSpeedKmph trafficFactor darkStoreLocations agents orders :
  dispatchInputs agentSpeedKmph trafficFactor darkStoreLocations agents orders ->
  (forall processed ref waiting,
     pendingRefs orders = processed ++ ref :: waiting ->
     let result :=
       assignOrdersToAgentsLogic M agentSpeedKmph trafficFactor darkStoreLocations
         agents orders in
     let st :=
       dispatchAfter M agentSpeedKmph trafficFactor darkStoreLocations agents orders
         processed in
     exists order,
       orders !! ref = Some order
       /\ Order.status order = pending
       /\ let customer : LatLngTuple := (Order.lat order, Order.lng order) in
          let store := bestDarkStoreFor M darkStoreLocations customer in
          In store darkStoreLocations
          /\ (forall s, In s darkStoreLocations ->
                getDistanceKm M store customer <= getDistanceKm M s customer)
          /\ (forall j a, modifiableAgents st !! j = Some a ->
                Agent.status a = available -> agents !! j = Some a)
          /\ ((Forall (fun a => Agent.status a <> available) (modifiableAgents st)
               /\ result.2 !! ref = Some order)
              \/ (exists i agent,
                    modifiableAgents st !! i = Some agent
                    /\ Agent.status agent = available
                    /\ (forall j a, (j < i)%nat -> modifiableAgents st !! j = Some a ->
                          Agent.status a = available ->
                          etaOf M agentSpeedKmph trafficFactor agent store customer
                          < etaOf M agentSpeedKmph trafficFactor a store customer)
                    /\ (forall j a, (i < j)%nat -> modifiableAgents st !! j = Some a ->
                          Agent.status a = available ->
                          etaOf M agentSpeedKmph trafficFactor agent store customer
                          <= etaOf M agentSpeedKmph trafficFactor a store customer)
                    /\ result.2 !! ref = Some (assignedTo agent order)
                    /\ result.1 !! i
                       = Some (dispatchAgent (Order.id order)
                                 (routeFor agent store customer) agent))))
  /\ (forall agent store customer,
        etaOf M agentSpeedKmph trafficFactor agent store customer
        = getDistanceKm M (Agent.lat agent, Agent.lng agent) store
            / (agentSpeedKmph * Agent.fatigueFactor agent * trafficFactor) * 60
          + 5
          + getDistanceKm M store customer
            / (agentSpeedKmph * Agent.fatigueFactor agent * trafficFactor) * 60).
Proof.
  intros Hinputs. split; [|done].
  intros processed ref waiting Hrefs result st.
  destruct (pendingRefs_order orders ref) as (order & Horder & Hpending).
  { rewrite Hrefs. apply in_app_iff. right. by left. }
  exists order. split; [done|]. split; [done|]. cbv zeta.
  set (customer := (Order.lat order, Order.lng order)).
  set (store := bestDarkStoreFor M darkStoreLocations customer).
  assert (Hstores : darkStoreLocations <> []) by (by destruct Hinputs as (_ & _ & ? & _)).
  destruct (bestDarkStoreFor_spec M darkStoreLocations customer Hstores)
    as (pre & post & Hsplit & Hpre & Hpost).
  fold store in Hsplit, Hpre, Hpost.
  split; [rewrite Hsplit; apply in_app_iff; right; by left|].
  split.
  { intros s Hs. rewrite Hsplit in Hs. apply in_app_iff in Hs as [Hs|[<-|Hs]].
    - apply Qlt_le_weak. by apply Hpre.
    - apply Qle_refl.
    - by apply Hpost. }
  pose proof (dispatchAfter_inv M agentSpeedKmph trafficFactor darkStoreLocations agents orders
                Hinputs processed (ref :: waiting) Hrefs) as Hinv.
  assert (Hfresh : ~ In ref waiting).
  { assert (Hnd : NoDup (pendingRefs orders)) by apply refsWhere_NoDup.
    rewrite Hrefs in Hnd. apply NoDup_app in Hnd as (_ & _ & Hnd).
    apply NoDup_cons in Hnd as [Hfresh _]. intros Hin. by apply Hfresh, list_elem_of_In. }
  split; [by destruct Hinv as (_ & _ & _ & _ & _ & ?)|].
  destruct (assignOrder_step M agentSpeedKmph trafficFactor darkStoreLocations agents orders
              Hinputs _ ref waiting order Hinv Hfresh Horder) as [Hstep _].
  fold customer in Hstep. fold store in Hstep. fold st in Hstep.
  destruct (dispatchAfter_stable M agentSpeedKmph trafficFactor darkStoreLocations agents
              orders Hinputs processed ref waiting) as [Horders Hagents].
  { exists []. by rewrite app_nil_r. }
  rewrite <- Hrefs in Horders, Hagents.
  rewrite dispatchAfter_snoc in Horders, Hagents. fold st in Horders, Hagents.
  unfold result.
  rewrite (assignOrdersToAgentsLogic_loop M agentSpeedKmph trafficFactor darkStoreLocations
             agents orders).
  cbn [fst snd]. rewrite Horders.
  destruct Hstep as [[Hnone Hsame]|(i & agent & Hi & Hav & Hlt & Hge & Hag & Hor)].
  - left. split; [done|]. rewrite Hsame.
    destruct Hinv as (_ & _ & _ & _ & Hwait & _). rewrite Hwait; [done|by left].
  - right. exists i, agent. split_and!; [done..| |].
    + rewrite Hor. apply list_lookup_insert_eq.
      destruct Hinv as (_ & _ & _ & _ & Hwait & _).
      eapply lookup_lt_Some. rewrite Hwait; [done|by left].
    + apply Hagents.
      * rewrite Hag. apply list_lookup_insert_eq. by eapply lookup_lt_Some.
      * done.
Qed.

Lemma dispatch_sends_fastest_available_agent_via_nearest_store_witness :
  dispatchInputs 25 1 [defaultDarkStoreLocationSim] [tiredAgent; freshAgent] [doorstepOrder]
  /\ exists order,
       [doorstepOrder] !! 0%nat = Some order
       /\ Order.status order = pending
       /\ In (bestDarkStoreFor smallAngleMath [defaultDarkStoreLocationSim]
                (Order.lat order, Order.lng order))
             [defaultDarkStoreLocationSim].
Proof.
  assert (Hinputs : dispatchInputs 25 1 [defaultDarkStoreLocationSim]
                      [tiredAgent; freshAgent] [doorstepOrder]).
  { unfold dispatchInputs. split_and!.
    - by vm_compute.
    - by vm_compute.
    - done.
    - repeat constructor; by vm_compute.
    - apply (bool_decide_unpack _). by vm_compute.
    - apply (bool_decide_unpack _). by vm_compute. }
  split; [exact Hinputs|].
  destruct (proj1 (dispatch_sends_fastest_available_agent_via_nearest_store smallAngleMath
                     25 1 [defaultDarkStoreLocationSim] [tiredAgent; freshAgent]
                     [doorstepOrder] Hinputs) [] 0%nat [] eq_refl)
    as (order & Horder & Hpending & Hstore & _).
  exists order. by split_and!.
Defined.

(** ** What a tick leaves alone *)

Lemma fmap_insert_same {A B} (f : A -> B) (l : list A) i x y :
  l !! i = Some x -> f y = f x -> f <$> <[i := y]> l = f <$> l.
Proof.
  intros Hi Hf. rewrite list_fmap_insert, Hf. apply list_insert_id.
  by rewrite list_lookup_fmap, Hi.
Qed.

Section MovementFrame.
Variable M : JsMath.
Variables (agentSpeedKmph trafficFactor currentTime : Q).
Variable darkStoreLocations : list LatLngTuple.

Local Abbreviation updateAgent :=
  (updateAgentMovement M agentSpeedKmph trafficFactor currentTime darkStoreLocations).
Local Abbreviation updateAll :=
  (forEachAgent M agentSpeedKmph trafficFactor currentTime darkStoreLocations).

Lemma moveLoop_id fuel a r : Agent.id (moveLoop M fuel a r) = Agent.id a.
Proof.
  revert a r. induction fuel as [|fuel IH]; intros a r; [done|]. simpl.
  destruct (Qgtb r 0 && negb (atEndOfRoute a)); [|done].
  destruct (Qltb _ (1 # 1000)).
  - destruct (atEndOfRoute _); [done|]. by rewrite IH.
  - destruct (Qgeb r _); by rewrite IH.
Qed.

Lemma updateAgentMovement_id a acc : Agent.id (updateAgent a acc).1 = Agent.id a.
Proof.
  unfold updateAgentMovement, handleAtStore, checkArrival, arriveAtStore, finalizeDelivery,
    resetIfInactive.
  repeat (case_decide || case_match); simpl; rewrite ?moveLoop_id; done.
Qed.

Lemma ordersMove_keys now a acc acc' :
  ordersMove now a acc acc' ->
  orderKey <$> updatedOrders acc' = orderKey <$> updatedOrders acc.
Proof.
  intros [->|i o Hi _ ->|i o Hi _ ->|i o Hi _ _ ->]; [done|..]; simpl;
    by apply (fmap_insert_same orderKey _ _ o).
Qed.

Lemma forEachAgent_frame agents acc :
  Agent.id <$> (updateAll agents acc).1 = Agent.id <$> agents
  /\ orderKey <$> updatedOrders (updateAll agents acc).2 = orderKey <$> updatedOrders acc.
Proof.
  revert acc. induction agents as [|a rest IH]; intros acc; cbn [forEachAgent]; [done|].
  pose proof (updateAgentMovement_id a acc) as Hid.
  destruct (updateAgentMovement_spec M agentSpeedKmph trafficFactor currentTime
              darkStoreLocations a acc) as (_ & Ho & _).
  apply ordersMove_keys in Ho.
  destruct (updateAgent a acc) as [a' acc']. specialize (IH acc').
  destruct (updateAll rest acc') as [rest' acc'']. cbn [fst snd] in *.
  destruct IH as [IH1 IH2]. by rewrite !fmap_cons, IH1, IH2, Hid, Ho.
Qed.

End MovementFrame.

(** ** The dispatcher *)

Lemma refsWhere_none {A} (p : A -> bool) l i :
  Forall (fun x => p x = false) l -> refsWhere p l i = [].
Proof.
  intros Hall. revert i. induction Hall as [|x l Hx _ IH]; intros i; simpl; [done|].
  by rewrite Hx.
Qed.

Lemma routeFor_length bestAgent store customer :
  length (routeFor bestAgent store customer) = 7%nat.
Proof. reflexivity. Qed.

Section DispatchFrame.
Variable M : JsMath.
Variables (agentSpeedKmph trafficFactor : Q).
Variable darkStoreLocations : list LatLngTuple.

Local Abbreviation assign1 := (assignOrder M agentSpeedKmph trafficFactor darkStoreLocations).
Local Abbreviation assignAll :=
  (assignOrdersToAgentsLogic M agentSpeedKmph trafficFactor darkStoreLocations).

(** With no pending order, or with no available agent, the dispatcher
    returns its inputs. *)
Lemma assignOrdersToAgentsLogic_noop agents orders :
  Forall (fun o => Order.status o <> pending) orders
  \/ Forall (fun a => Agent.status a <> available) agents ->
  assignAll agents orders = (agents, orders).
Proof.
  intros Hnone. unfold assignOrdersToAgentsLogic.
  destruct Hnone as [Hnone|Hnone].
  - rewrite refsWhere_none; [done|].
    eapply Forall_impl; [done|]. intros o Ho. by apply bool_decide_eq_false.
  - rewrite (refsWhere_none _ agents), orb_true_r; [done|].
    eapply Forall_impl; [done|]. intros a Ha. by apply bool_decide_eq_false.
Qed.

Lemma assignOrder_keys st orderRef :
  Agent.id <$> modifiableAgents (assign1 st orderRef) = Agent.id <$> modifiableAgents st
  /\ orderKey <$> modifiableOrders (assign1 st orderRef) = orderKey <$> modifiableOrders st.
Proof.
  unfold assignOrder. repeat case_match; simpl; try done.
  all: split; by apply fmap_alter_keep.
Qed.

(** One pending order changes at most one agent, an [available] one, which
    is sent off with the id of an order of the list and a route of seven
    waypoints. *)
Lemma assignOrder_agent st orderRef i a :
  modifiableAgents st !! i = Some a ->
  modifiableAgents (assign1 st orderRef) !! i = Some a
  \/ (Agent.status a = available
      /\ exists orderId route,
           orderId ∈ Order.id <$> modifiableOrders st
           /\ length route = 7%nat
           /\ modifiableAgents (assign1 st orderRef) !! i
              = Some (dispatchAgent orderId route a)).
Proof.
  intros Hi.
  destruct (modifiableOrders st !! orderRef) as [order|] eqn:Horder;
    [|left; unfold assignOrder; by rewrite Horder].
  destruct (bestAgentFor M agentSpeedKmph trafficFactor (modifiableAgents st)
              (availableAgents st)
              (bestDarkStoreFor M darkStoreLocations (Order.lat order, Order.lng order))
              (Order.lat order, Order.lng order)).2 as [bestRef|] eqn:Hbest;
    [|left; unfold assignOrder; by rewrite Horder, Hbest].
  destruct (modifiableAgents st !! bestRef) as [bestAgent|] eqn:Hagent;
    [|left; unfold assignOrder; by rewrite Horder, Hbest, Hagent].
  destruct (assignOrder_dispatches M agentSpeedKmph trafficFactor darkStoreLocations st
              orderRef order bestRef bestAgent Horder Hbest Hagent)
    as (agentIndex & a0 & Hfind & Hav & Hres).
  destruct (decide (i = agentIndex)) as [->|Hne].
  - right. apply list_find_Some in Hfind as (Hlook & _).
    rewrite Hi in Hlook. injection Hlook as <-.
    split; [done|]. eexists _, _. split_and!; [|apply routeFor_length|done].
    apply list_elem_of_fmap. exists order. split; [done|]. by eapply list_elem_of_lookup_2.
  - left. unfold assignOrder. rewrite Horder, Hbest, Hagent, Hfind.
    destruct (findOrder _ _) as [[orderIndex o]|]; [|done]. simpl.
    by rewrite list_lookup_alter_ne.
Qed.

(** A pass of the dispatcher leaves every agent that was not [available]
    as it was, and changes an [available] agent at most once. *)
Lemma assignOrdersToAgentsLogic_agent agents orders i a :
  agents !! i = Some a ->
  (assignAll agents orders).1 !! i = Some a
  \/ (Agent.status a = available
      /\ exists orderId route,
           orderId ∈ Order.id <$> orders
           /\ length route = 7%nat
           /\ (assignAll agents orders).1 !! i = Some (dispatchAgent orderId route a)).
Proof.
  intros Hi. unfold assignOrdersToAgentsLogic.
  destruct (_ || _); [by left|]. cbn [fst].
  match goal with |- context [List.fold_left _ ?refs ?st0] =>
    generalize refs;
    assert (Hst : (modifiableAgents st0 !! i = Some a
                   \/ (Agent.status a = available
                       /\ exists orderId route,
                            orderId ∈ Order.id <$> orders /\ length route = 7%nat
                            /\ modifiableAgents st0 !! i = Some (dispatchAgent orderId route a)))
                  /\ orderKey <$> modifiableOrders st0 = orderKey <$> orders)
      by (split; [by left|done]);
    revert Hst; generalize st0
  end.
  intros st Hst refs. revert st Hst.
  induction refs as [|ref refs IH]; intros st [Hagent Hkeys]; simpl; [done|].
  apply IH. split; [|by rewrite (proj2 (assignOrder_keys st ref))].
  assert (Hids : Order.id <$> modifiableOrders st = Order.id <$> orders).
  { apply (f_equal (fmap (fun k : string * Q * Q * Q => k.1.1.1))) in Hkeys.
    by rewrite <- !list_fmap_compose in Hkeys. }
  destruct Hagent as [Hsame|(Hav & orderId & route & Hin & Hlen & Hsent)].
  - destruct (assignOrder_agent st ref i a Hsame)
      as [?|(Hav & orderId & route & Hin & Hlen & Hsent)]; [by left|].
    right. split; [done|]. exists orderId, route. by rewrite <- Hids.
  - destruct (assignOrder_agent st ref i _ Hsent) as [?|(Hav' & _)]; [|done].
    right. split; [done|]. by exists orderId, route.
Qed.

Lemma assignOrdersToAgentsLogic_keys agents orders :
  Agent.id <$> (assignAll agents orders).1 = Agent.id <$> agents
  /\ orderKey <$> (assignAll agents orders).2 = orderKey <$> orders.
Proof.
  unfold assignOrdersToAgentsLogic. destruct (_ || _); [done|]. cbn [fst snd].
  match goal with |- context [List.fold_left _ ?refs ?st0] =>
    generalize refs;
    assert (Hst : Agent.id <$> modifiableAgents st0 = Agent.id <$> agents
                  /\ orderKey <$> modifiableOrders st0 = orderKey <$> orders) by done;
    revert Hst; generalize st0
  end.
  intros st Hst refs. revert st Hst.
  induction refs as [|ref refs IH]; intros st [Ha Ho]; simpl; [done|].
  apply IH. destruct (assignOrder_keys st ref) as [-> ->]. done.
Qed.

End DispatchFrame.

(** ** The demand generator of the full simulation *)

Section DemandCounters.
Variable M : JsMath.
Variable generateUniqueId : string -> Gen string.
Variable now : Q.
Variable darkStoreLocations : list LatLngTuple.

Local Abbreviation genZone := (generateForZone M generateUniqueId now darkStoreLocations).
Local Abbreviation genZones := (forEachZone M generateUniqueId now darkStoreLocations).
Local Abbreviation genOrders := (generateOrdersLogic M generateUniqueId now darkStoreLocations).

Lemma pushOrder_counted base acc coords rnd k :
  genCounted base acc ->
  genCounted base (pushOrder generateUniqueId now (countOrder acc) coords rnd k).1.
Proof.
  intros [Hc Hi]. unfold pushOrder, gbind, gret.
  destruct (generateUniqueId _ rnd k) as [id k']. unfold genCounted. simpl.
  rewrite length_app, Hc, Hi. simpl. lia.
Qed.

Lemma generateForZone_counted base acc zone rnd k :
  genCounted base acc -> genCounted base (genZone acc zone rnd k).1.
Proof.
  intros Hacc. unfold generateForZone.
  destruct (_ && _); [|done]. unfold gbind, Math_random, gret.
  destruct (Qltb _ _); [|done].
  destruct (placeOrder _ _ _ _ _) as [coords k']. by apply pushOrder_counted.
Qed.

Lemma forEachZone_counted base zones acc rnd k :
  genCounted base acc ->
  genCounted base (genZones zones acc rnd k).1
  /\ (length (newOrders (genZones zones acc rnd k).1)
      <= length (newOrders acc) + length zones)%nat.
Proof.
  revert acc k. induction zones as [|zone rest IH]; intros acc k Hacc; simpl.
  - split; [done|lia].
  - unfold gbind.
    pose proof (generateForZone_counted base acc zone rnd k Hacc) as Hz.
    pose proof (generateForZone_at_most_one M generateUniqueId now darkStoreLocations
                  acc zone rnd k) as Hone.
    destruct (genZone acc zone rnd k) as [acc' k']. simpl in *.
    destruct (IH acc' k' Hz) as [Hc Hlen]. split; [done|lia].
Qed.

(** The order counter and the generated-orders increment both advance by the
    number of orders created.  A built-in profile creates at most one order
    per tick, a custom profile at most one per zone, and a profile id that
    names no profile creates none. *)
Lemma generateOrdersLogic_counts counter profileId profiles rnd k :
  genCounted counter (genOrders counter profileId profiles rnd k).1
  /\ (profileId = "default_uniform_ccr"%string \/ profileId = "default_focused_ccr"%string ->
      (length (newOrders (genOrders counter profileId profiles rnd k).1) <= 1)%nat)
  /\ (profileId <> "default_uniform_ccr"%string ->
      profileId <> "default_focused_ccr"%string ->
      match List.find (fun p => bool_decide (CustomDemandProfile.id p = profileId)) profiles with
      | Some profile =>
          (length (newOrders (genOrders counter profileId profiles rnd k).1)
           <= length (CustomDemandProfile.zones profile))%nat
      | None => newOrders (genOrders counter profileId profiles rnd k).1 = []
      end).
Proof.
  unfold generateOrdersLogic.
  set (acc0 := {| newOrders := []; updatedOrderIdCounter := counter;
                  totalGeneratedIncrement := 0 |}).
  assert (Hacc0 : genCounted counter acc0) by (split; simpl; lia).
  destruct (bool_decide (profileId = "default_uniform_ccr"%string)
            || bool_decide (profileId = "default_focused_ccr"%string)) eqn:Hdefault.
  - unfold gbind, Math_random, gret.
    destruct (Qltb _ _).
    + match goal with |- context [let '(_, _) := ?m in _] => destruct m as [coords k'] end.
      pose proof (pushOrder_counted counter acc0 coords rnd k' Hacc0) as Hc.
      split_and!; [done| |].
      * intros _. destruct Hc as [_ Hinc]. simpl in *.
        unfold pushOrder, gbind, gret in *.
        destruct (generateUniqueId _ rnd k') as [id k'']. simpl. lia.
      * intros H1 H2. apply orb_true_iff in Hdefault as [H|H];
          apply bool_decide_eq_true in H; done.
    + split_and!; [done|simpl; lia|].
      intros H1 H2. apply orb_true_iff in Hdefault as [H|H];
        apply bool_decide_eq_true in H; done.
  - apply orb_false_iff in Hdefault as [H1 H2].
    apply bool_decide_eq_false in H1, H2.
    destruct (List.find _ profiles) as [profile|].
    + destruct (forEachZone_counted counter (CustomDemandProfile.zones profile) acc0 rnd k Hacc0)
        as [Hc Hlen].
      split_and!; [done|by intros [?|?]|]. intros _ _. simpl in Hlen. lia.
    + split_and!; [done|by intros [?|?]|done].
Qed.

End DemandCounters.

(** ** What a tick keeps and what it counts *)

Lemma updateAgentFatigue_id a : Agent.id (updateAgentFatigue a) = Agent.id a.
Proof. unfold updateAgentFatigue. repeat (case_decide || case_match); done. Qed.

Section TickFrame.
Variable M : JsMath.
Variable generateUniqueId : string -> Gen string.

Local Abbreviation tick := (runSimulationStep M generateUniqueId).

(** A tick keeps the agents (their number and ids, in order), keeps every
    order at its index with its id, position and placement time, appends
    the new orders, and keeps the dark stores.  A paused state is returned
    as it is. *)
Lemma runSimulationStep_frame simParams profiles s rnd k :
  (SimulationState.isRunning s = false -> tick simParams profiles s rnd k = (s, k))
  /\ Agent.id <$> SimulationState.agents (tick simParams profiles s rnd k).1
     = Agent.id <$> SimulationState.agents s
  /\ (exists created,
        orderKey <$> SimulationState.orders (tick simParams profiles s rnd k).1
        = (orderKey <$> SimulationState.orders s) ++ created)
  /\ SimulationState.darkStoreLocations (tick simParams profiles s rnd k).1
     = SimulationState.darkStoreLocations s.
Proof.
  unfold runSimulationStep.
  destruct (SimulationState.isRunning s); simpl;
    [|split_and!; [done|done|by exists []; rewrite app_nil_r|done]].
  split; [done|]. unfold gbind.
  match goal with |- context [let '(_, _) := ?m rnd k in _] =>
    destruct (m rnd k) as [traffic k1] end.
  match goal with |- context [generateOrdersLogic ?a ?b ?c ?d ?e ?f ?g rnd k1] =>
    destruct (generateOrdersLogic a b c d e f g rnd k1) as [generated k2]
  end.
  match goal with |- context [assignOrdersToAgentsLogic ?a ?b ?c ?d ?e ?f] =>
    destruct (assignOrdersToAgentsLogic_keys a b c d e f) as [Hids2 Hkeys2];
    destruct (assignOrdersToAgentsLogic a b c d e f) as [agents2 orders2]
  end.
  unfold updateAgentsMovementAndStatusLogic.
  match goal with |- context [forEachAgent ?a ?b ?c ?d ?e ?f ?g] =>
    destruct (forEachAgent_frame a b c d e f g) as [Hids3 Hkeys3];
    destruct (forEachAgent a b c d e f g) as [agents3 moved]
  end.
  cbn [fst snd updatedOrders] in *. cbn.
  split_and!; [|eexists|done].
  - unfold updateAgentFatigueLogic.
    rewrite <- Hids2, <- Hids3.
    clear. induction agents3 as [|a l IH]; [done|].
    cbn [List.map]. by rewrite !fmap_cons, IH, updateAgentFatigue_id.
  - by rewrite Hkeys3, Hkeys2, fmap_app.
Qed.

Lemma runSimulationStep_books simParams profiles s rnd k :
  booksOk s -> booksOk (tick simParams profiles s rnd k).1.
Proof.
  intros (Hgen & Hctr & Htime).
  destruct (runSimulationStep_frame simParams profiles s rnd k) as (_ & _ & Horders & _).
  revert Horders. unfold runSimulationStep.
  destruct (SimulationState.isRunning s); simpl; [|done].
  unfold gbind.
  match goal with |- context [let '(_, _) := ?m rnd k in _] =>
    destruct (m rnd k) as [traffic k1] end.
  match goal with |- context [generateOrdersLogic ?a ?b ?c ?d ?e ?f ?g rnd k1] =>
    destruct (generateOrdersLogic_counts a b c d e f g rnd k1) as ([Hc Hi] & _);
    destruct (generateOrdersLogic a b c d e f g rnd k1) as [generated k2]
  end.
  match goal with |- context [assignOrdersToAgentsLogic ?a ?b ?c ?d ?e ?f] =>
    destruct (assignOrdersToAgentsLogic_keys a b c d e f) as [_ Hkeys2];
    destruct (assignOrdersToAgentsLogic a b c d e f) as [agents2 orders2]
  end.
  unfold updateAgentsMovementAndStatusLogic.
  match goal with |- context [forEachAgent ?a ?b ?c ?d ?e ?f ?g] =>
    destruct (forEachAgent_frame a b c d e f g) as [_ Hkeys3];
    destruct (forEachAgent a b c d e f g) as [agents3 moved]
  end.
  cbn [fst snd updatedOrders] in *. intros _. unfold booksOk. cbn.
  assert (Hlen : length (updatedOrders moved)
                 = (length (SimulationState.orders s) + length (newOrders generated))%nat).
  { apply (f_equal length) in Hkeys3, Hkeys2.
    rewrite !length_fmap in Hkeys3, Hkeys2. by rewrite Hkeys3, Hkeys2, length_app. }
  rewrite Hlen, Hgen, Hi, Hc, Hctr. split_and!; [lia..|].
  unfold MINUTES_PER_SIMULATION_STEP. lra.
Qed.

Lemma reachable_books s : reachable M generateUniqueId s -> booksOk s.
Proof.
  induction 1 as [numAgents stores rnd k| |s _ IH|s _ IH]; [|by apply runSimulationStep_books|done..].
  unfold initialSimState, gbind, gret.
  destruct (createAgents _ _ _ _ _) as [agents k']. by split_and!.
Qed.

End TickFrame.

(** ** Sampling, once more *)

(** Whatever the stream, a point other than the default dark store that
    [getRandomPointInCcr] returns has a first component of at least 76.65:
    it lies far north of the region, whose latitudes end at 30.85. *)
Lemma getRandomPointInCcr_default_or_north rnd k :
  (getRandomPointInCcr rnd k).1 = defaultDarkStoreLocationSim
  \/ 7665 # 100 <= (getRandomPointInCcr rnd k).1.1.
Proof.
  destruct (proj1 (getRandomPointInCcr_result rnd k)) as [?|Hin]; [by left|right].
  destruct (Qlt_le_dec (getRandomPointInCcr rnd k).1.1 (7665 # 100)) as [Hlt|?]; [|done].
  apply isPointInPolygon_ccrRing_false in Hlt. congruence.
Qed.

(** The same holds for [getRandomPointNearHotspot], for every runtime. *)
Lemma getRandomPointNearHotspot_default_or_north M center radiusKm rnd k :
  (getRandomPointNearHotspot M center radiusKm rnd k).1 = defaultDarkStoreLocationSim
  \/ 7665 # 100 <= (getRandomPointNearHotspot M center radiusKm rnd k).1.1.
Proof.
  unfold getRandomPointNearHotspot, gbind, Math_random, gret.
  destruct (isPointInPolygon _ ccrRing) eqn:Hin; simpl.
  - right.
    match goal with |- _ <= ?lat =>
      destruct (Qlt_le_dec lat (7665 # 100)) as [Hlt|?]; [|done] end.
    match type of Hin with isPointInPolygon ?p _ = _ =>
      pose proof (isPointInPolygon_ccrRing_false p Hlt) end. congruence.
  - apply getRandomPointInCcr_default_or_north.
Qed.

(** ** Routes *)

Lemma generateWaypoints_shape startLatLng endLatLng n :
  length (generateWaypoints startLatLng endLatLng n) = (n + 2)%nat
  /\ List.hd (LatLng.mk 0 0) (generateWaypoints startLatLng endLatLng n)
     = LatLng.mk startLatLng.1 startLatLng.2
  /\ List.last (generateWaypoints startLatLng endLatLng n) (LatLng.mk 0 0)
     = LatLng.mk endLatLng.1 endLatLng.2.
Proof.
  unfold generateWaypoints. split_and!.
  - simpl. rewrite length_app, length_map, length_seq. simpl. lia.
  - done.
  - change (?x :: ?l ++ [?y]) with ((x :: l) ++ [y]). apply last_last.
Qed.

Section LoopBounds.
Variable M : JsMath.

(** The movement loop never steps back, never runs past the last waypoint
    and keeps the progress on the current leg within [0, 1). *)
Lemma moveLoop_bounds fuel a r :
  let a' := moveLoop M fuel a r in
  (Agent.currentLegIndex a <= Agent.currentLegIndex a')%nat
  /\ ((Agent.currentLegIndex a <= length (Agent.routePath a) - 1)%nat ->
      (Agent.currentLegIndex a' <= length (Agent.routePath a) - 1)%nat)
  /\ (0 <= Agent.legProgress a /\ Agent.legProgress a < 1 ->
      0 <= Agent.legProgress a' /\ Agent.legProgress a' < 1).
Proof.
  revert a r. induction fuel as [|fuel IH]; intros a r; [done|].
  cbv zeta. rewrite moveLoop_S. cbv zeta.
  destruct (Qgtb r 0 && negb (atEndOfRoute a)) eqn:Hcond; [|done].
  apply andb_true_iff in Hcond as [Hr Hend].
  apply Qgtb_gt in Hr. apply negb_true_iff in Hend.
  unfold atEndOfRoute in Hend. rewrite Z.geb_leb in Hend. apply Z.leb_gt in Hend.
  destruct (Qltb _ (1 # 1000)) eqn:Hnear.
  - destruct (atEndOfRoute _) eqn:Hend'.
    + simpl. split_and!; [lia|lia|intros _; lra].
    + match goal with |- context [moveLoop M fuel ?b ?q] =>
        destruct (IH b q) as (H1 & H2 & H3) end.
      simpl in *. split_and!; [lia|intros _; apply H2; lia|intros _; apply H3; lra].
  - apply Qltb_ge in Hnear.
    destruct (Qgeb r _) eqn:Hfull.
    + match goal with |- context [moveLoop M fuel ?b ?q] =>
        destruct (IH b q) as (H1 & H2 & H3) end.
      simpl in *. split_and!; [lia|intros _; apply H2; lia|intros _; apply H3; lra].
    + rewrite moveLoop_zero. simpl. split_and!; [lia|done|].
      intros [Hlo Hhi].
      match type of Hnear with _ <= ?leg => set (L := leg) in * end.
      unfold Qgeb in Hfull. apply Qleb_gt in Hfull.
      assert (HL : 0 < L) by lra.
      assert (Hq : r / L < 1 - Agent.legProgress a).
      { apply Qlt_shift_div_r; [done|]. rewrite Qmult_comm. done. }
      assert (Hq0 : 0 <= r / L).
      { apply Qle_shift_div_l; [done|]. lra. }
      lra.
Qed.

End LoopBounds.

(** ** Where the orders of the full simulation land *)

Section OrderLocations.
Variable M : JsMath.
Variable generateUniqueId : string -> Gen string.
Variable now : Q.
Variable darkStoreLocations : list LatLngTuple.
Variable rnd : nat -> Q.
Hypothesis rnd_range : forall n, 0 <= rnd n /\ rnd n <= 1.

Local Abbreviation atDefaultStore :=
  (fun o : Order.t => (Order.lat o, Order.lng o) = defaultDarkStoreLocationSim).

Lemma pushOrder_location acc coords k :
  coords = defaultDarkStoreLocationSim ->
  Forall atDefaultStore (newOrders acc) ->
  Forall atDefaultStore (newOrders (pushOrder generateUniqueId now acc coords rnd k).1).
Proof.
  intros -> Hacc. unfold pushOrder, gbind, gret.
  destruct (generateUniqueId _ rnd k) as [id k']. simpl.
  apply Forall_app. split; [done|]. by repeat constructor.
Qed.

Lemma generateForZone_uniform_location acc zone k :
  DemandZone.shape zone = uniform_ccr ->
  Forall atDefaultStore (newOrders acc) ->
  Forall atDefaultStore
    (newOrders (generateForZone M generateUniqueId now darkStoreLocations acc zone rnd k).1).
Proof.
  intros Hshape Hacc. unfold generateForZone.
  destruct (_ && _); [|done]. unfold gbind, Math_random, gret.
  destruct (Qltb _ _); [|done].
  unfold placeOrder, gbind, Math_random. rewrite Hshape.
  rewrite getRandomPointInCcr_always_falls_back by done.
  by apply pushOrder_location.
Qed.

Lemma forEachZone_uniform_location zones acc k :
  Forall (fun zone => DemandZone.shape zone = uniform_ccr) zones ->
  Forall atDefaultStore (newOrders acc) ->
  Forall atDefaultStore
    (newOrders (forEachZone M generateUniqueId now darkStoreLocations zones acc rnd k).1).
Proof.
  intros Hzones. revert acc k.
  induction Hzones as [|zone rest Hz _ IH]; intros acc k Hacc; simpl; [done|].
  unfold gbind.
  pose proof (generateForZone_uniform_location acc zone k Hz Hacc) as H.
  destruct (generateForZone _ _ _ _ _ _ _ _) as [acc' k']. by apply IH.
Qed.

(** Under the built-in uniform profile, and under a custom profile made of
    uniform zones, every order of the full simulation is placed on the
    default dark store: the region sampler never accepts a sample. *)
Lemma generateOrdersLogic_uniform_location counter profileId profiles k :
  profileId = "default_uniform_ccr"%string
  \/ (profileId <> "default_focused_ccr"%string
      /\ forall profile,
           List.find (fun p => bool_decide (CustomDemandProfile.id p = profileId)) profiles
           = Some profile ->
           Forall (fun zone => DemandZone.shape zone = uniform_ccr)
             (CustomDemandProfile.zones profile)) ->
  Forall atDefaultStore
    (newOrders (generateOrdersLogic M generateUniqueId now darkStoreLocations
                  counter profileId profiles rnd k).1).
Proof.
  intros Hprofile. unfold generateOrdersLogic.
  destruct (decide (profileId = "default_uniform_ccr"%string)) as [->|Hne].
  - simpl. unfold gbind, Math_random, gret.
    destruct (Qltb _ _); [|by constructor].
    rewrite getRandomPointInCcr_always_falls_back by done.
    apply pushOrder_location; [done|by constructor].
  - destruct Hprofile as [?|[Hnf Hzones]]; [done|].
    rewrite (bool_decide_eq_false_2 _ Hne), (bool_decide_eq_false_2 _ Hnf). simpl.
    destruct (List.find _ profiles) as [profile|] eqn:Hfind; [|by constructor].
    apply forEachZone_uniform_location; [by apply Hzones|by constructor].
Qed.

End OrderLocations.

(** ** The time accounts of the agents and the utilization *)

Section TimeAccounts.
Variable M : JsMath.
Variables (agentSpeedKmph trafficFactor currentTime : Q).
Variable darkStoreLocations : list LatLngTuple.

Local Abbreviation loop := (moveLoop M).
Local Abbreviation updateAgent :=
  (updateAgentMovement M agentSpeedKmph trafficFactor currentTime darkStoreLocations).
Local Abbreviation updateAll :=
  (forEachAgent M agentSpeedKmph trafficFactor currentTime darkStoreLocations).

Lemma moveLoop_times fuel a r :
  Agent.timeSpentDelivering (loop fuel a r) = Agent.timeSpentDelivering a
  /\ Agent.timeSpentAtStore (loop fuel a r) = Agent.timeSpentAtStore a.
Proof.
  revert a r. induction fuel as [|fuel IH]; intros a r; [done|]. simpl.
  destruct (Qgtb r 0 && negb (atEndOfRoute a)); [|done].
  destruct (Qltb _ (1 # 1000)).
  - destruct (atEndOfRoute _); [done|].
    match goal with |- context [loop fuel ?b ?q] => destruct (IH b q) as [-> ->] end. done.
  - destruct (Qgeb r _);
      match goal with |- context [loop fuel ?b ?q] => destruct (IH b q) as [-> ->] end; done.
Qed.

(** One pass charges at most one step of five minutes to an agent, to
    exactly one of its two accounts, and never takes time back. *)
Lemma updateAgentMovement_times a acc :
  let a' := (updateAgent a acc).1 in
  (Agent.timeSpentDelivering a' == Agent.timeSpentDelivering a
   /\ Agent.timeSpentAtStore a' == Agent.timeSpentAtStore a)
  \/ (Agent.timeSpentDelivering a' == Agent.timeSpentDelivering a + 5
      /\ Agent.timeSpentAtStore a' == Agent.timeSpentAtStore a
      /\ (Agent.status a = to_store \/ Agent.status a = to_customer \/ Agent.status a = busy))
  \/ (Agent.timeSpentDelivering a' == Agent.timeSpentDelivering a
      /\ Agent.timeSpentAtStore a' == Agent.timeSpentAtStore a + 5
      /\ Agent.status a = at_store).
Proof.
  cbv zeta. unfold updateAgentMovement.
  case_decide as Hav; simpl; [by left|].
  case_decide as Hat; simpl in Hat.
  { right; right. unfold handleAtStore. simpl.
    destruct (Qgeb _ _); [destruct (findOrder _ _) as [[??]|]|]; simpl;
      by split_and!. }
  assert (Hst : Agent.status a = to_store \/ Agent.status a = to_customer
                \/ Agent.status a = busy) by (destruct (Agent.status a); tauto).
  destruct (_ || _); [by left|].
  right; left.
  destruct (Qleb _ _); simpl; [by split_and!|].
  unfold checkArrival, arriveAtStore, finalizeDelivery, resetIfInactive.
  match goal with |- context [loop ?f ?b ?r] =>
    destruct (moveLoop_times f b r) as [Hd Hs]; revert Hd Hs;
    generalize (loop f b r) end.
  intros a2 Hd Hs. simpl in Hd, Hs.
  repeat case_match; simpl; rewrite ?Hd, ?Hs; by split_and!.
Qed.

Lemma updateAgentMovement_timesOk a acc :
  timesOk (currentTime - 5) a -> timesOk currentTime (updateAgent a acc).1.
Proof.
  intros (H1 & H2 & H3). unfold timesOk.
  destruct (updateAgentMovement_times a acc) as [[Hd Hs]|[(Hd & Hs & _)|(Hd & Hs & _)]];
    rewrite Hd, Hs; split_and!; lra.
Qed.

Lemma forEachAgent_pointwise (P P' : Agent.t -> Prop) agents acc :
  (forall a acc, P a -> P' (updateAgent a acc).1) ->
  Forall P agents -> Forall P' (updateAll agents acc).1.
Proof.
  intros HP Hall. revert acc.
  induction Hall as [|a rest Ha _ IH]; intros acc; simpl; [done|].
  pose proof (HP a acc Ha) as Ha'.
  destruct (updateAgent a acc) as [a' acc']. specialize (IH acc').
  destruct (updateAll rest acc') as [rest' acc'']. simpl in *.
  by constructor.
Qed.

End TimeAccounts.

Lemma updateAgentFatigue_times a :
  Agent.timeSpentDelivering (updateAgentFatigue a) = Agent.timeSpentDelivering a
  /\ Agent.timeSpentAtStore (updateAgentFatigue a) = Agent.timeSpentAtStore a.
Proof. unfold updateAgentFatigue. by repeat case_match. Qed.

Lemma totalActualActiveTime_bounds now agents :
  Forall (timesOk now) agents ->
  0 <= totalActualActiveTime agents
  /\ totalActualActiveTime agents <= inject_Z (Z.of_nat (length agents)) * now.
Proof.
  unfold totalActualActiveTime. intros Hall.
  assert (H : forall s0,
    s0 <= List.fold_left
            (fun sum agent =>
               sum + (Agent.timeSpentDelivering agent + Agent.timeSpentAtStore agent)) agents s0
    /\ List.fold_left
         (fun sum agent =>
            sum + (Agent.timeSpentDelivering agent + Agent.timeSpentAtStore agent)) agents s0
       <= s0 + inject_Z (Z.of_nat (length agents)) * now).
  { induction Hall as [|a rest (H1 & H2 & H3) _ IH]; intros s0.
    - cbn [List.fold_left length]. change (inject_Z (Z.of_nat 0)) with 0. lra.
    - cbn [List.fold_left length]. rewrite Nat2Z.inj_succ, <- Z.add_1_r, inject_Z_plus.
      destruct (IH (s0 + (Agent.timeSpentDelivering a + Agent.timeSpentAtStore a))) as [IH1 IH2].
      change (inject_Z 1) with 1. split; [lra|].
      eapply Qle_trans; [exact IH2|]. lra. }
  destruct (H 0) as [Ha Hb]. split; [done|]. eapply Qle_trans; [exact Hb|]. lra.
Qed.

Section Utilization.
Variable M : JsMath.
Variable generateUniqueId : string -> Gen string.

Local Abbreviation tick := (runSimulationStep M generateUniqueId).

(** A property of agents that dispatch, movement and the fatigue update
    carry along is carried along by a tick of a running simulation. *)
Lemma runSimulationStep_agents (P P' P'' : Agent.t -> Prop) simParams profiles s rnd k :
  SimulationState.isRunning s = true ->
  (forall a orderId route, route <> [] -> P a -> P (dispatchAgent orderId route a)) ->
  (forall speed traffic stores a acc,
     P a ->
     P' (updateAgentMovement M speed traffic
           (SimulationState.currentSimulationTime s + MINUTES_PER_SIMULATION_STEP)
           stores a acc).1) ->
  (forall a, P' a -> P'' (updateAgentFatigue a)) ->
  Forall P (SimulationState.agents s) ->
  Forall P'' (SimulationState.agents (tick simParams profiles s rnd k).1).
Proof.
  intros Hrun Hdispatch Hmove Hfatigue Hagents. unfold runSimulationStep.
  rewrite Hrun. simpl. unfold gbind.
  match goal with |- context [let '(_, _) := ?m rnd k in _] =>
    destruct (m rnd k) as [traffic k1] end.
  match goal with |- context [generateOrdersLogic ?a ?b ?c ?d ?e ?f ?g rnd k1] =>
    destruct (generateOrdersLogic a b c d e f g rnd k1) as [generated k2]
  end.
  match goal with |- context [assignOrdersToAgentsLogic ?a ?b ?c ?d ?e ?f] =>
    destruct (assignOrdersToAgentsLogic_Forall a b c d P (fun _ => True) e f)
      as [Hagents2 _];
    [ done | done | done | by apply Forall_true | ];
    destruct (assignOrdersToAgentsLogic a b c d e f) as [agents2 orders2]
  end.
  simpl in Hagents2.
  unfold updateAgentsMovementAndStatusLogic.
  match goal with |- context [forEachAgent ?a ?b ?c ?d ?e ?f ?g] =>
    pose proof (forEachAgent_pointwise a b c d e P P' f g (Hmove b c e) Hagents2) as Hagents3;
    destruct (forEachAgent a b c d e f g) as [agents3 moved]
  end.
  simpl in *. unfold updateAgentFatigueLogic.
  apply Forall_forall. intros a' Hin.
  apply list_elem_of_In, in_map_iff in Hin as (a & <- & Hin).
  apply Hfatigue. rewrite Forall_forall in Hagents3.
  by apply Hagents3, list_elem_of_In.
Qed.

Lemma runSimulationStep_timesOk simParams profiles s rnd k :
  Forall (timesOk (SimulationState.currentSimulationTime s)) (SimulationState.agents s) ->
  Forall (timesOk (SimulationState.currentSimulationTime (tick simParams profiles s rnd k).1))
    (SimulationState.agents (tick simParams profiles s rnd k).1).
Proof.
  intros Hagents.
  destruct (SimulationState.isRunning s) eqn:Hrun.
  - assert (Hnow : SimulationState.currentSimulationTime (tick simParams profiles s rnd k).1
                   = SimulationState.currentSimulationTime s + MINUTES_PER_SIMULATION_STEP).
    { unfold runSimulationStep. rewrite Hrun. simpl. unfold gbind.
      repeat match goal with |- context [let '(_, _) := ?m in _] => destruct m end. done. }
    rewrite Hnow.
    apply (runSimulationStep_agents
             (timesOk (SimulationState.currentSimulationTime s))
             (timesOk (SimulationState.currentSimulationTime s + MINUTES_PER_SIMULATION_STEP))
             (timesOk (SimulationState.currentSimulationTime s + MINUTES_PER_SIMULATION_STEP)));
      [done|done| | |done].
    + intros speed traffic stores a acc (H1 & H2 & H3).
      apply updateAgentMovement_timesOk. unfold timesOk, MINUTES_PER_SIMULATION_STEP.
      split_and!; [done..|lra].
    + intros a. unfold timesOk. by destruct (updateAgentFatigue_times a) as [-> ->].
  - unfold runSimulationStep. by rewrite Hrun.
Qed.

Lemma createAgents_timesOk i n rnd k :
  Forall (timesOk 0) (createAgents generateUniqueId i n rnd k).1.
Proof.
  revert i k. induction n as [|n IH]; intros i k; simpl; [by constructor|].
  unfold gbind, Math_random, gret.
  destruct (generateUniqueId _ rnd k) as [id k'].
  specialize (IH (S i) (S (S k'))).
  destruct (createAgents _ _ _ _ _) as [rest k'']. simpl in *.
  constructor; [|done]. unfold timesOk. simpl. lra.
Qed.

Lemma reachable_timesOk s :
  reachable M generateUniqueId s ->
  Forall (timesOk (SimulationState.currentSimulationTime s)) (SimulationState.agents s).
Proof.
  induction 1 as [numAgents stores rnd k| |s _ IH|s _ IH];
    [|by apply runSimulationStep_timesOk|done..].
  unfold initialSimState, gbind, gret.
  pose proof (createAgents_timesOk 0 numAgents rnd k) as H.
  by destruct (createAgents _ _ _ _ _) as [agents k'].
Qed.

(** In every state a run can reach, the time an agent has been charged for
    travelling and for handling is at most the simulated time, so the
    utilization is a percentage: it lies between 0 and 100. *)
Lemma agentUtilization_percentage s :
  reachable M generateUniqueId s ->
  0 <= agentUtilization s /\ agentUtilization s <= 100.
Proof.
  intros Hreach. unfold agentUtilization. cbv zeta.
  destruct (totalActualActiveTime_bounds _ _ (reachable_timesOk s Hreach)) as [H0 H1].
  destruct (Qgtb _ 0) eqn:Hpos; [|lra].
  apply Qgtb_gt in Hpos.
  set (possible := inject_Z _ * _) in *.
  set (actual := totalActualActiveTime _) in *.
  assert (0 <= actual / possible /\ actual / possible <= 1) as [Hq0 Hq1].
  { split.
    - apply Qle_shift_div_l; [done|lra].
    - apply Qle_shift_div_r; [done|lra]. }
  split; nra.
Qed.

End Utilization.

(** ** An agent never gets rid of its order *)

Lemma orderKey_ids (l1 l2 : list Order.t) :
  orderKey <$> l1 = orderKey <$> l2 -> Order.id <$> l1 = Order.id <$> l2.
Proof.
  intros Hkeys.
  apply (f_equal (fmap (fun k : string * Q * Q * Q => k.1.1.1))) in Hkeys.
  by rewrite <- !list_fmap_compose in Hkeys.
Qed.

Lemma findOrder_known orders orderId :
  orderId ∈ Order.id <$> orders -> findOrder orders (Some orderId) <> None.
Proof.
  intros Hin Hnone. simpl in Hnone. apply list_find_None in Hnone.
  apply list_elem_of_fmap in Hin as (o & -> & Ho).
  rewrite Forall_forall in Hnone. by apply (Hnone o).
Qed.

Lemma map_lookup {A B} (f : A -> B) (l : list A) i x :
  l !! i = Some x -> List.map f l !! i = Some (f x).
Proof.
  revert i. induction l as [|y l IH]; intros [|i] Hi; simpl in *; try done.
  - by injection Hi as ->.
  - by apply IH.
Qed.

Section Engagement.
Variable M : JsMath.
Variables (agentSpeedKmph trafficFactor currentTime : Q).
Variable darkStoreLocations : list LatLngTuple.

Local Abbreviation updateAgent :=
  (updateAgentMovement M agentSpeedKmph trafficFactor currentTime darkStoreLocations).
Local Abbreviation updateAll :=
  (forEachAgent M agentSpeedKmph trafficFactor currentTime darkStoreLocations).

(** The movement engine releases an agent in two places only: when its
    order is not found, and on delivery.  An agent whose order exists and
    that is [parked] passes neither. *)
Lemma updateAgentMovement_keeps a acc orderId :
  Agent.status a <> available -> parked a ->
  Agent.currentOrder a = Some orderId ->
  orderId ∈ Order.id <$> updatedOrders acc ->
  Agent.status (updateAgent a acc).1 <> available
  /\ Agent.currentOrder (updateAgent a acc).1 = Some orderId.
Proof.
  intros Hna Hp Hcur Hin. pose proof (findOrder_known _ _ Hin) as Hfound.
  unfold updateAgentMovement. case_decide; [done|].
  case_decide as Hat; simpl in Hat.
  { unfold handleAtStore. simpl. rewrite Hcur. destruct (Qgeb _ _); [|done].
    by destruct (findOrder _ _) as [[??]|]. }
  destruct (_ || _) eqn:Hguard; [done|].
  apply orb_false_iff in Hguard as [_ Hend].
  destruct (Qleb _ _); [done|].
  match goal with |- context [moveLoop M ?f ?b ?r] =>
    destruct (moveLoop_frame M f b r) as [(Hs & Ho & Hr) _]; revert Hs Ho Hr;
    generalize (moveLoop M f b r) end.
  intros a2 Hs Ho Hr. simpl in Hs, Ho, Hr.
  unfold checkArrival.
  destruct (atEndOfRoute a2); [|by simpl; rewrite Hs, Ho].
  rewrite Ho, Hcur. destruct (findOrder _ _) as [[i o]|]; [|done].
  case_decide as Hts.
  { unfold arriveAtStore. destruct (findStoreOnRoute _ _); simpl; by rewrite Ho. }
  case_decide as Htc; [|by simpl; rewrite Hs, Ho].
  exfalso. rewrite Hs in Htc. specialize (Hp (or_intror Htc)).
  unfold atEndOfRoute in Hp, Hend. simpl in Hend. congruence.
Qed.

(** The agent at an index is updated against an order array that has the
    same orders, index by index, as the one the pass started with. *)
Lemma forEachAgent_lookup agents acc i a :
  agents !! i = Some a ->
  exists acc_i,
    orderKey <$> updatedOrders acc_i = orderKey <$> updatedOrders acc
    /\ (updateAll agents acc).1 !! i = Some (updateAgent a acc_i).1.
Proof.
  revert acc i. induction agents as [|b rest IH]; intros acc i Hi; [done|].
  cbn [forEachAgent]. destruct i as [|i]; simpl in Hi.
  - injection Hi as ->. exists acc. split; [done|].
    by destruct (updateAgent a acc), (updateAll rest _).
  - destruct (updateAgentMovement_spec M agentSpeedKmph trafficFactor currentTime
                darkStoreLocations b acc) as (_ & Hord & _).
    apply ordersMove_keys in Hord.
    destruct (updateAgent b acc) as [b' acc']. cbn [snd] in Hord.
    destruct (IH acc' i Hi) as (acc_i & Hk & Hl).
    destruct (updateAll rest acc'). exists acc_i. split; [by rewrite Hk|done].
Qed.

Lemma agentMove_holdsKnownOrder ids a a' :
  agentMove a a' -> holdsKnownOrder ids a -> holdsKnownOrder ids a'.
Proof.
  unfold holdsKnownOrder.
  intros [(_ & Ho & _) _|_ _ Ho _|_ _ Ho _ _|_ _ Ho _ _ _] H; rewrite Ho; done.
Qed.

End Engagement.

Section Engaged.
Variable M : JsMath.
Variable generateUniqueId : string -> Gen string.

Local Abbreviation tick := (runSimulationStep M generateUniqueId).

Lemma runSimulationStep_ordersKnown simParams profiles s rnd k :
  ordersKnown s -> ordersKnown (tick simParams profiles s rnd k).1.
Proof.
  intros Hknown. unfold runSimulationStep.
  destruct (SimulationState.isRunning s); simpl; [|done].
  unfold gbind.
  match goal with |- context [let '(_, _) := ?m rnd k in _] =>
    destruct (m rnd k) as [traffic k1] end.
  match goal with |- context [generateOrdersLogic ?a ?b ?c ?d ?e ?f ?g rnd k1] =>
    destruct (generateOrdersLogic a b c d e f g rnd k1) as [generated k2]
  end.
  set (orders1 := SimulationState.orders s ++ newOrders generated).
  match goal with |- context [assignOrdersToAgentsLogic ?a ?b ?c ?d ?e ?f] =>
    destruct (assignOrdersToAgentsLogic_keys a b c d e f) as [Hids2 Hkeys2];
    pose proof (assignOrdersToAgentsLogic_agent a b c d e f) as Hassign;
    destruct (assignOrdersToAgentsLogic a b c d e f) as [agents2 orders2]
  end.
  cbn [fst snd] in Hids2, Hkeys2, Hassign.
  assert (Hknown2 : Forall (holdsKnownOrder (Order.id <$> orders1)) agents2).
  { apply Forall_lookup. intros i a2 Hi2.
    assert (is_Some (SimulationState.agents s !! i)) as [a Hi].
    { apply lookup_lt_is_Some. apply lookup_lt_Some in Hi2.
      apply (f_equal length) in Hids2. rewrite !length_fmap in Hids2. lia. }
    destruct (Hassign i a Hi) as [Hsame|(_ & orderId & route & Hin & _ & Hsent)].
    - assert (a2 = a) as -> by congruence.
      intros oid Hoid. unfold orders1. rewrite fmap_app. apply elem_of_app. left.
      by apply (Forall_lookup_1 _ _ _ _ Hknown Hi).
    - assert (a2 = dispatchAgent orderId route a) as -> by congruence.
      intros oid Hoid. simpl in Hoid. by injection Hoid as <-. }
  unfold updateAgentsMovementAndStatusLogic.
  match goal with |- context [forEachAgent ?a ?b ?c ?d ?e ?f ?g] =>
    pose proof (forEachAgent_Forall a b c d e (holdsKnownOrder (Order.id <$> orders1)) f g
                  (fun x y Hm _ => agentMove_holdsKnownOrder _ x y Hm) Hknown2) as Hknown3;
    destruct (forEachAgent_frame a b c d e f g) as [_ Hkeys3];
    destruct (forEachAgent a b c d e f g) as [agents3 moved]
  end.
  cbn [fst snd updatedOrders] in *. unfold ordersKnown. cbn.
  rewrite (orderKey_ids _ orders1) by (by rewrite Hkeys3, Hkeys2).
  unfold updateAgentFatigueLogic. apply Forall_forall. intros a' Hin.
  apply list_elem_of_In, in_map_iff in Hin as (a & <- & Hin).
  rewrite Forall_forall in Hknown3. apply list_elem_of_In, Hknown3 in Hin.
  destruct (updateAgentFatigue_task a) as [(_ & Ho & _) _].
  unfold holdsKnownOrder. by rewrite Ho.
Qed.

Lemma createAgents_idle i n rnd k :
  Forall (fun a => Agent.currentOrder a = None) (createAgents generateUniqueId i n rnd k).1.
Proof.
  revert i k. induction n as [|n IH]; intros i k; simpl; [by constructor|].
  unfold gbind, Math_random, gret.
  destruct (generateUniqueId _ rnd k) as [id k'].
  specialize (IH (S i) (S (S k'))).
  destruct (createAgents _ _ _ _ _) as [rest k'']. simpl in *.
  by constructor.
Qed.

(** In every state a run can reach, the order an agent holds is in the
    order array. *)
Lemma reachable_ordersKnown s : reachable M generateUniqueId s -> ordersKnown s.
Proof.
  induction 1 as [numAgents stores rnd k| |s _ IH|s _ IH];
    [|by apply runSimulationStep_ordersKnown|done..].
  unfold initialSimState, gbind, gret, ordersKnown.
  pose proof (createAgents_idle 0 numAgents rnd k) as H.
  destruct (createAgents _ _ _ _ _) as [agents k']. simpl in *.
  eapply Forall_impl; [done|]. intros a Ha oid Hoid. congruence.
Qed.

Lemma runSimulationStep_engaged simParams profiles s rnd k i a :
  stateOk s -> ordersKnown s ->
  SimulationState.agents s !! i = Some a -> Agent.status a <> available ->
  exists a',
    SimulationState.agents (tick simParams profiles s rnd k).1 !! i = Some a'
    /\ Agent.status a' <> available
    /\ Agent.currentOrder a' = Agent.currentOrder a.
Proof.
  intros (Hok & _ & _) Hknown Hi Hna.
  destruct (Forall_lookup_1 _ _ _ _ Hok Hi) as ((Hidle & _) & _ & Hparked & _).
  destruct (Agent.currentOrder a) as [orderId|] eqn:Hcur; [|by destruct Hna; apply Hidle].
  pose proof (Forall_lookup_1 _ _ _ _ Hknown Hi orderId Hcur) as Hin.
  unfold runSimulationStep.
  destruct (SimulationState.isRunning s); simpl; [|by exists a].
  unfold gbind.
  match goal with |- context [let '(_, _) := ?m rnd k in _] =>
    destruct (m rnd k) as [traffic k1] end.
  match goal with |- context [generateOrdersLogic ?a ?b ?c ?d ?e ?f ?g rnd k1] =>
    destruct (generateOrdersLogic a b c d e f g rnd k1) as [generated k2]
  end.
  set (orders1 := SimulationState.orders s ++ newOrders generated).
  match goal with |- context [assignOrdersToAgentsLogic ?a ?b ?c ?d ?e ?f] =>
    destruct (assignOrdersToAgentsLogic_keys a b c d e f) as [_ Hkeys2];
    destruct (assignOrdersToAgentsLogic_agent a b c d e f i _ Hi) as [Hi2|[? _]]; [|done];
    destruct (assignOrdersToAgentsLogic a b c d e f) as [agents2 orders2]
  end.
  cbn [fst snd] in Hkeys2, Hi2.
  unfold updateAgentsMovementAndStatusLogic.
  match goal with |- context [forEachAgent ?a ?b ?c ?d ?e ?f ?g] =>
    destruct (forEachAgent_lookup a b c d e f g i _ Hi2) as (acc_i & Hkeys_i & Hi3);
    destruct (forEachAgent a b c d e f g) as [agents3 moved]
  end.
  cbn [fst snd updatedOrders] in *.
  match type of Hi3 with _ = Some (updateAgentMovement ?m ?sp ?tr ?now ?st _ _).1 =>
    destruct (updateAgentMovement_keeps m sp tr now st a acc_i orderId) as [Hst3 Hcur3];
    [done|done|done| |]
  end.
  { rewrite (orderKey_ids _ orders1) by (by rewrite Hkeys_i, Hkeys2).
    unfold orders1. rewrite fmap_app. apply elem_of_app. by left. }
  eexists. split; [by apply map_lookup|].
  destruct (updateAgentFatigue_task
              (updateAgentMovement M (SimParams.agentSpeedKmph simParams)
                 (if SimParams.enableDynamicTraffic simParams then traffic
                  else SimParams.baseTrafficFactor simParams)
                 (SimulationState.currentSimulationTime s + MINUTES_PER_SIMULATION_STEP)
                 (SimulationState.darkStoreLocations s) a acc_i).1) as [(Hs & Ho & _) _].
  by rewrite Hs, Ho.
Qed.

Lemma runsTo_reachable s s' :
  reachable M generateUniqueId s -> runsTo M generateUniqueId s s' ->
  reachable M generateUniqueId s'.
Proof.
  intros Hreach. induction 1; [done|by apply reach_tick|by apply reach_start|by apply reach_pause].
Qed.

(** Once dispatched, never free again: an agent that is not available in a
    state the simulation can reach is not available in any later state of
    the run, and still holds the same order. *)
Lemma engaged_agent_stays_engaged s s' i a :
  reachable M generateUniqueId s -> runsTo M generateUniqueId s s' ->
  SimulationState.agents s !! i = Some a -> Agent.status a <> available ->
  exists a',
    SimulationState.agents s' !! i = Some a'
    /\ Agent.status a' <> available
    /\ Agent.currentOrder a' = Agent.currentOrder a.
Proof.
  intros Hreach Hruns Hi Hna.
  induction Hruns as [|s' simParams profiles rnd k Hruns IH|s' Hruns IH|s' Hruns IH];
    [by exists a| |done..].
  destruct IH as (a1 & Hi1 & Hna1 & Hcur1).
  pose proof (runsTo_reachable s s' Hreach Hruns) as Hreach'.
  destruct (runSimulationStep_engaged simParams profiles s' rnd k i a1
              (reachable_stateOk M generateUniqueId s' Hreach')
              (reachable_ordersKnown s' Hreach') Hi1 Hna1) as (a2 & Hi2 & Hna2 & Hcur2).
  exists a2. split_and!; [done..|congruence].
Qed.

End Engaged.

(** ** The reduced-fidelity run, once more *)

Lemma insertByTime_length o l : length (insertByTime o l) = S (length l).
Proof.
  induction l as [|p l IH]; simpl; [done|].
  destruct (Qleb _ _); simpl; by rewrite ?IH.
Qed.

Lemma sortByTime_length l : length (sortByTime l) = length l.
Proof.
  induction l as [|o l IH]; simpl; [done|].
  by rewrite insertByTime_length, IH.
Qed.

Section ReducedRun.
Variable M : JsMath.
Variable customDemandProfiles : list CustomDemandProfile.t.
Variable darkStoreCoords : LatLngTuple.
Variable demandProfileId : string.
Variables (maxSimTime targetSLA : Q).

Local Abbreviation serve1 := (serveOrder M darkStoreCoords maxSimTime targetSLA).
Local Abbreviation serveAll := (serveOrders M darkStoreCoords maxSimTime targetSLA).
Local Abbreviation demandOf :=
  (generateDemand M customDemandProfiles darkStoreCoords demandProfileId maxSimTime).
Local Abbreviation runOnce :=
  (simplifiedSimulationRun M customDemandProfiles darkStoreCoords demandProfileId
     maxSimTime targetSLA).

Lemma serveOrder_counts served order run :
  optCountsOk served run -> optCountsOk (served + 1) (serve1 order run).2.
Proof.
  intros (H1 & H2 & H3). unfold serveOrder, optCountsOk.
  repeat case_match; simpl; lia.
Qed.

Lemma serveOrders_counts served orders run :
  optCountsOk served run ->
  optCountsOk (served + Z.of_nat (length orders)) (serveAll orders run).2.
Proof.
  revert served run. induction orders as [|order rest IH]; intros served run Hok.
  - simpl. by rewrite Z.add_0_r.
  - cbn [serveOrders length].
    destruct (Qgtb _ _).
    { destruct Hok as (? & ? & ?). unfold optCountsOk. simpl. lia. }
    pose proof (serveOrder_counts served order run Hok) as Hok1.
    destruct (serve1 order run) as [order' run'].
    specialize (IH (served + 1)%Z run' Hok1).
    destruct (serveAll rest run') as [rest' run'']. simpl in *.
    by replace (served + Z.of_nat (S (length rest)))%Z
      with (served + 1 + Z.of_nat (length rest))%Z by lia.
Qed.

Lemma serveOrder_agents order run :
  Forall (optAgentOk maxSimTime) (runAgents run) ->
  Forall (optAgentOk maxSimTime) (runAgents (serve1 order run).2)
  /\ length (runAgents (serve1 order run).2) = length (runAgents run).
Proof.
  intros Hall. unfold serveOrder.
  destruct (earliestAgent _ _ _).1 as [index|]; [|done].
  destruct (runAgents run !! index) as [agent|] eqn:Hagent; [|done].
  destruct (Qgtb (Math_max _ _) maxSimTime) eqn:Hlate; [done|].
  destruct (Qgtb (_ + _) maxSimTime) eqn:Hover; [done|]. simpl.
  split; [|by rewrite length_insert].
  apply Forall_insert; [done|].
  destruct (Forall_lookup_1 _ _ _ _ Hall Hagent) as [Hactive _].
  apply Qltb_ge in Hover. unfold Qgtb in Hover.
  split; simpl; [|done].
  unfold Math_max. destruct (Qleb _ _) eqn:Hmax; [lra|].
  apply Qleb_gt in Hmax. lra.
Qed.

Lemma serveOrders_agents orders run :
  Forall (optAgentOk maxSimTime) (runAgents run) ->
  Forall (optAgentOk maxSimTime) (runAgents (serveAll orders run).2)
  /\ length (runAgents (serveAll orders run).2) = length (runAgents run).
Proof.
  revert run. induction orders as [|order rest IH]; intros run Hall; [done|].
  cbn [serveOrders]. destruct (Qgtb _ _); [done|].
  destruct (serveOrder_agents order run Hall) as [Hall1 Hlen1].
  destruct (serve1 order run) as [order' run'].
  destruct (IH run' Hall1) as [Hall2 Hlen2].
  destruct (serveAll rest run') as [rest' run'']. simpl in *.
  split; [done|congruence].
Qed.

Lemma totalActive_bound agents :
  Forall (optAgentOk maxSimTime) agents ->
  List.fold_left (fun sum a => sum + OptAgent.totalActiveTimeThisRun a) agents 0
  <= inject_Z (Z.of_nat (length agents)) * maxSimTime.
Proof.
  intros Hall.
  assert (H : forall s0,
    List.fold_left (fun sum a => sum + OptAgent.totalActiveTimeThisRun a) agents s0
    <= s0 + inject_Z (Z.of_nat (length agents)) * maxSimTime).
  { induction Hall as [|a rest [H1 H2] _ IH]; intros s0.
    - cbn [List.fold_left length]. change (inject_Z (Z.of_nat 0)) with 0. lra.
    - cbn [List.fold_left length]. rewrite Nat2Z.inj_succ, <- Z.add_1_r, inject_Z_plus.
      change (inject_Z 1) with 1.
      eapply Qle_trans; [apply IH|]. lra. }
  eapply Qle_trans; [apply H|]. lra.
Qed.

(** What a run reports is consistent: the orders that met the target are
    among the delivered ones, and no more orders are delivered than were
    generated. *)
Lemma simplifiedSimulationRun_counts numAgents rnd k :
  (0 <= ordersMeetingSLA (runOnce numAgents rnd k).1)%Z
  /\ (ordersMeetingSLA (runOnce numAgents rnd k).1
      <= deliveredOrders (runOnce numAgents rnd k).1)%Z
  /\ (deliveredOrders (runOnce numAgents rnd k).1
      <= generatedOrders (runOnce numAgents rnd k).1)%Z.
Proof.
  unfold simplifiedSimulationRun, gbind, gret.
  pose proof (generateDemand_counted M customDemandProfiles darkStoreCoords demandProfileId
                maxSimTime rnd k) as Hcounted.
  destruct (demandOf rnd k) as [demand k'].
  destruct (settleGenerated_counted demand Hcounted) as (Hone & Hnil & Hcons).
  match goal with |- context [serveOrders _ _ _ _ ?orders ?run] =>
    pose proof (serveOrders_counts 0 orders run) as Hok;
    destruct (serveOrders M darkStoreCoords maxSimTime targetSLA orders run) as [orders' run']
  end.
  destruct Hok as (H1 & H2 & H3); [by unfold optCountsOk|].
  cbn [fst snd ordersMeetingSLA deliveredOrders generatedOrders] in *.
  rewrite sortByTime_length in H3.
  split_and!; [done..|].
  destruct (optOrders demand) as [|o rest] eqn:Horders.
  - simpl in H3. lia.
  - rewrite Hcons by done. lia.
Qed.

(** No agent is charged more time than the horizon, so the utilization a
    run reports never exceeds 100. *)
Lemma simplifiedSimulationRun_utilization numAgents rnd k :
  0 <= maxSimTime -> avgUtilization (runOnce numAgents rnd k).1 <= 100.
Proof.
  intros Hmax. unfold simplifiedSimulationRun, gbind, gret.
  destruct (demandOf rnd k) as [demand k'].
  match goal with |- context [serveOrders _ _ _ _ ?orders ?run] =>
    destruct (serveOrders_agents orders run) as [Hall Hlen];
    [|destruct (serveOrders M darkStoreCoords maxSimTime targetSLA orders run) as [orders' run']]
  end.
  { simpl. apply Forall_forall. intros a Ha.
    apply list_elem_of_In, repeat_spec in Ha as ->. split; simpl; [lra|done]. }
  cbn [fst snd avgUtilization runAgents] in *.
  rewrite repeat_length in Hlen.
  pose proof (totalActive_bound _ Hall) as Hsum. rewrite Hlen in Hsum.
  set (total := List.fold_left _ _ _) in *.
  set (possible := inject_Z _ * _) in *.
  destruct (Qlt_le_dec 0 possible) as [Hpos|Hzero].
  - assert (total / possible <= 1) by (apply Qle_shift_div_r; [done|lra]). lra.
  - assert (Hp : possible == 0).
    { apply Qle_antisym; [done|]. unfold possible.
      apply Qmult_le_0_compat; [|done].
      change 0 with (inject_Z 0). rewrite <- Zle_Qle. lia. }
    rewrite Hp. unfold Qdiv. change (/ 0) with 0. lra.
Qed.

(** Without agents nothing is delivered. *)
Lemma simplifiedSimulationRun_no_agents rnd k :
  deliveredOrders (runOnce 0 rnd k).1 = 0%Z.
Proof.
  unfold simplifiedSimulationRun, gbind, gret.
  destruct (demandOf rnd k) as [demand k']. cbn [List.repeat].
  generalize (sortByTime (optOrders demand)). intros orders.
  assert (H : forall run, runAgents run = [] ->
            runDelivered (serveAll orders run).2 = runDelivered run).
  { induction orders as [|order rest IH]; intros run Hrun; [done|].
    cbn [serveOrders]. destruct (Qgtb _ _); [done|].
    unfold serveOrder. rewrite Hrun. cbn.
    specialize (IH run Hrun). by destruct (serveAll rest run). }
  match goal with |- context [serveOrders _ _ _ _ orders ?run] =>
    specialize (H run eq_refl);
    destruct (serveOrders M darkStoreCoords maxSimTime targetSLA orders run) as [orders' run']
  end.
  done.
Qed.

End ReducedRun.

(** ** The recommendation *)

Ltac key_le :=
  repeat match goal with
         | |- _ /\ _ => split
         | |- _ \/ _ => (left; lra) || right
         | |- _ => lra
         end.

Lemma keyLe_trans k l m : keyLe k l -> keyLe l m -> keyLe k m.
Proof.
  destruct k as [[[k1 k2] k3] k4], l as [[[l1 l2] l3] l4], m as [[[m1 m2] m3] m4].
  unfold keyLe. cbn [fst snd]. intros H1 H2.
  decompose [and or] H1; decompose [and or] H2; key_le.
Qed.

Lemma keyLe_total k l : keyLe k l \/ keyLe l k.
Proof.
  destruct k as [[[k1 k2] k3] k4], l as [[[l1 l2] l3] l4].
  unfold keyLe. cbn [fst snd].
  destruct (Q_dec k1 l1) as [[?|?]|?]; [left; key_le|right; key_le|].
  destruct (Q_dec k2 l2) as [[?|?]|?]; [left; key_le|right; key_le|].
  destruct (Q_dec k3 l3) as [[?|?]|?]; [left; key_le|right; key_le|].
  destruct (Qlt_le_dec l4 k4); [right|left]; key_le.
Qed.

(** The comparator orders the rows by their keys. *)
Lemma compareCandidates_key a b :
  notAfter a b <-> keyLe (candidateKey a) (candidateKey b).
Proof.
  unfold notAfter, compareCandidates, candidateKey, keyLe, costDiffers, costDifference.
  cbn [fst snd].
  generalize (Qabs (OptimizationIterationResult.avgAgentUtilization a
                    - (IDEAL_AGENT_UTILIZATION_MIN_PERCENT
                       + IDEAL_AGENT_UTILIZATION_MAX_PERCENT) / 2)).
  generalize (Qabs (OptimizationIterationResult.avgAgentUtilization b
                    - (IDEAL_AGENT_UTILIZATION_MIN_PERCENT
                       + IDEAL_AGENT_UTILIZATION_MAX_PERCENT) / 2)).
  intros db da.
  destruct (OptimizationIterationResult.avgCostPerOrder a) as [x|],
           (OptimizationIterationResult.avgCostPerOrder b) as [y|]; cbn [negb].
  - destruct (Qeq_bool x y) eqn:Heq; cbn [negb].
    + apply Qeq_bool_iff in Heq.
      destruct (inIdealUtil a), (inIdealUtil b); cbn [andb negb];
        try destruct (Qcompare_spec (da - db) 0);
        (split; [intros ?; try done; key_le
                |intros Hkey; try done; decompose [and or] Hkey; lra]).
    + apply Qeq_bool_neq in Heq.
      destruct (Qcompare_spec (x - y) 0);
        (split; [intros ?; try done; key_le
                |intros Hkey; try done; decompose [and or] Hkey; lra]).
  - split; [intros _; key_le|done].
  - split; [done|intros Hkey; decompose [and or] Hkey; lra].
  - destruct (inIdealUtil a), (inIdealUtil b); cbn [andb negb];
      try destruct (Qcompare_spec (da - db) 0);
      (split; [intros ?; try done; key_le
              |intros Hkey; try done; decompose [and or] Hkey; lra]).
Qed.

Lemma notAfter_trans a b c : notAfter a b -> notAfter b c -> notAfter a c.
Proof. rewrite !compareCandidates_key. apply keyLe_trans. Qed.

Lemma notAfter_total a b : compareCandidates a b = Gt -> notAfter b a.
Proof.
  intros Hgt. rewrite compareCandidates_key.
  destruct (keyLe_total (candidateKey a) (candidateKey b)) as [H|H]; [|done].
  by apply compareCandidates_key in H.
Qed.

Lemma notAfter_refl a : notAfter a a.
Proof.
  rewrite compareCandidates_key.
  by destruct (keyLe_total (candidateKey a) (candidateKey a)).
Qed.

Lemma insertCandidate_head x sorted :
  List.head (insertCandidate x sorted)
  = match sorted with
    | [] => Some x
    | p :: _ => match compareCandidates x p with Gt => Some p | _ => Some x end
    end.
Proof. destruct sorted as [|p rest]; [done|]. simpl. by destruct (compareCandidates x p). Qed.

(** The head of the sorted candidates is one of them and is sorted before,
    or ties with, every one of them. *)
Lemma sortCandidates_head candidates :
  match List.head (sortCandidates candidates) with
  | None => candidates = []
  | Some best => best ∈ candidates /\ Forall (notAfter best) candidates
  end.
Proof.
  induction candidates as [|x l IH]; [done|].
  cbn [sortCandidates List.fold_right]. fold (sortCandidates l).
  rewrite insertCandidate_head.
  destruct (sortCandidates l) as [|p rest] eqn:Hsorted; cbn [List.head] in IH.
  - subst l. split; [by left|]. constructor; [apply notAfter_refl|done].
  - destruct IH as [Hin Hall].
    destruct (compareCandidates x p) eqn:Hcmp.
    + assert (notAfter x p) by (unfold notAfter; congruence).
      split; [by left|]. constructor; [apply notAfter_refl|].
      eapply Forall_impl; [done|]. intros c Hc. by eapply notAfter_trans.
    + assert (notAfter x p) by (unfold notAfter; congruence).
      split; [by left|]. constructor; [apply notAfter_refl|].
      eapply Forall_impl; [done|]. intros c Hc. by eapply notAfter_trans.
    + split; [by right|]. constructor; [by apply notAfter_total|done].
Qed.

Lemma notAfter_costNoMore a b :
  notAfter a b ->
  costNoMore (OptimizationIterationResult.avgCostPerOrder a)
             (OptimizationIterationResult.avgCostPerOrder b).
Proof.
  rewrite compareCandidates_key. unfold keyLe, candidateKey, costNoMore. cbn [fst snd].
  destruct (OptimizationIterationResult.avgCostPerOrder a),
           (OptimizationIterationResult.avgCostPerOrder b);
    intros H; try done; decompose [and or] H; lra.
Qed.

Lemma selectCandidates_sub targetAvgDeliveryTime data :
  selectCandidates targetAvgDeliveryTime data ⊆ data.
Proof.
  unfold selectCandidates. intros c.
  destruct (length (List.filter (meetsTargets _) data) =? 0)%nat.
  - destruct (length (List.filter meetsRelaxed data) =? 0)%nat; [done|].
    intros Hc. apply list_elem_of_In, filter_In in Hc as [Hc _]. by apply list_elem_of_In.
  - cbn. destruct (length (List.filter (meetsTargets _) data) =? 0)%nat; [done|].
    intros Hc. apply list_elem_of_In, filter_In in Hc as [Hc _]. by apply list_elem_of_In.
Qed.

Lemma selectCandidates_nonempty targetAvgDeliveryTime data :
  data <> [] -> selectCandidates targetAvgDeliveryTime data <> [].
Proof.
  unfold selectCandidates. intros Hdata.
  destruct (length (List.filter (meetsTargets _) data) =? 0)%nat eqn:H1.
  - destruct (length (List.filter meetsRelaxed data) =? 0)%nat eqn:H2; [done|].
    intros E. by rewrite E in H2.
  - cbn. rewrite H1. intros E. by rewrite E in H1.
Qed.

(** The recommendation of an empty table is the "no data" text; of any
    other table it is a row of the table.  The text for a missing best row
    is never set. *)
Lemma generateAndSetRecommendation_cases targetAvgDeliveryTime data :
  match generateAndSetRecommendation targetAvgDeliveryTime data with
  | NoData => data = []
  | Recommend best _ _ => best ∈ data
  | NoClearOptimum => False
  end.
Proof.
  unfold generateAndSetRecommendation.
  destruct data as [|r data]; [done|]. cbn [length Nat.eqb].
  pose proof (sortCandidates_head (selectCandidates targetAvgDeliveryTime (r :: data))) as H.
  destruct (sortCandidates _) as [|best rest]; cbn [List.head] in H.
  - by apply selectCandidates_nonempty in H.
  - destruct H as [Hin _]. by apply selectCandidates_sub in Hin.
Qed.

(** The recommended row is sorted before, or ties with, every candidate:
    no candidate has a lower cost per order. *)
Lemma generateAndSetRecommendation_cheapest targetAvgDeliveryTime data best above below :
  generateAndSetRecommendation targetAvgDeliveryTime data = Recommend best above below ->
  best ∈ selectCandidates targetAvgDeliveryTime data
  /\ Forall (fun c =>
               notAfter best c
               /\ costNoMore (OptimizationIterationResult.avgCostPerOrder best)
                             (OptimizationIterationResult.avgCostPerOrder c))
       (selectCandidates targetAvgDeliveryTime data).
Proof.
  unfold generateAndSetRecommendation.
  destruct (length data =? 0)%nat; [done|].
  pose proof (sortCandidates_head (selectCandidates targetAvgDeliveryTime data)) as H.
  destruct (sortCandidates _) as [|b rest]; [done|]. cbn [List.head] in H.
  intros [= <- _ _]. destruct H as [Hin Hall]. split; [done|].
  eapply Forall_impl; [done|]. intros c Hc. split; [done|by apply notAfter_costNoMore].
Qed.

(** If some row meets the three targets, the recommended row meets them,
    and neither note is added. *)
Lemma generateAndSetRecommendation_meets_targets targetAvgDeliveryTime data :
  Exists (fun r => meetsTargets targetAvgDeliveryTime r = true) data ->
  exists best,
    generateAndSetRecommendation targetAvgDeliveryTime data = Recommend best false false
    /\ best ∈ data
    /\ meetsTargets targetAvgDeliveryTime best = true.
Proof.
  intros Hex.
  assert (Hfilter : List.filter (meetsTargets targetAvgDeliveryTime) data <> []).
  { apply Exists_exists in Hex as (r & Hr & Hmeets).
    intros E. assert (Hin : In r (List.filter (meetsTargets targetAvgDeliveryTime) data)).
    { apply filter_In. split; [by apply list_elem_of_In|done]. }
    by rewrite E in Hin. }
  assert (Hsel : selectCandidates targetAvgDeliveryTime data
                 = List.filter (meetsTargets targetAvgDeliveryTime) data).
  { unfold selectCandidates.
    destruct (List.filter (meetsTargets targetAvgDeliveryTime) data); [done|]. done. }
  unfold generateAndSetRecommendation.
  destruct data as [|r0 data0] eqn:Hdata; [by apply Exists_nil in Hex|].
  cbn [length Nat.eqb]. rewrite <- Hdata in *. clear Hdata.
  pose proof (sortCandidates_head (selectCandidates targetAvgDeliveryTime data)) as H.
  destruct (sortCandidates _) as [|best rest]; cbn [List.head] in H.
  { by rewrite Hsel in H. }
  destruct H as [Hin _]. rewrite Hsel in Hin.
  apply list_elem_of_In, filter_In in Hin as [Hin Hmeets].
  exists best. split_and!; [|by apply list_elem_of_In|done].
  unfold meetsTargets in Hmeets. apply andb_true_iff in Hmeets as [Hmeets Htime].
  apply andb_true_iff in Hmeets as [_ Hsla].
  apply Qleb_le in Htime. apply Qgeb_ge in Hsla.
  f_equal.
  - apply Qltb_ge. done.
  - apply Qltb_ge. done.
Qed.


(** ** The sweep over the agent counts *)

Lemma ratio_percentage a b :
  (0 <= a)%Z -> (a <= b)%Z -> (0 < b)%Z -> percentage (inject_Z a / inject_Z b * 100).
Proof.
  intros Ha Hab Hb. unfold percentage.
  rewrite Zle_Qle in Ha, Hab. rewrite Zlt_Qlt in Hb.
  change (inject_Z 0) with 0 in Ha, Hb.
  assert (0 <= inject_Z a / inject_Z b /\ inject_Z a / inject_Z b <= 1) as [H0 H1].
  { split.
    - apply Qle_shift_div_l; [done|lra].
    - apply Qle_shift_div_r; [done|lra]. }
  split; lra.
Qed.

Lemma totals_ordered runs :
  Forall runCountsOk runs ->
  (0 <= totalMeetingSLA runs)%Z
  /\ (totalMeetingSLA runs <= totalDelivered runs)%Z
  /\ (totalDelivered runs <= totalGenerated runs)%Z.
Proof.
  unfold totalMeetingSLA, totalDelivered, totalGenerated. intros Hall.
  assert (H : forall s d g, (0 <= s)%Z -> (s <= d)%Z -> (d <= g)%Z ->
    (0 <= List.fold_left (fun s r => s + ordersMeetingSLA r) runs s)%Z
    /\ (List.fold_left (fun s r => s + ordersMeetingSLA r) runs s
        <= List.fold_left (fun s r => s + deliveredOrders r) runs d)%Z
    /\ (List.fold_left (fun s r => s + deliveredOrders r) runs d
        <= List.fold_left (fun s r => s + generatedOrders r) runs g)%Z).
  { induction Hall as [|r l (H1 & H2 & H3) _ IH]; intros s d g Hs Hd Hg; [done|].
    cbn [List.fold_left]. apply IH; lia. }
  by apply H.
Qed.

Lemma sumOver_bound (f : SimplifiedSimRunStats -> Q) bound runs :
  Forall (fun r => f r <= bound) runs ->
  sumOver f runs <= inject_Z (Z.of_nat (length runs)) * bound.
Proof.
  unfold sumOver. intros Hall.
  assert (H : forall s0,
    List.fold_left (fun s r => s + f r) runs s0
    <= s0 + inject_Z (Z.of_nat (length runs)) * bound).
  { induction Hall as [|r l Hr _ IH]; intros s0.
    - cbn [List.fold_left length]. change (inject_Z (Z.of_nat 0)) with 0. lra.
    - cbn [List.fold_left length]. rewrite Nat2Z.inj_succ, <- Z.add_1_r, inject_Z_plus.
      change (inject_Z 1) with 1.
      eapply Qle_trans; [apply IH|]. lra. }
  eapply Qle_trans; [apply H|]. lra.
Qed.

Section SweepFacts.
Variable M : JsMath.
Variable customDemandProfiles : list CustomDemandProfile.t.
Variable darkStoreCoords : LatLngTuple.
Variable demandProfileId : string.
Variables (maxSimTimePerIteration targetAvgDeliveryTime : Q).
Variable numRunsPerAgentCount : nat.

Local Abbreviation repetitions :=
  (runRepetitions M customDemandProfiles darkStoreCoords demandProfileId
     maxSimTimePerIteration targetAvgDeliveryTime).
Local Abbreviation sweepFrom :=
  (sweep M customDemandProfiles darkStoreCoords demandProfileId
     maxSimTimePerIteration targetAvgDeliveryTime numRunsPerAgentCount).
Local Abbreviation optimize :=
  (runOptimization M customDemandProfiles darkStoreCoords demandProfileId
     maxSimTimePerIteration targetAvgDeliveryTime numRunsPerAgentCount).

Lemma runRepetitions_runs (P : SimplifiedSimRunStats -> Prop) numRuns numAgents rnd k :
  (forall rnd k,
     P (simplifiedSimulationRun M customDemandProfiles darkStoreCoords demandProfileId
          maxSimTimePerIteration targetAvgDeliveryTime numAgents rnd k).1) ->
  Forall P (repetitions numRuns numAgents rnd k).1
  /\ length (repetitions numRuns numAgents rnd k).1 = numRuns.
Proof.
  intros HP. revert k. induction numRuns as [|n IH]; intros k; [done|].
  cbn [runRepetitions]. unfold gbind, gret.
  pose proof (HP rnd k) as Hrun.
  destruct (simplifiedSimulationRun _ _ _ _ _ _ _ _ _) as [stats k1].
  destruct (IH k1) as [Hall Hlen].
  destruct (repetitions n numAgents rnd k1) as [rest k2]. cbn [fst] in *.
  split; [by constructor|by rewrite <- Hlen].
Qed.

Lemma sweep_rows (P : OptimizationIterationResult.t -> Prop) count numAgents rnd k :
  (forall numAgents rnd k,
     P (aggregate numAgents numRunsPerAgentCount maxSimTimePerIteration
          (repetitions numRunsPerAgentCount numAgents rnd k).1)) ->
  Forall P (sweepFrom count numAgents rnd k).1.
Proof.
  intros HP. revert numAgents k. induction count as [|count IH]; intros numAgents k.
  - by constructor.
  - cbn [sweep]. unfold gbind, gret.
    pose proof (HP numAgents rnd k) as Hrow.
    destruct (repetitions numRunsPerAgentCount numAgents rnd k) as [runs k1].
    specialize (IH (S numAgents) k1).
    destruct (sweepFrom count (S numAgents) rnd k1) as [rest k2]. cbn [fst] in *.
    by constructor.
Qed.

(** The table has one row per agent count from the minimum to the maximum,
    in that order; it is empty when the minimum exceeds the maximum. *)
Lemma runOptimization_rows minAgentsToTest maxAgentsToTest rnd k :
  OptimizationIterationResult.numAgents <$> (optimize minAgentsToTest maxAgentsToTest rnd k).1
  = seq minAgentsToTest (S maxAgentsToTest - minAgentsToTest).
Proof.
  unfold runOptimization. generalize (S maxAgentsToTest - minAgentsToTest)%nat.
  intros count. revert minAgentsToTest k.
  induction count as [|count IH]; intros numAgents k; [done|].
  cbn [sweep seq]. unfold gbind, gret.
  destruct (repetitions numRunsPerAgentCount numAgents rnd k) as [runs k1].
  specialize (IH (S numAgents) k1).
  destruct (sweepFrom count (S numAgents) rnd k1) as [rest k2]. cbn [fst] in *.
  by rewrite fmap_cons, IH.
Qed.

(** In every row of the table the completion rate and the share of orders
    that met the target are percentages, and the average number of delivered
    orders is not negative. *)
Lemma runOptimization_percentages minAgentsToTest maxAgentsToTest rnd k :
  Forall (fun row =>
            percentage (OptimizationIterationResult.completionRate row)
            /\ percentage (OptimizationIterationResult.percentageMeetingSLA row)
            /\ 0 <= OptimizationIterationResult.avgDeliveredOrders row)
    (optimize minAgentsToTest maxAgentsToTest rnd k).1.
Proof.
  apply sweep_rows. clear rnd k. intros numAgents rnd k.
  destruct (runRepetitions_runs runCountsOk numRunsPerAgentCount numAgents rnd k) as [Hall _].
  { intros rnd' k'. apply simplifiedSimulationRun_counts. }
  destruct (totals_ordered _ Hall) as (H1 & H2 & H3).
  generalize dependent (repetitions numRunsPerAgentCount numAgents rnd k).1. intros runs _ H1 H2 H3.
  unfold aggregate. cbn. split_and!.
  - unfold completionRate.
    destruct (totalGenerated runs >? 0)%Z eqn:Hgen; [|by unfold percentage].
    apply Z.gtb_lt in Hgen. apply ratio_percentage; lia.
  - destruct (totalDelivered runs >? 0)%Z eqn:Hdel; [|by unfold percentage].
    apply Z.gtb_lt in Hdel. apply ratio_percentage; lia.
  - unfold Qdiv. apply Qmult_le_0_compat.
    + change 0 with (inject_Z 0). rewrite <- Zle_Qle. lia.
    + apply Qinv_le_0_compat. change 0 with (inject_Z 0). rewrite <- Zle_Qle. lia.
Qed.

(** With at least one run per agent count, a row has no finite cost per
    order exactly when none of its runs delivered an order. *)
Lemma runOptimization_cost minAgentsToTest maxAgentsToTest rnd k :
  (0 < numRunsPerAgentCount)%nat ->
  Forall (fun row =>
            OptimizationIterationResult.avgCostPerOrder row = None
            <-> OptimizationIterationResult.avgDeliveredOrders row == 0)
    (optimize minAgentsToTest maxAgentsToTest rnd k).1.
Proof.
  intros Hruns.
  pose proof (runOptimization_percentages minAgentsToTest maxAgentsToTest rnd k) as Hpos.
  revert Hpos. unfold runOptimization.
  generalize (S maxAgentsToTest - minAgentsToTest)%nat. intros count.
  revert minAgentsToTest k.
  induction count as [|count IH]; intros numAgents k; [by constructor|].
  cbn [sweep]. unfold gbind, gret.
  destruct (repetitions numRunsPerAgentCount numAgents rnd k) as [runs k1].
  specialize (IH (S numAgents) k1).
  destruct (sweepFrom count (S numAgents) rnd k1) as [rest k2]. cbn [fst] in *.
  intros Hall. apply Forall_cons in Hall as [(_ & _ & Hrow) Hall].
  constructor; [|by apply IH].
  revert Hrow. unfold aggregate. cbn.
  set (avg := inject_Z (totalDelivered runs) / inject_Z (Z.of_nat numRunsPerAgentCount)).
  intros Havg.
  assert (Hn : 0 < inject_Z (Z.of_nat numRunsPerAgentCount)).
  { change 0 with (inject_Z 0). rewrite <- Zlt_Qlt. lia. }
  destruct (Qgtb _ 0) eqn:Hgt.
  - apply Qgtb_gt in Hgt. split; [done|]. intros Hzero. rewrite Hzero in Hgt. lra.
  - apply Qltb_ge in Hgt. split; [|done]. intros _.
    apply Qle_antisym; [|done]. nra.
Qed.

(** With a horizon that is not negative, the average utilization of a row
    never exceeds 100. *)
Lemma runOptimization_utilization minAgentsToTest maxAgentsToTest rnd k :
  0 <= maxSimTimePerIteration ->
  Forall (fun row => OptimizationIterationResult.avgAgentUtilization row <= 100)
    (optimize minAgentsToTest maxAgentsToTest rnd k).1.
Proof.
  intros Hmax. apply sweep_rows. clear rnd k. intros numAgents rnd k.
  destruct (runRepetitions_runs (fun r => avgUtilization r <= 100)
              numRunsPerAgentCount numAgents rnd k) as [Hall Hlen].
  { intros rnd' k'. by apply simplifiedSimulationRun_utilization. }
  apply sumOver_bound in Hall. rewrite Hlen in Hall.
  generalize dependent (repetitions numRunsPerAgentCount numAgents rnd k).1.
  intros runs Hsum _. unfold aggregate. cbn.
  destruct numRunsPerAgentCount as [|n].
  - unfold Qdiv. change (/ inject_Z (Z.of_nat 0)) with 0. lra.
  - apply Qle_shift_div_r; [|lra].
    change 0 with (inject_Z 0). rewrite <- Zlt_Qlt. lia.
Qed.

(** The sweep and the recommendation together: an empty range of agent
    counts yields the "no data" text, any other range a recommended agent
    count within the range. *)
Lemma recommendation_within_range target minAgentsToTest maxAgentsToTest rnd k :
  match generateAndSetRecommendation target (optimize minAgentsToTest maxAgentsToTest rnd k).1 with
  | NoData => (maxAgentsToTest < minAgentsToTest)%nat
  | Recommend best _ _ =>
      (minAgentsToTest <= OptimizationIterationResult.numAgents best)%nat
      /\ (OptimizationIterationResult.numAgents best <= maxAgentsToTest)%nat
  | NoClearOptimum => False
  end.
Proof.
  pose proof (runOptimization_rows minAgentsToTest maxAgentsToTest rnd k) as Hrows.
  pose proof (generateAndSetRecommendation_cases target
                (optimize minAgentsToTest maxAgentsToTest rnd k).1) as Hcases.
  destruct (generateAndSetRecommendation _ _) as [|best above below|]; [| |done].
  - rewrite Hcases in Hrows. cbn in Hrows.
    destruct (S maxAgentsToTest - minAgentsToTest)%nat eqn:Hcount; [lia|done].
  - apply (list_elem_of_fmap_2 OptimizationIterationResult.numAgents) in Hcases.
    rewrite Hrows in Hcases. apply list_elem_of_In, in_seq in Hcases. lia.
Qed.

End SweepFacts.

(** * Further properties of the code *)

(** ** The movement engine *)

(** X1.  A pass of the movement engine keeps the agents, their order and
    their ids, and keeps every order at its index with its id, its position
    and its placement time: agents and orders are neither added, removed nor
    reordered. *)
Theorem movement_pass_keeps_agents_and_order_keys
  M agentSpeedKmph trafficFactor currentTime darkStoreLocations agents orders :
  Agent.id <$> (updateAgentsMovementAndStatusLogic M agentSpeedKmph trafficFactor currentTime
                  darkStoreLocations agents orders).1
  = Agent.id <$> agents
  /\ orderKey <$> updatedOrders
                    (updateAgentsMovementAndStatusLogic M agentSpeedKmph trafficFactor
                       currentTime darkStoreLocations agents orders).2
     = orderKey <$> orders.
Proof. unfold updateAgentsMovementAndStatusLogic. apply forEachAgent_frame. Qed.

(** X2.  The movement loop keeps an agent on its route: from a leg index
    within the route and a progress in [0, 1) it never steps back, never
    runs past the last waypoint, and leaves the progress in [0, 1). *)
Theorem moveLoop_stays_on_route M fuel a r :
  (Agent.currentLegIndex a <= length (Agent.routePath a) - 1)%nat ->
  0 <= Agent.legProgress a -> Agent.legProgress a < 1 ->
  (Agent.currentLegIndex a <= Agent.currentLegIndex (moveLoop M fuel a r))%nat
  /\ (Agent.currentLegIndex (moveLoop M fuel a r) <= length (Agent.routePath a) - 1)%nat
  /\ 0 <= Agent.legProgress (moveLoop M fuel a r)
  /\ Agent.legProgress (moveLoop M fuel a r) < 1.
Proof.
  intros Hidx Hlo Hhi.
  destruct (moveLoop_bounds M fuel a r) as (H1 & H2 & H3).
  destruct (H3 (conj Hlo Hhi)) as [? ?]. split_and!; [done|by apply H2|done..].
Qed.

Lemma moveLoop_stays_on_route_witness :
  (Agent.currentLegIndex routedAgent
   <= Agent.currentLegIndex (moveLoop smallAngleMath 7 routedAgent (1 # 2)))%nat
  /\ (Agent.currentLegIndex (moveLoop smallAngleMath 7 routedAgent (1 # 2))
      <= length (Agent.routePath routedAgent) - 1)%nat
  /\ 0 <= Agent.legProgress (moveLoop smallAngleMath 7 routedAgent (1 # 2))
  /\ Agent.legProgress (moveLoop smallAngleMath 7 routedAgent (1 # 2)) < 1.
Proof.
  apply (moveLoop_stays_on_route smallAngleMath 7 routedAgent (1 # 2)).
  - vm_compute. lia.
  - by vm_compute.
  - by vm_compute.
Defined.

(** X3.  In one tick the movement engine charges an agent at most one step
    of five minutes, to exactly one of its two accounts: travelling time
    for an agent on its way, handling time for an agent at the store.  It
    never takes time back. *)
Theorem movement_charges_one_step_to_one_account
  M agentSpeedKmph trafficFactor currentTime darkStoreLocations a acc :
  let a' := (updateAgentMovement M agentSpeedKmph trafficFactor currentTime
               darkStoreLocations a acc).1 in
  (Agent.timeSpentDelivering a' == Agent.timeSpentDelivering a
   /\ Agent.timeSpentAtStore a' == Agent.timeSpentAtStore a)
  \/ (Agent.timeSpentDelivering a' == Agent.timeSpentDelivering a + 5
      /\ Agent.timeSpentAtStore a' == Agent.timeSpentAtStore a
      /\ (Agent.status a = to_store \/ Agent.status a = to_customer \/ Agent.status a = busy))
  \/ (Agent.timeSpentDelivering a' == Agent.timeSpentDelivering a
      /\ Agent.timeSpentAtStore a' == Agent.timeSpentAtStore a + 5
      /\ Agent.status a = at_store).
Proof. apply updateAgentMovement_times. Qed.

(** ** The dispatcher *)

(** X4.  With no pending order, or with no available agent, the dispatcher
    returns the agents and the orders it was given. *)
Theorem dispatch_without_work_changes_nothing
  M agentSpeedKmph trafficFactor darkStoreLocations agents orders :
  Forall (fun o => Order.status o <> pending) orders
  \/ Forall (fun a => Agent.status a <> available) agents ->
  assignOrdersToAgentsLogic M agentSpeedKmph trafficFactor darkStoreLocations agents orders
  = (agents, orders).
Proof. apply assignOrdersToAgentsLogic_noop. Qed.

Lemma dispatch_without_work_changes_nothing_witness :
  assignOrdersToAgentsLogic smallAngleMath 25 1 [defaultDarkStoreLocationSim]
    [routedAgent] [doorstepOrder]
  = ([routedAgent], [doorstepOrder]).
Proof.
  apply (dispatch_without_work_changes_nothing smallAngleMath 25 1
           [defaultDarkStoreLocationSim] [routedAgent] [doorstepOrder]).
  right. repeat constructor. by vm_compute.
Defined.

(** X5.  A pass of the dispatcher leaves every agent that was not available
    as it was.  An available agent is left as it was or is dispatched once:
    to an order of the order array, on a route of seven waypoints, with the
    status [to_store]. *)
Theorem dispatch_touches_only_available_agents
  M agentSpeedKmph trafficFactor darkStoreLocations agents orders i a :
  agents !! i = Some a ->
  (assignOrdersToAgentsLogic M agentSpeedKmph trafficFactor darkStoreLocations
     agents orders).1 !! i = Some a
  \/ (Agent.status a = available
      /\ exists orderId route,
           orderId ∈ Order.id <$> orders
           /\ length route = 7%nat
           /\ (assignOrdersToAgentsLogic M agentSpeedKmph trafficFactor darkStoreLocations
                 agents orders).1 !! i = Some (dispatchAgent orderId route a)).
Proof. apply assignOrdersToAgentsLogic_agent. Qed.

Lemma dispatch_touches_only_available_agents_witness :
  (assignOrdersToAgentsLogic smallAngleMath 25 1 [defaultDarkStoreLocationSim]
     [tiredAgent; freshAgent] [doorstepOrder]).1 !! 0%nat = Some tiredAgent
  \/ (Agent.status tiredAgent = available
      /\ exists orderId route,
           orderId ∈ Order.id <$> [doorstepOrder]
           /\ length route = 7%nat
           /\ (assignOrdersToAgentsLogic smallAngleMath 25 1 [defaultDarkStoreLocationSim]
                 [tiredAgent; freshAgent] [doorstepOrder]).1 !! 0%nat
              = Some (dispatchAgent orderId route tiredAgent)).
Proof.
  apply (dispatch_touches_only_available_agents smallAngleMath 25 1
           [defaultDarkStoreLocationSim] [tiredAgent; freshAgent] [doorstepOrder] 0%nat
           tiredAgent).
  reflexivity.
Defined.

(** X6.  A pass of the dispatcher keeps the agents, their order and their
    ids, and keeps every order at its index with its id, its position and
    its placement time. *)
Theorem dispatch_keeps_agents_and_order_keys
  M agentSpeedKmph trafficFactor darkStoreLocations agents orders :
  Agent.id <$> (assignOrdersToAgentsLogic M agentSpeedKmph trafficFactor darkStoreLocations
                  agents orders).1
  = Agent.id <$> agents
  /\ orderKey <$> (assignOrdersToAgentsLogic M agentSpeedKmph trafficFactor darkStoreLocations
                     agents orders).2
     = orderKey <$> orders.
Proof. apply assignOrdersToAgentsLogic_keys. Qed.

(** X7.  [generateWaypoints] with [n] intermediate waypoints returns
    [n + 2] waypoints, the first at the start and the last at the end. *)
Theorem generateWaypoints_runs_from_start_to_end startLatLng endLatLng n :
  length (generateWaypoints startLatLng endLatLng n) = (n + 2)%nat
  /\ List.hd (LatLng.mk 0 0) (generateWaypoints startLatLng endLatLng n)
     = LatLng.mk startLatLng.1 startLatLng.2
  /\ List.last (generateWaypoints startLatLng endLatLng n) (LatLng.mk 0 0)
     = LatLng.mk endLatLng.1 endLatLng.2.
Proof. apply generateWaypoints_shape. Qed.

(** ** The demand generator of the full simulation *)

(** X8.  The order counter and the generated-orders increment that
    [generateOrdersLogic] returns both advance by the number of orders it
    created.  A built-in profile creates at most one order per tick, a
    custom profile at most one per zone, and a profile id that names no
    profile creates none. *)
Theorem demand_counters_advance_by_orders_created
  M generateUniqueId now darkStoreLocations counter profileId profiles rnd k :
  let generated :=
    (generateOrdersLogic M generateUniqueId now darkStoreLocations counter profileId
       profiles rnd k).1 in
  genCounted counter generated
  /\ (profileId = "default_uniform_ccr"%string \/ profileId = "default_focused_ccr"%string ->
      (length (newOrders generated) <= 1)%nat)
  /\ (profileId <> "default_uniform_ccr"%string ->
      profileId <> "default_focused_ccr"%string ->
      match List.find (fun p => bool_decide (CustomDemandProfile.id p = profileId)) profiles with
      | Some profile =>
          (length (newOrders generated) <= length (CustomDemandProfile.zones profile))%nat
      | None => newOrders generated = []
      end).
Proof. apply generateOrdersLogic_counts. Qed.

(** X9.  With [Math.random()] in [0, 1], every order that the full
    simulation creates under the built-in uniform profile, or under a custom
    profile made of uniform zones, is placed on the default dark store: the
    region sampler never accepts a sample. *)
Theorem uniform_orders_land_on_default_store
  M generateUniqueId now darkStoreLocations counter profileId profiles rnd k :
  (forall n, 0 <= rnd n /\ rnd n <= 1) ->
  profileId = "default_uniform_ccr"%string
  \/ (profileId <> "default_focused_ccr"%string
      /\ forall profile,
           List.find (fun p => bool_decide (CustomDemandProfile.id p = profileId)) profiles
           = Some profile ->
           Forall (fun zone => DemandZone.shape zone = uniform_ccr)
             (CustomDemandProfile.zones profile)) ->
  Forall (fun o => (Order.lat o, Order.lng o) = defaultDarkStoreLocationSim)
    (newOrders (generateOrdersLogic M generateUniqueId now darkStoreLocations counter
                  profileId profiles rnd k).1).
Proof. intros Hrnd Hprofile. by apply generateOrdersLogic_uniform_location. Qed.

Lemma uniform_orders_land_on_default_store_witness :
  Forall (fun o => (Order.lat o, Order.lng o) = defaultDarkStoreLocationSim)
    (newOrders (generateOrdersLogic smallAngleMath prefixId 5 [defaultDarkStoreLocationSim]
                  0 "default_uniform_ccr" [] (constStream (1 # 10)) 0%nat).1).
Proof.
  apply (uniform_orders_land_on_default_store smallAngleMath prefixId 5
           [defaultDarkStoreLocationSim] 0 "default_uniform_ccr" [] (constStream (1 # 10)) 0%nat).
  - intros n. split; by vm_compute.
  - left. reflexivity.
Defined.

(** X10.  Whatever the runtime and the random stream, a point that
    [getRandomPointNearHotspot] or [getRandomPointInCcr] returns is the
    default dark store or has a first component of at least 76.65: no
    sample with a latitude of the region is ever accepted. *)
Theorem samplers_return_default_or_far_north M center radiusKm rnd k :
  ((getRandomPointNearHotspot M center radiusKm rnd k).1 = defaultDarkStoreLocationSim
   \/ 7665 # 100 <= (getRandomPointNearHotspot M center radiusKm rnd k).1.1)
  /\ ((getRandomPointInCcr rnd k).1 = defaultDarkStoreLocationSim
      \/ 7665 # 100 <= (getRandomPointInCcr rnd k).1.1).
Proof.
  split; [apply getRandomPointNearHotspot_default_or_north
         |apply getRandomPointInCcr_default_or_north].
Qed.

(** ** The tick *)

(** X11.  A tick keeps the agents, their order and their ids, keeps every
    order at its index with its id, its position and its placement time,
    appends the new orders behind them, and keeps the dark stores. *)
Theorem tick_keeps_agents_orders_and_stores M generateUniqueId simParams profiles s rnd k :
  Agent.id <$> SimulationState.agents
                 (runSimulationStep M generateUniqueId simParams profiles s rnd k).1
  = Agent.id <$> SimulationState.agents s
  /\ (exists created,
        orderKey <$> SimulationState.orders
                       (runSimulationStep M generateUniqueId simParams profiles s rnd k).1
        = (orderKey <$> SimulationState.orders s) ++ created)
  /\ SimulationState.darkStoreLocations
       (runSimulationStep M generateUniqueId simParams profiles s rnd k).1
     = SimulationState.darkStoreLocations s.
Proof. apply runSimulationStep_frame. Qed.

(** X12.  In every state a run can reach, the number of orders generated,
    the order id counter and the length of the order array agree, and the
    simulation time is not negative: no order is ever dropped. *)
Theorem books_balance_in_reachable_states M generateUniqueId s :
  reachable M generateUniqueId s -> booksOk s.
Proof. apply reachable_books. Qed.

Lemma books_balance_in_reachable_states_witness : booksOk demoState2.
Proof.
  exact (books_balance_in_reachable_states smallAngleMath prefixId demoState2
           demoState2_reachable).
Defined.

(** X13.  In every state a run can reach, the time an agent has been
    charged for travelling and handling is at most the simulated time, so
    the utilization reported for a saved scenario is a percentage. *)
Theorem utilization_is_a_percentage M generateUniqueId s :
  reachable M generateUniqueId s ->
  Forall (timesOk (SimulationState.currentSimulationTime s)) (SimulationState.agents s)
  /\ 0 <= agentUtilization s /\ agentUtilization s <= 100.
Proof.
  intros Hreach. split; [by eapply reachable_timesOk|by eapply agentUtilization_percentage].
Qed.

Lemma utilization_is_a_percentage_witness :
  Forall (timesOk (SimulationState.currentSimulationTime demoState3))
    (SimulationState.agents demoState3)
  /\ 0 <= agentUtilization demoState3 /\ agentUtilization demoState3 <= 100.
Proof.
  exact (utilization_is_a_percentage smallAngleMath prefixId demoState3 demoState3_reachable).
Defined.

(** X14.  In every state a run can reach, the order an agent holds is in
    the order array. *)
Theorem held_orders_exist M generateUniqueId s :
  reachable M generateUniqueId s -> ordersKnown s.
Proof. apply reachable_ordersKnown. Qed.

Lemma held_orders_exist_witness : ordersKnown demoState1.
Proof.
  exact (held_orders_exist smallAngleMath prefixId demoState1 demoState1_reachable).
Defined.

(** X15.  Once dispatched, never free again: an agent that is not available
    in a state the simulation can reach is not available in any later state
    of the run, and still holds the same order. *)
Theorem dispatched_agent_is_never_released M generateUniqueId s s' i a :
  reachable M generateUniqueId s -> runsTo M generateUniqueId s s' ->
  SimulationState.agents s !! i = Some a -> Agent.status a <> available ->
  exists a',
    SimulationState.agents s' !! i = Some a'
    /\ Agent.status a' <> available
    /\ Agent.currentOrder a' = Agent.currentOrder a.
Proof. apply engaged_agent_stays_engaged. Qed.

Lemma dispatched_agent_is_never_released_witness :
  exists a a',
    SimulationState.agents demoState1 !! 0%nat = Some a
    /\ Agent.status a <> available
    /\ SimulationState.agents demoState3 !! 0%nat = Some a'
    /\ Agent.status a' <> available
    /\ Agent.currentOrder a' = Agent.currentOrder a.
Proof.
  destruct demoState1_agent as (a & Hagents & Hst & _).
  assert (Hi : SimulationState.agents demoState1 !! 0%nat = Some a) by (by rewrite Hagents).
  assert (Hna : Agent.status a <> available) by (by rewrite Hst).
  assert (Hruns : runsTo smallAngleMath prefixId demoState1 demoState3).
  { exact (runs_tick _ _ _ demoState2 demoParams [] (constStream (1 # 10)) 0%nat
             (runs_tick _ _ _ demoState1 demoParams [] (constStream (1 # 10)) 0%nat
                (runs_here _ _ _))). }
  destruct (dispatched_agent_is_never_released smallAngleMath prefixId demoState1 demoState3
              0%nat a demoState1_reachable Hruns Hi Hna) as (a' & Hi' & Hna' & Hcur).
  exact (ex_intro _ a (ex_intro _ a'
           (conj Hi (conj Hna (conj Hi' (conj Hna' Hcur)))))).
Defined.

(** ** The reduced-fidelity run *)

(** X16.  What a run of the optimization sweep reports is consistent: the
    orders that met the target are among the delivered ones, and no more
    orders are delivered than were generated. *)
Theorem run_counters_are_consistent
  M customDemandProfiles darkStoreCoords demandProfileId maxSimTime targetSLA numAgents rnd k :
  runCountsOk
    (simplifiedSimulationRun M customDemandProfiles darkStoreCoords demandProfileId
       maxSimTime targetSLA numAgents rnd k).1.
Proof. apply simplifiedSimulationRun_counts. Qed.

(** X17.  With a horizon that is not negative, no agent of a run is charged
    more time than the horizon, so the utilization the run reports never
    exceeds 100. *)
Theorem run_utilization_at_most_100
  M customDemandProfiles darkStoreCoords demandProfileId maxSimTime targetSLA numAgents rnd k :
  0 <= maxSimTime ->
  avgUtilization
    (simplifiedSimulationRun M customDemandProfiles darkStoreCoords demandProfileId
       maxSimTime targetSLA numAgents rnd k).1 <= 100.
Proof. apply simplifiedSimulationRun_utilization. Qed.

Lemma run_utilization_at_most_100_witness :
  avgUtilization
    (simplifiedSimulationRun smallAngleMath [] defaultDarkStoreLocationSim
       "default_opt_uniform_ccr" 120 25 3 (constStream (1 # 2)) 0%nat).1 <= 100.
Proof.
  apply (run_utilization_at_most_100 smallAngleMath [] defaultDarkStoreLocationSim
           "default_opt_uniform_ccr" 120 25 3 (constStream (1 # 2)) 0%nat).
  by vm_compute.
Defined.

(** X18.  Without agents a run delivers nothing, whatever the demand. *)
Theorem run_without_agents_delivers_nothing
  M customDemandProfiles darkStoreCoords demandProfileId maxSimTime targetSLA rnd k :
  deliveredOrders
    (simplifiedSimulationRun M customDemandProfiles darkStoreCoords demandProfileId
       maxSimTime targetSLA 0 rnd k).1 = 0%Z.
Proof. apply simplifiedSimulationRun_no_agents. Qed.

(** ** The sweep over the agent counts *)

(** X19.  The results table has one row per agent count from the minimum to
    the maximum, in that order; it is empty when the minimum exceeds the
    maximum. *)
Theorem sweep_has_one_row_per_agent_count
  M customDemandProfiles darkStoreCoords demandProfileId maxSimTimePerIteration
  targetAvgDeliveryTime numRunsPerAgentCount minAgentsToTest maxAgentsToTest rnd k :
  OptimizationIterationResult.numAgents
    <$> (runOptimization M customDemandProfiles darkStoreCoords demandProfileId
           maxSimTimePerIteration targetAvgDeliveryTime numRunsPerAgentCount
           minAgentsToTest maxAgentsToTest rnd k).1
  = seq minAgentsToTest (S maxAgentsToTest - minAgentsToTest).
Proof. apply runOptimization_rows. Qed.

(** X20.  In every row of the results table the completion rate and the
    share of orders that met the target are percentages, and the average
    number of delivered orders is not negative. *)
Theorem sweep_rows_hold_percentages
  M customDemandProfiles darkStoreCoords demandProfileId maxSimTimePerIteration
  targetAvgDeliveryTime numRunsPerAgentCount minAgentsToTest maxAgentsToTest rnd k :
  Forall (fun row =>
            percentage (OptimizationIterationResult.completionRate row)
            /\ percentage (OptimizationIterationResult.percentageMeetingSLA row)
            /\ 0 <= OptimizationIterationResult.avgDeliveredOrders row)
    (runOptimization M customDemandProfiles darkStoreCoords demandProfileId
       maxSimTimePerIteration targetAvgDeliveryTime numRunsPerAgentCount
       minAgentsToTest maxAgentsToTest rnd k).1.
Proof. apply runOptimization_percentages. Qed.

(** X21.  With at least one run per agent count, a row of the results table
    has no finite cost per order exactly when none of its runs delivered an
    order. *)
Theorem sweep_cost_is_infinite_iff_nothing_delivered
  M customDemandProfiles darkStoreCoords demandProfileId maxSimTimePerIteration
  targetAvgDeliveryTime numRunsPerAgentCount minAgentsToTest maxAgentsToTest rnd k :
  (0 < numRunsPerAgentCount)%nat ->
  Forall (fun row =>
            OptimizationIterationResult.avgCostPerOrder row = None
            <-> OptimizationIterationResult.avgDeliveredOrders row == 0)
    (runOptimization M customDemandProfiles darkStoreCoords demandProfileId
       maxSimTimePerIteration targetAvgDeliveryTime numRunsPerAgentCount
       minAgentsToTest maxAgentsToTest rnd k).1.
Proof. apply runOptimization_cost. Qed.

Lemma sweep_cost_is_infinite_iff_nothing_delivered_witness :
  Forall (fun row =>
            OptimizationIterationResult.avgCostPerOrder row = None
            <-> OptimizationIterationResult.avgDeliveredOrders row == 0)
    (runOptimization smallAngleMath [] defaultDarkStoreLocationSim "default_opt_uniform_ccr"
       120 25 3 10 12 (constStream (1 # 2)) 0%nat).1.
Proof.
  apply (sweep_cost_is_infinite_iff_nothing_delivered smallAngleMath []
           defaultDarkStoreLocationSim "default_opt_uniform_ccr" 120 25 3 10 12
           (constStream (1 # 2)) 0%nat).
  lia.
Defined.

(** X22.  With a horizon that is not negative, the average utilization in a
    row of the results table never exceeds 100. *)
Theorem sweep_utilization_at_most_100
  M customDemandProfiles darkStoreCoords demandProfileId maxSimTimePerIteration
  targetAvgDeliveryTime numRunsPerAgentCount minAgentsToTest maxAgentsToTest rnd k :
  0 <= maxSimTimePerIteration ->
  Forall (fun row => OptimizationIterationResult.avgAgentUtilization row <= 100)
    (runOptimization M customDemandProfiles darkStoreCoords demandProfileId
       maxSimTimePerIteration targetAvgDeliveryTime numRunsPerAgentCount
       minAgentsToTest maxAgentsToTest rnd k).1.
Proof. apply runOptimization_utilization. Qed.

Lemma sweep_utilization_at_most_100_witness :
  Forall (fun row => OptimizationIterationResult.avgAgentUtilization row <= 100)
    (runOptimization smallAngleMath [] defaultDarkStoreLocationSim "default_opt_uniform_ccr"
       120 25 3 10 12 (constStream (1 # 2)) 0%nat).1.
Proof.
  apply (sweep_utilization_at_most_100 smallAngleMath [] defaultDarkStoreLocationSim
           "default_opt_uniform_ccr" 120 25 3 10 12 (constStream (1 # 2)) 0%nat).
  by vm_compute.
Defined.

(** ** The recommendation *)

(** X23.  The comparator of the recommendation is consistent: of two rows
    one is sorted before the other or they tie, and "sorted before or ties
    with" is transitive.  It orders the rows by cost first, a cost of
    [Infinity] last. *)
Theorem comparator_is_consistent :
  (forall a b, notAfter a b \/ notAfter b a)
  /\ (forall a b c, notAfter a b -> notAfter b c -> notAfter a c)
  /\ (forall a b,
        notAfter a b ->
        costNoMore (OptimizationIterationResult.avgCostPerOrder a)
                   (OptimizationIterationResult.avgCostPerOrder b)).
Proof.
  split_and!.
  - intros a b. destruct (compareCandidates a b) eqn:Hcmp.
    + left. unfold notAfter. congruence.
    + left. unfold notAfter. congruence.
    + right. by apply notAfter_total.
  - apply notAfter_trans.
  - apply notAfter_costNoMore.
Qed.

(** X24.  The recommendation for an empty table is the "no data" text; for
    any other table it is a row of the table.  The text for a missing best
    row is never set. *)
Theorem recommendation_is_a_row_of_the_table targetAvgDeliveryTime data :
  match generateAndSetRecommendation targetAvgDeliveryTime data with
  | NoData => data = []
  | Recommend best _ _ => best ∈ data
  | NoClearOptimum => False
  end.
Proof. apply generateAndSetRecommendation_cases. Qed.

(** X25.  The recommended row is one of the candidates and is sorted
    before, or ties with, every candidate; no candidate has a lower cost
    per order. *)
Theorem recommendation_is_the_cheapest_candidate targetAvgDeliveryTime data best above below :
  generateAndSetRecommendation targetAvgDeliveryTime data = Recommend best above below ->
  best ∈ selectCandidates targetAvgDeliveryTime data
  /\ Forall (fun c =>
               notAfter best c
               /\ costNoMore (OptimizationIterationResult.avgCostPerOrder best)
                             (OptimizationIterationResult.avgCostPerOrder c))
       (selectCandidates targetAvgDeliveryTime data).
Proof. apply generateAndSetRecommendation_cheapest. Qed.

Lemma recommendation_is_the_cheapest_candidate_witness :
  row11 ∈ selectCandidates 25 demoTable
  /\ Forall (fun c =>
               notAfter row11 c
               /\ costNoMore (OptimizationIterationResult.avgCostPerOrder row11)
                             (OptimizationIterationResult.avgCostPerOrder c))
       (selectCandidates 25 demoTable).
Proof.
  apply (recommendation_is_the_cheapest_candidate 25 demoTable row11 false false).
  by vm_compute.
Defined.

(** X26.  If some row of the table meets the three targets, the recommended
    row meets them, and neither note is added to the text. *)
Theorem recommendation_meets_the_targets_if_a_row_does targetAvgDeliveryTime data :
  Exists (fun r => meetsTargets targetAvgDeliveryTime r = true) data ->
  exists best,
    generateAndSetRecommendation targetAvgDeliveryTime data = Recommend best false false
    /\ best ∈ data
    /\ meetsTargets targetAvgDeliveryTime best = true.
Proof. apply generateAndSetRecommendation_meets_targets. Qed.

Lemma recommendation_meets_the_targets_if_a_row_does_witness :
  exists best,
    generateAndSetRecommendation 25 demoTable = Recommend best false false
    /\ best ∈ demoTable
    /\ meetsTargets 25 best = true.
Proof.
  apply (recommendation_meets_the_targets_if_a_row_does 25 demoTable).
  apply Exists_cons_tl, Exists_cons_hd. by vm_compute.
Defined.



(** X28.  The sweep and the recommendation together: an empty range of
    agent counts yields the "no data" text, any other range a recommended
    agent count within the range. *)
Theorem recommended_agent_count_is_within_range
  M customDemandProfiles darkStoreCoords demandProfileId maxSimTimePerIteration
  targetAvgDeliveryTime numRunsPerAgentCount minAgentsToTest maxAgentsToTest rnd k :
  match generateAndSetRecommendation targetAvgDeliveryTime
          (runOptimization M customDemandProfiles darkStoreCoords demandProfileId
             maxSimTimePerIteration targetAvgDeliveryTime numRunsPerAgentCount
             minAgentsToTest maxAgentsToTest rnd k).1 with
  | NoData => (maxAgentsToTest < minAgentsToTest)%nat
  | Recommend best _ _ =>
      (minAgentsToTest <= OptimizationIterationResult.numAgents best)%nat
      /\ (OptimizationIterationResult.numAgents best <= maxAgentsToTest)%nat
  | NoClearOptimum => False
  end.
Proof. apply recommendation_within_range. Qed.

(** X29.  In every state a run can reach the list of dark stores is not
    empty, so the dispatcher never falls back to a store that is not in its
    list. *)
Theorem store_list_is_never_empty M generateUniqueId s :
  reachable M generateUniqueId s -> SimulationState.darkStoreLocations s <> [].
Proof.
  induction 1 as [numAgents stores rnd k|s simParams profiles rnd k _ IH|s _ IH|s _ IH];
    [| |done..].
  - unfold initialSimState, gbind, gret.
    destruct (createAgents _ _ _ _ _) as [agents k']. simpl.
    destruct stores; simpl; done.
  - destruct (runSimulationStep_frame M generateUniqueId simParams profiles s rnd k)
      as (_ & _ & _ & Hstores).
    by rewrite Hstores.
Qed.

Lemma store_list_is_never_empty_witness :
  SimulationState.darkStoreLocations demoState2 <> [].
Proof.
  exact (store_list_is_never_empty smallAngleMath prefixId demoState2 demoState2_reachable).
Defined.
